(** * LoRA training dataset generator: validators and analysis orchestration

    A shallow embedding of

    - the permutation validators of the frontend ([calculatePermutationCount],
      [hasValidPermutationSyntax], [hasSrefCode], [extractSrefCode],
      [validateBatch], [validateDatasetSpecification]), and
    - the [analyze_style] command of the Tauri backend, which picks between the
      cloud and the offline analysis and falls back from one to the other.

    Conventions of the embedding.

    - A JavaScript string is a [string]; one [ascii] stands for one UTF-16 code
      unit below 256, so the white space of [trim] and of the regular expression
      class [\s] is the set 9-13, 32 and 160.
    - Lengths, batch numbers and image counts are JavaScript numbers holding
      integers; they are modelled by [nat] and [Z], which is exact below 2^53.
    - The expansion count is a product of lengths taken in IEEE-754 doubles.
      Module [Double] has the doubles that such a product can reach (the
      natural numbers that a double holds, [Infinity] and [NaN]); it rounds
      with the Standard Library's specification of IEEE-754 arithmetic, and
      its multiplication is proved to be the one of that specification.
    - The percentage arithmetic of the distribution check works on doubles
      that are no integers and is kept abstract (class [Number]).
    - The regular expressions of the code are built from three kinds of atoms
      and run by a small backtracking matcher. *)

From Stdlib Require Import Bool Arith NArith ZArith Lia List Ascii String.
From Stdlib Require Import Numbers.DecimalString.
From Stdlib Require Floats.SpecFloat.
Import ListNotations.

Local Open Scope string_scope.
Local Open Scope list_scope.
Local Open Scope nat_scope.

(** ** Strings as the code uses them *)

Module Js.

(** White space of [String.prototype.trim] and of [\s]. *)
Definition is_space (c : ascii) : bool :=
  let n := nat_of_ascii c in
  ((9 <=? n) && (n <=? 13)) || (n =? 32) || (n =? 160).

(** The class [\d]. *)
Definition is_digit (c : ascii) : bool :=
  let n := nat_of_ascii c in (48 <=? n) && (n <=? 57).

Fixpoint trimStart (s : string) : string :=
  match s with
  | String c s' => if is_space c then trimStart s' else s
  | EmptyString => EmptyString
  end.

Fixpoint trimEnd (s : string) : string :=
  match s with
  | String c s' =>
      match trimEnd s' with
      | EmptyString => if is_space c then EmptyString else String c EmptyString
      | t => String c t
      end
  | EmptyString => EmptyString
  end.

(** [s.trim()] *)
Definition trim (s : string) : string := trimEnd (trimStart s).

(** [s.split(',')]: the pieces between the commas, never an empty list. *)
Fixpoint split_comma (s : string) : list string :=
  match s with
  | EmptyString => [EmptyString]
  | String c s' =>
      if Ascii.eqb c "," then EmptyString :: split_comma s'
      else match split_comma s' with
           | h :: t => String c h :: t
           | [] => [String c EmptyString]
           end
  end.

(** [s.slice(1, -1)] *)
Definition slice_1_m1 (s : string) : string :=
  substring 1 (String.length s - 2) s.

(** [s.includes(sub)] *)
Fixpoint includes (sub s : string) : bool :=
  prefix sub s ||
  match s with
  | String _ s' => includes sub s'
  | EmptyString => false
  end.

(** [xs.includes(x)] on an array of strings. *)
Definition array_includes (x : string) (xs : list string) : bool :=
  existsb (String.eqb x) xs.

(** [xs.join(sep)] *)
Fixpoint join (sep : string) (xs : list string) : string :=
  match xs with
  | [] => EmptyString
  | [x] => x
  | x :: rest => x ++ sep ++ join sep rest
  end.

(** [toLowerCase] on code units below 256: A-Z and the accented capitals
    192-222 (but the multiplication sign 215) move up by 32. *)
Definition lower_char (c : ascii) : ascii :=
  let n := nat_of_ascii c in
  if ((65 <=? n) && (n <=? 90)) ||
     ((192 <=? n) && (n <=? 222) && negb (n =? 215))
  then ascii_of_nat (n + 32) else c.

Fixpoint toLowerCase (s : string) : string :=
  match s with
  | String c s' => String (lower_char c) (toLowerCase s')
  | EmptyString => EmptyString
  end.

(** A number holding a natural number, in a template literal. *)
Definition nat_to_string (n : nat) : string :=
  NilZero.string_of_uint (Nat.to_uint n).

(** A number holding an integer, in a template literal. *)
Definition Z_to_string (z : Z) : string :=
  NilZero.string_of_int (Z.to_int z).

End Js.

(** ** The numbers of the expansion count *)

Module Double.

(** The doubles that a product of array lengths can be: a natural number that
    a double holds, [Infinity], or [NaN]. *)
Inductive number : Type :=
| Finite (n : N)
| Infinity
| NaN.

(** The value of a double of the Standard Library's specification of
    IEEE-754 arithmetic, for a double that is a natural number: the mantissa
    shifted by the exponent. *)
Definition of_IEEE (x : SpecFloat.spec_float) : number :=
  match x with
  | SpecFloat.S754_zero _ => Finite 0
  | SpecFloat.S754_finite _ m e =>
      Finite (match e with
              | Z0 => Npos m
              | Zpos k => N.shiftl (Npos m) (Npos k)
              | Zneg k => N.shiftr (Npos m) (Npos k)
              end)
  | SpecFloat.S754_infinity _ => Infinity
  | SpecFloat.S754_nan => NaN
  end.

(** The double nearest to a natural number, a tie going to the even
    mantissa, and [Infinity] from [2^1024 - 2^970] on: the rounding of the
    Standard Library's specification, at the precision (53 bits) and the
    exponent range (up to 1024) of a double. *)
Definition round (n : N) : number :=
  of_IEEE (SpecFloat.binary_normalize 53 1024 (Z.of_N n) 0 false).

(** A length or an integer literal: the number that holds it (a length is
    below 2^32, and so a double). *)
Definition of_nat (n : nat) : number := Finite (N.of_nat n).

(** [x * y]: the exact product, rounded. *)
Definition mul (x y : number) : number :=
  match x, y with
  | NaN, _ | _, NaN => NaN
  | Infinity, Finite 0 | Finite 0, Infinity => NaN
  | Infinity, _ | _, Infinity => Infinity
  | Finite a, Finite b => round (a * b)
  end.

(** [x === y]; [NaN] equals nothing. *)
Definition strict_eq (x y : number) : bool :=
  match x, y with
  | Finite a, Finite b => (a =? b)%N
  | Infinity, Infinity => true
  | _, _ => false
  end.

Definition N_to_string (n : N) : string := NilZero.string_of_uint (N.to_uint n).

(** The decimal [s * 10^j] reads back as the double [x]. *)
Definition reads_as (x s j : N) : bool :=
  match round (s * 10 ^ j) with
  | Finite m => (m =? x)%N
  | _ => false
  end.

(** The digits that [Number::toString] prints for [x], a number of [d]
    decimal digits: the least number [k] of leading digits, rounded down or
    up, that read back as [x]; of two such the nearer to [x], of two equally
    near the even one.  The result is the digits [s] and the number [j] of
    places behind them. *)
Fixpoint shortest (fuel : nat) (x d k : N) : N * N :=
  match fuel with
  | O => (x, 0%N)
  | S fuel' =>
      let j := (d - k)%N in
      let lo := (x / 10 ^ j)%N in
      let hi := (lo + 1)%N in
      match reads_as x lo j, reads_as x hi j with
      | true, false => (lo, j)
      | false, true => (hi, j)
      | true, true =>
          match ((x - lo * 10 ^ j) ?= (hi * 10 ^ j - x))%N with
          | Lt => (lo, j)
          | Gt => (hi, j)
          | Eq => if N.even lo then (lo, j) else (hi, j)
          end
      | false, false => shortest fuel' x d (k + 1)%N
      end
  end.

Fixpoint strip_zeros (fuel : nat) (s : N) : N :=
  match fuel with
  | O => s
  | S fuel' =>
      if ((s mod 10 =? 0) && negb (s =? 0))%N then strip_zeros fuel' (s / 10)%N else s
  end.

Fixpoint zeros (n : nat) : string :=
  match n with
  | O => EmptyString
  | S n' => String "0" (zeros n')
  end.

(** A number in a template literal ([Number::toString]): up to 21 digits
    are written out, longer numbers get an exponent. *)
Definition to_string (x : number) : string :=
  match x with
  | NaN => "NaN"
  | Infinity => "Infinity"
  | Finite 0 => "0"
  | Finite x =>
      let d := N.of_nat (String.length (N_to_string x)) in
      let '(s, j) := shortest (N.to_nat d) x d 1 in
      let n := (N.of_nat (String.length (N_to_string s)) + j)%N in
      if (n <=? 21)%N then N_to_string s ++ zeros (N.to_nat j)
      else
        let ds := N_to_string (strip_zeros (N.to_nat d) s) in
        match ds with
        | String c EmptyString => ds ++ "e+" ++ N_to_string (n - 1)
        | String c rest => String c ("." ++ rest) ++ "e+" ++ N_to_string (n - 1)
        | EmptyString => EmptyString
        end
  end.

(** A double as the Standard Library's specification has it. *)
Definition to_IEEE (x : number) : SpecFloat.spec_float :=
  match x with
  | Finite n => SpecFloat.binary_normalize 53 1024 (Z.of_N n) 0 false
  | Infinity => SpecFloat.S754_infinity false
  | NaN => SpecFloat.S754_nan
  end.

(** The number is a double: it is the value of what the specification has
    for it. *)
Definition double (x : number) : Prop := of_IEEE (to_IEEE x) = x.

End Double.

Coercion Double.of_nat : nat >-> Double.number.

(** ** The regular expressions of the validators *)

Module Regex.

(** An expression is a sequence of atoms: one character of a class, one or
    more characters of a class (greedy), or the end of the input. *)
Inductive atom : Type :=
| Chr (p : ascii -> bool)
| Plus (p : ascii -> bool)
| Eos.

Definition regex := list atom.

(** What a match yields: the text each atom took, and the input left over. *)
Definition outcome : Type := list string * string.

(** The tail of a greedy [+]: take one more character when the match can
    still be completed that way, and hand over to the continuation [k]
    otherwise. *)
Fixpoint plus_tail (p : ascii -> bool) (k : string -> option outcome)
    (s : string) : option (string * outcome) :=
  match s with
  | String c s' =>
      if p c then
        match plus_tail p k s' with
        | Some (m, o) => Some (String c m, o)
        | None => option_map (pair EmptyString) (k s)
        end
      else option_map (pair EmptyString) (k s)
  | EmptyString => option_map (pair EmptyString) (k s)
  end.

(** Match the expression at the start of [s]. *)
Fixpoint match_here (r : regex) (s : string) : option outcome :=
  match r with
  | [] => Some ([], s)
  | Chr p :: r' =>
      match s with
      | String c s' =>
          if p c then
            match match_here r' s' with
            | Some (segs, rest) => Some (String c EmptyString :: segs, rest)
            | None => None
            end
          else None
      | EmptyString => None
      end
  | Plus p :: r' =>
      match s with
      | String c s' =>
          if p c then
            match plus_tail p (match_here r') s' with
            | Some (m, (segs, rest)) => Some (String c m :: segs, rest)
            | None => None
            end
          else None
      | EmptyString => None
      end
  | Eos :: r' =>
      match s with
      | EmptyString =>
          match match_here r' s with
          | Some (segs, rest) => Some (EmptyString :: segs, rest)
          | None => None
          end
      | String _ _ => None
      end
  end.

(** The matched text. *)
Definition matched (segs : list string) : string :=
  fold_right String.append EmptyString segs.

(** [re.exec(s)] without the [g] flag: the leftmost match. *)
Fixpoint exec (r : regex) (s : string) : option (list string) :=
  match match_here r s with
  | Some (segs, _) => Some segs
  | None =>
      match s with
      | String _ s' => exec r s'
      | EmptyString => None
      end
  end.

(** [re.test(s)] *)
Definition test (r : regex) (s : string) : bool :=
  match exec r s with Some _ => true | None => false end.

(** The matches of a [g] expression from left to right.  After a match the
    search resumes behind it: [skip] counts the characters of the last match
    that are still to be passed over. *)
Fixpoint match_all_from (r : regex) (skip : nat) (s : string) : list string :=
  match s with
  | EmptyString => []
  | String _ s' =>
      match skip with
      | S k => match_all_from r k s'
      | O =>
          match match_here r s with
          | Some (segs, _) =>
              let m := matched segs in
              m :: match_all_from r (String.length m - 1) s'
          | None => match_all_from r 0 s'
          end
      end
  end.

(** [re.test(s)] for an expression that opens with [^]: only the start of the
    input is tried. *)
Definition test_start (r : regex) (s : string) : bool :=
  match match_here r s with Some _ => true | None => false end.

(** [s.match(re)] with the [g] flag: [null] when nothing matches. *)
Definition match_g (r : regex) (s : string) : option (list string) :=
  match match_all_from r 0 s with
  | [] => None
  | ms => Some ms
  end.

(** A literal text. *)
Fixpoint lit (s : string) : regex :=
  match s with
  | String c s' => Chr (Ascii.eqb c) :: lit s'
  | EmptyString => []
  end.

End Regex.

(** ** The permutation parser *)

Import Js Regex.

(** [/\{[^}]+\}/g] *)
Definition block_re : regex :=
  [Chr (Ascii.eqb "{"); Plus (fun c => negb (Ascii.eqb c "}")); Chr (Ascii.eqb "}")].

(** [/\{/g] and [/\}/g] *)
Definition open_re : regex := [Chr (Ascii.eqb "{")].
Definition close_re : regex := [Chr (Ascii.eqb "}")].

(** [/--sref\s+\d+/], the digits being group 1. *)
Definition sref_re : regex := lit "--sref" ++ [Plus is_space; Plus is_digit].

(** [/^\d{10}$/], to be run with [test_start]. *)
Definition sref_code_re : regex := repeat (Chr is_digit) 10 ++ [Eos].

(** The options of a block: [block.slice(1, -1).split(',').map(s => s.trim())
    .filter(s => s.length > 0)]. *)
Definition block_options (block : string) : list string :=
  filter (fun s => 0 <? String.length s)
         (map trim (split_comma (slice_1_m1 block))).

(** [calculatePermutationCount].  No step of the body can throw on a string,
    so the [catch] branch (which returns 0) is never taken.  [totalCount] is
    a double and [*=] multiplies doubles. *)
Definition calculatePermutationCount (prompt : string) : Double.number :=
  match match_g block_re prompt with
  | None => 1
  | Some permutationBlocks =>
      fold_left (fun totalCount block =>
                   Double.mul totalCount (List.length (block_options block)))
                permutationBlocks (Double.of_nat 1)
  end.

(** [hasValidPermutationSyntax] *)
Definition hasValidPermutationSyntax (prompt : string) : bool :=
  let openBraces := List.length (match match_g open_re prompt with Some l => l | None => [] end) in
  let closeBraces := List.length (match match_g close_re prompt with Some l => l | None => [] end) in
  if negb (openBraces =? closeBraces) then false
  else
    match match_g block_re prompt with
    | Some blocks =>
        forallb (fun block =>
                   let content := trim (slice_1_m1 block) in
                   negb ((String.length content =? 0) || negb (includes "," content)))
                blocks
    | None => true
    end.

(** [hasSrefCode] *)
Definition hasSrefCode (prompt : string) : bool := test sref_re prompt.

(** [extractSrefCode]: group 1 of the first match. *)
Definition extractSrefCode (prompt : string) : option string :=
  match exec sref_re prompt with
  | Some segs => Some (last segs EmptyString)
  | None => None
  end.


(** ** What the expressions match, read off by a scan

    The definitions of this part say directly, without the matcher, what the
    code computes: which blocks [/\{[^}]+\}/g] finds, how many options
    [split], [trim] and [filter] leave of a block, and when the brace counts
    agree.  The properties below prove that the code computes just that. *)

(** The bodies of the blocks that [/\{[^}]+\}/g] finds, from left to right.
    A block opens at an opening brace and closes at the next closing brace.
    Its body is not empty: a pair of braces with nothing between matches
    nothing.  An opening brace behind the one that opened the block belongs
    to the body.  [cur] is the body read so far when a block is open. *)
Fixpoint scan_groups (cur : option string) (s : string) : list string :=
  match s with
  | EmptyString => []
  | String c s' =>
      match cur with
      | None =>
          if Ascii.eqb c "{" then scan_groups (Some EmptyString) s'
          else scan_groups None s'
      | Some body =>
          if Ascii.eqb c "}" then
            match body with
            | EmptyString => scan_groups None s'
            | _ => body :: scan_groups None s'
            end
          else scan_groups (Some (body ++ String c EmptyString)%string) s'
      end
  end.

Definition bracket_groups (template : string) : list string :=
  scan_groups None template.

(** The size of a block: the number of comma-separated options that are not
    blank.  [seen] tells whether the option being read has shown a character
    that is not white space. *)
Fixpoint count_options (seen : bool) (body : string) : nat :=
  match body with
  | EmptyString => if seen then 1 else 0
  | String c body' =>
      if Ascii.eqb c "," then (if seen then 1 else 0) + count_options false body'
      else count_options (seen || negb (is_space c)) body'
  end.

Definition group_size (body : string) : nat := count_options false body.

(** The product that the loop of [calculatePermutationCount] takes: in
    doubles, from the left, starting from [start]. *)
Definition multiply_from (start : Double.number) (sizes : list nat) : Double.number :=
  fold_left (fun totalCount n => Double.mul totalCount (Double.of_nat n)) sizes start.

(** A count that stays what it is: zero or [NaN]. *)
Definition zero_or_NaN (x : Double.number) : Prop :=
  x = Double.Finite 0 \/ x = Double.NaN.

(** A count above zero: a positive number or [Infinity]. *)
Definition above_zero (x : Double.number) : Prop :=
  x <> Double.Finite 0 /\ x <> Double.NaN.

(** The product of natural numbers, as a natural number. *)
Definition product (sizes : list nat) : N :=
  fold_right N.mul 1%N (map N.of_nat sizes).

(** Occurrences of a character. *)
Fixpoint count_char (c : ascii) (s : string) : nat :=
  match s with
  | EmptyString => 0
  | String d s' => (if Ascii.eqb d c then 1 else 0) + count_char c s'
  end.

(** The brace counts balance. *)
Definition balanced (template : string) : Prop :=
  count_char "{" template = count_char "}" template.

(** Cut [s] at its first closing brace. *)
Fixpoint close_split (s : string) : option (string * string) :=
  match s with
  | EmptyString => None
  | String c s' =>
      if Ascii.eqb c "}" then Some (EmptyString, s')
      else match close_split s' with
           | Some (body, rest) => Some (String c body, rest)
           | None => None
           end
  end.

(** A string of white space only. *)
Fixpoint blank (s : string) : bool :=
  match s with
  | EmptyString => true
  | String c s' => is_space c && blank s'
  end.

(** A string of decimal digits only. *)
Fixpoint digits (s : string) : bool :=
  match s with
  | EmptyString => true
  | String c s' => is_digit c && digits s'
  end.

(** A group between its braces. *)
Definition in_braces (body : string) : string := String "{" (body ++ "}").

(** The options that [block_options] keeps, counted on a list of pieces. *)
Definition kept (pieces : list string) : nat :=
  List.length (filter (fun s => 0 <? String.length s) (map trim pieces)).

(** ** The parser in the words of the specification

    Section 4.1: scan for non-nested bracket groups; for each group, split on
    commas, trim white space, drop empty tokens; multiply the group sizes
    together; a string with zero groups yields 1; nesting of groups is
    unsupported. *)

Module Spec.

(** The non-nested groups from left to right: an opening brace, a body
    without braces, a closing brace.  [cur] is the body read since the last
    opening brace, when that brace is not closed yet. *)
Fixpoint scan (cur : option string) (s : string) : list string :=
  match s with
  | EmptyString => []
  | String c s' =>
      if Ascii.eqb c "{" then scan (Some EmptyString) s'
      else if Ascii.eqb c "}" then
        match cur with
        | Some body => body :: scan None s'
        | None => scan None s'
        end
      else scan (option_map (fun body => (body ++ String c EmptyString)%string) cur) s'
  end.

Definition groups (template : string) : list string := scan None template.

(** Nesting: an opening brace while a group is open. *)
Fixpoint nested_from (open : bool) (s : string) : bool :=
  match s with
  | EmptyString => false
  | String c s' =>
      if Ascii.eqb c "{" then open || nested_from true s'
      else if Ascii.eqb c "}" then nested_from false s'
      else nested_from open s'
  end.

Definition nested (template : string) : bool := nested_from false template.

(** The size of a group: split on commas, trim, drop the empty tokens. *)
Definition group_size (body : string) : nat :=
  List.length (filter (fun s => 0 <? String.length s) (map trim (split_comma body))).

Definition sizes (template : string) : list nat := map group_size (groups template).

(** The expansion count: the product of the group sizes, 1 without groups. *)
Definition expansion_count (template : string) : N := product (sizes template).

End Spec.

(** ** The schema *)

(** [ValidationResult] *)
Record ValidationResult : Type := {
  isValid : bool;
  errors : list string;
  warnings : list string
}.

(** [BatchValidation extends ValidationResult]; the field [hasSrefCode] is
    called [foundSrefCode] here, the function of that name being taken. *)
Record BatchValidation : Type := {
  validation :> ValidationResult;
  calculatedCount : Double.number;
  foundSrefCode : bool;
  hasValidSyntax : bool
}.

(** [PermutationBatch].  The priority is the string that arrives at run time:
    [validateBatch] checks it against the three names. *)
Record PermutationBatch : Type := {
  batch_number : Z;
  batch_name : string;
  category : string;
  image_count : Z;
  prompt : string;
  priority : string;
  notes : option string
}.

Record StyleAnalysis : Type := {
  primary_style : string;
  era_influence : string;
  color_palette : list string;
  key_characteristics : list string;
  best_subjects : list string;
  avoid_subjects : list string
}.

Record PromptGuidelines : Type := {
  keep_simple : bool;
  avoid_style_keywords : list string;
  recommended_additions : list string
}.

(** How a call ends: with a value, or with a thrown exception. *)
Inductive exception : Type :=
| TypeError (message : string).

Inductive completion (A : Type) : Type :=
| Return (a : A)
| Throw (e : exception).
Arguments Return {A} a.
Arguments Throw {A} e.

(** A double, as far as the distribution check uses it. *)
Class Number (number : Type) : Type := {
  parseFloat : string -> number;
  of_Z : Z -> number;
  add : number -> number -> number;
  sub : number -> number -> number;
  abs : number -> number;
  gtb : number -> number -> bool;
  toFixed : number -> nat -> string
}.

(** ** The validators *)

(** [xs.push(x)] under a condition. *)
Definition push_if (cond : bool) (x : string) (xs : list string) : list string :=
  if cond then xs ++ [x] else xs.

Definition dquote : string := String (ascii_of_nat 34) EmptyString.

Definition styleKeywords : list string :=
  ["retro"; "vintage"; "70s"; "80s"; "poster"; "illustration"; "watercolor"; "stylized"].

(** The errors of [validateBatch], in the order of the pushes. *)
Definition batch_errors (batch : PermutationBatch) (expectedSrefCode : option string)
  : list string :=
  let calculatedCount := calculatePermutationCount batch.(prompt) in
  let hasValidSyntax := hasValidPermutationSyntax batch.(prompt) in
  let hasSref := hasSrefCode batch.(prompt) in
  (* Check image count *)
  let errors :=
    push_if (negb (Double.strict_eq calculatedCount 40))
      ("Batch generates " ++ Double.to_string calculatedCount
         ++ " images, must be exactly 40")
      [] in
  (* Check syntax *)
  let errors :=
    push_if (negb hasValidSyntax && includes "{" batch.(prompt))
      "Invalid permutation syntax" errors in
  (* Check SREF code *)
  let errors :=
    if negb hasSref then errors ++ ["Missing --sref code in prompt"]
    else
      match expectedSrefCode with
      | Some expected =>
          if 0 <? String.length expected then
            let batchSref := extractSrefCode batch.(prompt) in
            match batchSref with
            | Some found =>
                push_if (negb (String.eqb found expected))
                  ("SREF code mismatch: expected " ++ expected ++ ", found " ++ found)
                  errors
            | None =>
                errors ++ [("SREF code mismatch: expected " ++ expected ++ ", found null")%string]
            end
          else errors
      | None => errors
      end in
  (* Check priority *)
  push_if (negb (array_includes batch.(priority) ["high"; "medium"; "low"]))
    ("Priority must be " ++ dquote ++ "high" ++ dquote ++ ", " ++ dquote ++ "medium"
       ++ dquote ++ ", or " ++ dquote ++ "low" ++ dquote)
    errors.

(** The warnings of [validateBatch]. *)
Definition batch_warnings (batch : PermutationBatch) : list string :=
  let warnings :=
    push_if (200 <? String.length batch.(prompt))
      "Prompt is quite long - consider simplifying" [] in
  let promptLower := toLowerCase batch.(prompt) in
  let foundKeywords := filter (fun kw => includes kw promptLower) styleKeywords in
  push_if (0 <? List.length foundKeywords)
    ("Consider removing style keywords (" ++ join ", " foundKeywords
       ++ ") - SREF handles styling")
    warnings.

(** [validateBatch] *)
Definition validateBatch (batch : PermutationBatch) (expectedSrefCode : option string)
  : BatchValidation :=
  let errors := batch_errors batch expectedSrefCode in
  let warnings := batch_warnings batch in
  {| validation :=
       {| isValid := List.length errors =? 0; errors := errors; warnings := warnings |};
     calculatedCount := calculatePermutationCount batch.(prompt);
     foundSrefCode := hasSrefCode batch.(prompt);
     hasValidSyntax := hasValidPermutationSyntax batch.(prompt) |}.

(** [s.replace('%', '')]: the first percent sign goes. *)
Fixpoint replace_percent (s : string) : string :=
  match s with
  | String c s' => if Ascii.eqb c "%" then s' else String c (replace_percent s')
  | EmptyString => EmptyString
  end.

Section Specification.

Context {number : Type} `{Number number}.

(** What a distribution entry holds at run time.  The schema declares
    [Record<string, number>]; the JSON that the analysis returns is not
    checked against it and may carry strings such as [100%]. *)
Inductive value : Type :=
| Num (n : number)
| Str (s : string).

(** [TrainingRecommendations]; the distribution lists its entries in the
    order of [Object.values]. *)
Record TrainingRecommendations : Type := {
  recommended_dataset_size : Z;
  optimal_subject_distribution : list (string * value)
}.

(** [DatasetSpecification] *)
Record DatasetSpecification : Type := {
  sref_code : string;
  style_analysis : StyleAnalysis;
  training_recommendations : TrainingRecommendations;
  permutation_batches : list PermutationBatch;
  prompt_guidelines : PromptGuidelines
}.

(** [p => parseFloat(p.replace('%', ''))]: a number has no method [replace],
    so the call throws on it. *)
Definition percentage (p : value) : completion number :=
  match p with
  | Str s => Return (parseFloat (replace_percent s))
  | Num _ => Throw (TypeError "p.replace is not a function")
  end.

(** [values.map(p => ...)], left to right, up to the first exception. *)
Fixpoint percentages (values : list value) : completion (list number) :=
  match values with
  | [] => Return []
  | p :: rest =>
      match percentage p with
      | Throw e => Throw e
      | Return x =>
          match percentages rest with
          | Throw e => Throw e
          | Return xs => Return (x :: xs)
          end
      end
  end.

(** One round of the [forEach] over the batches. *)
Definition fold_batch (code : string) (acc : list string * list string)
    (batch : PermutationBatch) : list string * list string :=
  let '(errs, warns) := acc in
  let validation := validateBatch batch (Some code) in
  let label := ("Batch " ++ Z_to_string batch.(batch_number) ++ ": ")%string in
  (push_if (negb validation.(isValid))
     (label ++ join ", " validation.(errors)) errs,
   warns ++ map (fun warning => (label ++ warning)%string) validation.(warnings)).

(** [validateDatasetSpecification] *)
Definition validateDatasetSpecification (spec : DatasetSpecification)
  : completion ValidationResult :=
  let batches := spec.(permutation_batches) in
  (* Check SREF code format *)
  let warnings :=
    push_if (negb (test_start sref_code_re spec.(sref_code)))
      "SREF code should be a 10-digit number" [] in
  (* Check number of batches *)
  let errors :=
    push_if (List.length batches <? 8)
      ("Only " ++ nat_to_string (List.length batches) ++ " batches - minimum 8 required")
      [] in
  (* Check for duplicate batch numbers *)
  let batchNumbers := map batch_number batches in
  let uniqueNumbers := nodup Z.eq_dec batchNumbers in
  let errors :=
    push_if (negb (List.length uniqueNumbers =? List.length batchNumbers))
      "Duplicate batch numbers found" errors in
  (* Validate each batch *)
  let '(errors, warnings) :=
    fold_left (fold_batch spec.(sref_code)) batches (errors, warnings) in
  (* Check distribution percentages *)
  let distribution := spec.(training_recommendations).(optimal_subject_distribution) in
  match percentages (map snd distribution) with
  | Throw e => Throw e
  | Return ps =>
      let total := fold_left add ps (of_Z 0) in
      let warnings :=
        push_if (gtb (abs (sub total (of_Z 100))) (of_Z 5))
          ("Subject distribution totals " ++ toFixed total 1
             ++ "% - should be close to 100%")
          warnings in
      (* Check dataset size *)
      let totalImages := fold_left (fun sum b => (sum + b.(image_count))%Z) batches 0%Z in
      let warnings :=
        push_if (totalImages <? 50)%Z
          ("Total dataset size is " ++ Z_to_string totalImages
             ++ " - minimum 50 recommended")
          warnings in
      let warnings :=
        push_if (200 <? totalImages)%Z
          ("Total dataset size is " ++ Z_to_string totalImages
             ++ " - consider reducing for more focused training")
          warnings in
      Return {| isValid := List.length errors =? 0;
                errors := errors;
                warnings := warnings |}
  end.

End Specification.

Arguments value number : clear implicits.
Arguments TrainingRecommendations number : clear implicits.
Arguments DatasetSpecification number : clear implicits.

(** ** Sample values *)

(** A batch of 8 x 5 = 40 images with a well-formed marker and, behind the
    two groups, a brace that is never closed. *)
Definition unbalanced_batch : PermutationBatch :=
  {| batch_number := 1;
     batch_name := "Landscapes";
     category := "landscapes";
     image_count := 40;
     prompt := "{a,b,c,d,e,f,g,h} at {dawn,noon,dusk,night,rain} {x --sref 1234567890";
     priority := "high";
     notes := None |}.

(** A well-formed batch of 8 x 5 = 40 images. *)
Definition good_batch : PermutationBatch :=
  {| batch_number := 1;
     batch_name := "Landscapes";
     category := "landscapes";
     image_count := 40;
     prompt := "{a,b,c,d,e,f,g,h} at {dawn,noon,dusk,night,rain} --sref 1234567890";
     priority := "high";
     notes := None |}.

(** A template of [n] groups of three options. *)
Fixpoint groups_of_three (n : nat) : string :=
  match n with
  | O => EmptyString
  | S n' => ("{a,b,c}" ++ groups_of_three n')%string
  end.

Definition no_style_analysis : StyleAnalysis :=
  {| primary_style := "flat illustration"; era_influence := "1970s"; color_palette := [];
     key_characteristics := []; best_subjects := []; avoid_subjects := [] |}.

Definition no_prompt_guidelines : PromptGuidelines :=
  {| keep_simple := true; avoid_style_keywords := []; recommended_additions := [] |}.

(** A specification that conforms to the schema: its distribution maps
    category names to numbers. *)
Definition numeric_spec {number : Type} `{Number number}
    (batches : list PermutationBatch) (landscapes portraits : Z)
  : DatasetSpecification number :=
  {| sref_code := "1234567890";
     style_analysis := no_style_analysis;
     training_recommendations :=
       {| recommended_dataset_size := 100;
          optimal_subject_distribution :=
            [("landscapes", Num (of_Z landscapes)); ("portraits", Num (of_Z portraits))] |};
     permutation_batches := batches;
     prompt_guidelines := no_prompt_guidelines |}.

(** ** The analysis command of the backend *)

Module Backend.

(** [settings::AnalysisMode] *)
Inductive AnalysisMode : Type := CloudAPI | Offline | Auto.

(** [settings::ModelVariant] *)
Inductive ModelVariant : Type := Qwen2VL2B | Qwen2VL7B | Qwen2VL72B.

(** [settings::AppSettings] *)
Record AppSettings : Type := {
  analysis_mode : AnalysisMode;
  offline_model_variant : ModelVariant;
  model_cache_dir : option string;
  auto_fallback : bool;
  keep_model_loaded : bool
}.

(** [impl Default for AppSettings] *)
Definition default_settings : AppSettings :=
  {| analysis_mode := Auto;
     offline_model_variant := Qwen2VL2B;
     model_cache_dir := None;
     auto_fallback := true;
     keep_model_loaded := true |}.

(** [Result<T, E>] *)
Inductive result (T E : Type) : Type :=
| Ok (t : T)
| Err (e : E).
Arguments Ok {T E} t.
Arguments Err {T E} e.

(** [AnalysisResult] *)
Record AnalysisResult : Type := {
  data : string;
  mode_used : string;
  fallback_used : bool
}.

Section Command.

(** The memory figures of the offline error are [f32]; the command only
    formats them. *)
Variable f32 : Type.
Variable f32_to_string : f32 -> string.

(** [offline_analyzer::OfflineAnalysisError] *)
Inductive OfflineAnalysisError : Type :=
| ModelNotFound
| InsufficientMemory (required available : f32)
| ModelLoadError (reason : string)
| InferenceFailed (reason : string)
| ImageProcessingError (reason : string).

(** Its [Display], from the [#[error(...)]] attributes. *)
Definition to_string (e : OfflineAnalysisError) : string :=
  match e with
  | ModelNotFound => "Model not found. Please download the model first."
  | InsufficientMemory required available =>
      "Insufficient memory. Requires " ++ f32_to_string required
        ++ "GB, available " ++ f32_to_string available ++ "GB"
  | ModelLoadError reason => "Model loading failed: " ++ reason
  | InferenceFailed reason => "Inference failed: " ++ reason
  | ImageProcessingError reason => "Image processing failed: " ++ reason
  end.

(** What the command finds around it in one run.  Errors of the image
    helpers and of the cloud client come as their [Display] text. *)
Record World : Type := {
  load_settings : option AppSettings;
  env_var : string -> option string;
  read_and_encode_image : string -> result string string;
  get_mime_type : string -> result string string;
  claude_analyze_style : list (string * string) -> string -> result string string;
  offline_analyze_style :
    list string -> string -> AppSettings -> result string OfflineAnalysisError
}.

(** What a run does to the outside, in order. *)
Inductive event : Type :=
| ReadImage (path : string)
| GetMimeType (path : string)
| CloudCall (image_data : list (string * string)) (sref_code : string)
| LogWarn (message : string)
| OfflineCall (image_paths : list string) (sref_code : string) (settings : AppSettings).

(** A computation that logs events and may stop with an error text. *)
Definition M (A : Type) : Type := list event * result A string.

Definition ret {A : Type} (a : A) : M A := ([], Ok a).

Definition fail {A : Type} (e : string) : M A := ([], Err e).

Definition emit (ev : event) : M unit := ([ev], Ok tt).

Definition bind {A B : Type} (m : M A) (f : A -> M B) : M B :=
  match m with
  | (log, Ok a) => let '(log', r) := f a in (log ++ log', r)
  | (log, Err e) => (log, Err e)
  end.

Notation "x <- m ;; k" := (bind m (fun x => k))
  (at level 61, m at next level, right associativity).
Notation "m ;;; k" := (bind m (fun _ => k))
  (at level 61, right associativity).

(** [r.map_err(|e| format!(..., path, e))?] *)
Definition or_fail {A : Type} (r : result A string) (context : string) : M A :=
  match r with
  | Ok a => ret a
  | Err e => fail (context ++ ": " ++ e)
  end.

Variable w : World.

(** [std::env::var(name).is_ok()] *)
Definition var_is_ok (name : string) : bool :=
  match w.(env_var) name with Some _ => true | None => false end.

(** [settings::load_settings().unwrap_or_default()] *)
Definition settings : AppSettings :=
  match w.(load_settings) with
  | Some s => s
  | None => default_settings
  end.

(** Determine which mode to use. *)
Definition use_api : bool :=
  match settings.(analysis_mode) with
  | CloudAPI => var_is_ok "CLAUDE_API_KEY" || var_is_ok "ANTHROPIC_API_KEY"
  | Offline => false
  | Auto => var_is_ok "CLAUDE_API_KEY" || var_is_ok "ANTHROPIC_API_KEY"
  end.

(** The closure mapped over the image paths. *)
Definition encode_image (path : string) : M (string * string) :=
  emit (ReadImage path) ;;;
  base64_data <- or_fail (w.(read_and_encode_image) path)
                         ("Failed to read image " ++ path) ;;
  emit (GetMimeType path) ;;;
  mime_type <- or_fail (w.(get_mime_type) path)
                       ("Invalid image format " ++ path) ;;
  ret (base64_data, mime_type).

(** [.collect::<Result<Vec<_>, String>>()?]: stops at the first error. *)
Fixpoint encode_images (image_paths : list string) : M (list (string * string)) :=
  match image_paths with
  | [] => ret []
  | path :: rest =>
      x <- encode_image path ;;
      xs <- encode_images rest ;;
      ret (x :: xs)
  end.

(** The cloud attempt: [Some] is the early [return Ok(...)], [None] falls
    through to the offline mode. *)
Definition try_cloud (image_paths : list string) (sref_code : string)
  : M (option AnalysisResult) :=
  image_data <- encode_images image_paths ;;
  emit (CloudCall image_data sref_code) ;;;
  match w.(claude_analyze_style) image_data sref_code with
  | Ok result =>
      ret (Some {| data := result; mode_used := "cloud"; fallback_used := false |})
  | Err e =>
      if settings.(auto_fallback) then
        emit (LogWarn ("API analysis failed: " ++ e
                         ++ ". Attempting offline fallback...")) ;;;
        ret None
      else fail ("Claude API error: " ++ e)
  end.

(** Use offline mode (either primary or fallback). *)
Definition offline_mode (image_paths : list string) (sref_code : string)
  : M AnalysisResult :=
  emit (OfflineCall image_paths sref_code settings) ;;;
  match w.(offline_analyze_style) image_paths sref_code settings with
  | Ok result =>
      ret {| data := result; mode_used := "offline"; fallback_used := use_api |}
  | Err e => fail ("Offline analysis error: " ++ to_string e)
  end.

(** [analyze_style] of [lib.rs] *)
Definition analyze_style (image_paths : list string) (sref_code : string)
  : M AnalysisResult :=
  early <- (if use_api then try_cloud image_paths sref_code else ret None) ;;
  match early with
  | Some done => ret done
  | None => offline_mode image_paths sref_code
  end.

End Command.

Arguments analyze_style {f32} f32_to_string w image_paths sref_code.
Arguments offline_mode {f32} f32_to_string w image_paths sref_code.
Arguments try_cloud {f32} w image_paths sref_code.
Arguments encode_images {f32} w image_paths.
Arguments encode_image {f32} w path.
Arguments var_is_ok {f32} w name.
Arguments load_settings {f32} w.
Arguments env_var {f32} w.
Arguments read_and_encode_image {f32} w.
Arguments get_mime_type {f32} w.
Arguments claude_analyze_style {f32} w.
Arguments offline_analyze_style {f32} w.
Arguments to_string {f32} f32_to_string e.
Arguments use_api {f32} w.
Arguments settings {f32} w.
Arguments ModelNotFound {f32}.
Arguments ModelLoadError {f32} reason.
Arguments InferenceFailed {f32} reason.
Arguments ImageProcessingError {f32} reason.
Arguments InsufficientMemory {f32} required available.

(** How often a run called the offline analyzer. *)
Definition offline_calls (log : list event) : nat :=
  List.length (filter (fun ev => match ev with OfflineCall _ _ _ => true | _ => false end) log).

(** How often a run called the cloud client. *)
Definition cloud_calls (log : list event) : nat :=
  List.length (filter (fun ev => match ev with CloudCall _ _ => true | _ => false end) log).

(** An error text wraps a cause when the cause's text occurs in it. *)
Definition wraps (error cause : string) : bool := Js.includes cause error.

(** A run in cloud mode, with fallback, in which the cloud client reports a
    rate limit and the offline model has not been downloaded. *)
Definition both_fail : World string :=
  {| load_settings :=
       Some {| analysis_mode := CloudAPI;
               offline_model_variant := Qwen2VL2B;
               model_cache_dir := None;
               auto_fallback := true;
               keep_model_loaded := true |};
     env_var := fun name => if String.eqb name "CLAUDE_API_KEY" then Some "sk-1" else None;
     read_and_encode_image := fun _ => Ok "aGVsbG8=";
     get_mime_type := fun _ => Ok "image/png";
     claude_analyze_style := fun _ _ => Err "rate limit exceeded";
     offline_analyze_style := fun _ _ _ => Err ModelNotFound |}.

(** A run in cloud mode, without fallback and without an API key in the
    environment; the offline model is ready and answers. *)
Definition cloud_without_key : World string :=
  {| load_settings :=
       Some {| analysis_mode := CloudAPI;
               offline_model_variant := Qwen2VL2B;
               model_cache_dir := None;
               auto_fallback := false;
               keep_model_loaded := true |};
     env_var := fun _ => None;
     read_and_encode_image := fun _ => Ok "aGVsbG8=";
     get_mime_type := fun _ => Ok "image/png";
     claude_analyze_style := fun _ _ => Err "unauthorized";
     offline_analyze_style := fun _ _ _ => Ok "{}" |}.

(** The same configuration as [both_fail] with the offline model ready. *)
Definition cloud_fails_offline_ready (fallback : bool) : World string :=
  {| load_settings :=
       Some {| analysis_mode := Auto;
               offline_model_variant := Qwen2VL2B;
               model_cache_dir := None;
               auto_fallback := fallback;
               keep_model_loaded := true |};
     env_var := fun name => if String.eqb name "ANTHROPIC_API_KEY" then Some "sk-2" else None;
     read_and_encode_image := fun _ => Ok "aGVsbG8=";
     get_mime_type := fun _ => Ok "image/png";
     claude_analyze_style := fun _ _ => Err "connection timed out";
     offline_analyze_style := fun _ _ _ => Ok "{}" |}.

Definition three_images : list string := ["a.png"; "b.png"; "c.png"].

End Backend.

(** ** The rest of the frontend *)

(** [s.split(sep)] for a separator of one character. *)
Fixpoint split_char (sep : ascii) (s : string) : list string :=
  match s with
  | EmptyString => [EmptyString]
  | String c s' =>
      if Ascii.eqb c sep then EmptyString :: split_char sep s'
      else match split_char sep s' with
           | h :: t => String c h :: t
           | [] => [String c EmptyString]
           end
  end.

(** [xs.pop()] as a value: the last element, [undefined] on an empty array. *)
Definition pop (xs : list string) : option string :=
  match xs with
  | [] => None
  | _ => Some (last xs EmptyString)
  end.

(** [x || y] on strings that may be [undefined]: the empty string and
    [undefined] are falsy. *)
Definition or_else (x : option string) (y : string) : string :=
  match x with
  | Some (String c s) => String c s
  | _ => y
  end.

(** The filter of [ImageUploader.vue] on dropped paths. *)
Definition is_image_path (path : string) : bool :=
  let ext := pop (split_char "." (toLowerCase path)) in
  array_includes (or_else ext EmptyString) ["jpg"; "jpeg"; "png"; "webp"].

(** [getFileName] of [ImageUploader.vue]. *)
Definition getFileName (path : string) : string :=
  or_else (pop (split_char "/" path)) (or_else (pop (split_char "\" path)) path).

(** A line feed. *)
Definition newline : string := String (ascii_of_nat 10) EmptyString.

(** [[...new Set(xs)]]: the values in the order of their first
    occurrence. *)
Fixpoint set_values (seen xs : list string) : list string :=
  match xs with
  | [] => []
  | x :: rest =>
      if array_includes x seen then set_values seen rest
      else x :: set_values (x :: seen) rest
  end.

(** The object that [generateDatasetSummary] returns. *)
Record DatasetSummary : Type := {
  totalImages : Z;
  totalBatches : nat;
  highPriorityBatches : nat;
  categories : nat;
  categoryList : list string
}.

(** [generateDatasetSummary]; it reads the batches only. *)
Definition generateDatasetSummary {number : Type} (spec : DatasetSpecification number)
  : DatasetSummary :=
  let batches := spec.(permutation_batches) in
  let totalImages := fold_left (fun sum b => (sum + b.(image_count))%Z) batches 0%Z in
  let highPriorityBatches :=
    List.length (filter (fun b => String.eqb b.(priority) "high") batches) in
  let categories := set_values [] (map category batches) in
  {| totalImages := totalImages;
     totalBatches := List.length batches;
     highPriorityBatches := highPriorityBatches;
     categories := List.length categories;
     categoryList := categories |}.

(** ** The project store

    The batches of the specification are objects: the array
    [permutation_batches] holds references to them, and [removeBatch]
    renumbers the objects in place.  The state therefore carries the objects
    by address, and the array as a list of addresses. *)

Module Store.

Definition ref : Type := nat.

Section State.

Context {number : Type}.

(** The [DatasetSpecification] object of the store. *)
Record document : Type := {
  doc_sref_code : string;
  doc_style_analysis : StyleAnalysis;
  doc_training_recommendations : TrainingRecommendations number;
  doc_batches : list ref;
  doc_prompt_guidelines : PromptGuidelines
}.

(** The refs of the store that the actions below touch, the batch objects
    and the next free address. *)
Record state : Type := {
  imagePaths : list string;
  srefCode : string;
  specification : option document;
  currentStep : string;
  isDirty : bool;
  error : option string;
  objects : ref -> PermutationBatch;
  next_ref : ref
}.

(** Assignment to a property of the object at [r]. *)
Definition write (heap : ref -> PermutationBatch) (r : ref) (b : PermutationBatch)
  : ref -> PermutationBatch :=
  fun r' => if r' =? r then b else heap r'.

(** [batch.batch_number = n] *)
Definition set_batch_number (n : Z) (b : PermutationBatch) : PermutationBatch :=
  {| batch_number := n;
     batch_name := b.(batch_name);
     category := b.(category);
     image_count := b.(image_count);
     prompt := b.(prompt);
     priority := b.(priority);
     notes := b.(notes) |}.

(** The batches as a reader of the array sees them. *)
Definition read_batches (st : state) : list PermutationBatch :=
  match st.(specification) with
  | Some doc => map st.(objects) doc.(doc_batches)
  | None => []
  end.

(** The specification as the validators receive it. *)
Definition read_specification (st : state) : option (DatasetSpecification number) :=
  match st.(specification) with
  | Some doc =>
      Some {| sref_code := doc.(doc_sref_code);
              style_analysis := doc.(doc_style_analysis);
              training_recommendations := doc.(doc_training_recommendations);
              permutation_batches := map st.(objects) doc.(doc_batches);
              prompt_guidelines := doc.(doc_prompt_guidelines) |}
  | None => None
  end.

Definition with_batches (doc : document) (slots : list ref) : document :=
  {| doc_sref_code := doc.(doc_sref_code);
     doc_style_analysis := doc.(doc_style_analysis);
     doc_training_recommendations := doc.(doc_training_recommendations);
     doc_batches := slots;
     doc_prompt_guidelines := doc.(doc_prompt_guidelines) |}.

(** [xs.splice(index, 1)] on an integer index: a negative index counts from
    the end, and an index beyond the end removes nothing. *)
Definition splice_1 {A : Type} (index : Z) (xs : list A) : list A :=
  let len := Z.of_nat (List.length xs) in
  let start := if (index <? 0)%Z then Z.max (len + index) 0 else Z.min index len in
  if (start <? len)%Z
  then firstn (Z.to_nat start) xs ++ skipn (S (Z.to_nat start)) xs
  else xs.

(** [xs[index]] on an integer index. *)
Definition at_index {A : Type} (index : Z) (xs : list A) : option A :=
  if (index <? 0)%Z then None else nth_error xs (Z.to_nat index).

(** Computed values. *)
Definition hasImages (st : state) : bool := 3 <=? List.length st.(imagePaths).
Definition hasSrefCode (st : state) : bool := 3 <=? String.length st.(srefCode).
Definition canAnalyze (st : state) : bool := hasImages st && hasSrefCode st.
Definition hasSpecification (st : state) : bool :=
  match st.(specification) with Some _ => true | None => false end.

Definition setImages (paths : list string) (st : state) : state :=
  {| imagePaths := paths; srefCode := st.(srefCode);
     specification := st.(specification); currentStep := st.(currentStep);
     isDirty := true; error := st.(error);
     objects := st.(objects); next_ref := st.(next_ref) |}.

Definition addImage (path : string) (st : state) : state :=
  if negb (array_includes path st.(imagePaths))
  then setImages (st.(imagePaths) ++ [path]) st
  else st.

Definition removeImage (index : Z) (st : state) : state :=
  setImages (splice_1 index st.(imagePaths)) st.

Definition setSrefCode (code : string) (st : state) : state :=
  {| imagePaths := st.(imagePaths); srefCode := code;
     specification := st.(specification); currentStep := st.(currentStep);
     isDirty := true; error := st.(error);
     objects := st.(objects); next_ref := st.(next_ref) |}.

(** The state after the batch array and the objects have changed. *)
Definition with_document (doc : document) (heap : ref -> PermutationBatch)
    (next : ref) (st : state) : state :=
  {| imagePaths := st.(imagePaths); srefCode := st.(srefCode);
     specification := Some doc; currentStep := st.(currentStep);
     isDirty := true; error := st.(error);
     objects := heap; next_ref := next |}.

(** The batch that [addBatch] creates. *)
Definition new_batch (newBatchNumber : nat) (code : string) : PermutationBatch :=
  {| batch_number := Z.of_nat newBatchNumber;
     batch_name := "New Batch " ++ nat_to_string newBatchNumber;
     category := "Miscellaneous";
     image_count := 40;
     prompt := "{subject1, subject2, subject3, subject4, subject5} with {modifier1, modifier2, modifier3, modifier4, modifier5, modifier6, modifier7, modifier8} --sref " ++ code;
     priority := "medium";
     notes := Some EmptyString |}.

(** [addBatch]: the new object gets a fresh address. *)
Definition addBatch (st : state) : state :=
  match st.(specification) with
  | None => st
  | Some doc =>
      let newBatchNumber := List.length doc.(doc_batches) + 1 in
      let newBatch := new_batch newBatchNumber doc.(doc_sref_code) in
      let r := st.(next_ref) in
      with_document (with_batches doc (doc.(doc_batches) ++ [r]))
                    (write st.(objects) r newBatch) (S r) st
  end.

(** [batches.forEach((batch, i) => { batch.batch_number = i + 1; })], from
    position [i] on. *)
Fixpoint renumber (i : nat) (slots : list ref) (heap : ref -> PermutationBatch)
  : ref -> PermutationBatch :=
  match slots with
  | [] => heap
  | r :: rest =>
      renumber (S i) rest (write heap r (set_batch_number (Z.of_nat (i + 1)) (heap r)))
  end.

(** [removeBatch] *)
Definition removeBatch (index : Z) (st : state) : state :=
  match st.(specification) with
  | None => st
  | Some doc =>
      let slots := splice_1 index doc.(doc_batches) in
      with_document (with_batches doc slots) (renumber 0 slots st.(objects))
                    st.(next_ref) st
  end.

(** The copy that [duplicateBatch] makes of [original]. *)
Definition copy_of (original : PermutationBatch) (newBatchNumber : nat) : PermutationBatch :=
  {| batch_number := Z.of_nat newBatchNumber;
     batch_name := original.(batch_name) ++ " (Copy)";
     category := original.(category);
     image_count := original.(image_count);
     prompt := original.(prompt);
     priority := original.(priority);
     notes := original.(notes) |}.

(** [duplicateBatch]: reading [batch_name] of a slot that does not exist
    throws, before anything is changed. *)
Definition duplicateBatch (index : Z) (st : state) : completion state :=
  match st.(specification) with
  | None => Return st
  | Some doc =>
      match at_index index doc.(doc_batches) with
      | None =>
          Throw (TypeError "Cannot read properties of undefined (reading 'batch_name')")
      | Some r0 =>
          let original := st.(objects) r0 in
          let newBatch := copy_of original (List.length doc.(doc_batches) + 1) in
          let r := st.(next_ref) in
          Return (with_document (with_batches doc (doc.(doc_batches) ++ [r]))
                                (write st.(objects) r newBatch) (S r) st)
      end
  end.

(** Renumbering on values: the batch at position [k] gets the number
    [k + 1]. *)
Definition renumbered (batches : list PermutationBatch) : list PermutationBatch :=
  map (fun kb => set_batch_number (Z.of_nat (fst kb + 1)) (snd kb))
      (combine (seq 0 (List.length batches)) batches).

(** The batch numbers run from 1 to the number of batches. *)
Definition dense (st : state) : Prop :=
  map batch_number (read_batches st)
  = map (fun i => Z.of_nat i) (seq 1 (List.length (read_batches st))).

(** No batch object sits in two slots, and every slot holds an address that
    has been handed out. *)
Definition unshared (st : state) : Prop :=
  match st.(specification) with
  | Some doc => NoDup doc.(doc_batches) /\ Forall (fun r => r < st.(next_ref)) doc.(doc_batches)
  | None => True
  end.

End State.

Arguments document number : clear implicits.
Arguments state number : clear implicits.

(** A store with three batches, each object in one slot. *)
Definition sample_batch (n : Z) (name : string) : PermutationBatch :=
  {| batch_number := n;
     batch_name := name;
     category := "landscapes";
     image_count := 40;
     prompt := "{a,b,c,d,e,f,g,h} at {dawn,noon,dusk,night,rain} --sref 1234567890";
     priority := "high";
     notes := None |}.

Definition sample_document (slots : list ref) : document Z :=
  {| doc_sref_code := "1234567890";
     doc_style_analysis := no_style_analysis;
     doc_training_recommendations :=
       {| recommended_dataset_size := 100; optimal_subject_distribution := [] |};
     doc_batches := slots;
     doc_prompt_guidelines := no_prompt_guidelines |}.

Definition sample_state (slots : list ref) : state Z :=
  {| imagePaths := ["a.png"; "b.png"; "c.png"];
     srefCode := "1234567890";
     specification := Some (sample_document slots);
     currentStep := "batches";
     isDirty := false;
     error := None;
     objects := fun r =>
       match r with
       | 0 => sample_batch 1 "Mountains"
       | 1 => sample_batch 2 "Coasts"
       | _ => sample_batch 3 "Forests"
       end;
     next_ref := 3 |}.

End Store.

(** ** The model manager and the offline analyzer of the backend *)

Module ModelManager.

Import Backend.

(** A [PathBuf], by its components. *)
Definition path : Type := list string.

(** The path that a string names: its components between the slashes. *)
Definition path_of (s : string) : path := split_char "/" s.

(** [p.join(name)] for a plain file or directory name. *)
Definition join (p : path) (name : string) : path := p ++ [name].

(** [q] is [p] or lies above it. *)
Fixpoint above (q p : path) : bool :=
  match q, p with
  | [], _ => true
  | x :: q', y :: p' => String.eqb x y && above q' p'
  | _ :: _, [] => false
  end.

(** [model_manager::ModelStatus] *)
Inductive ModelStatus : Type :=
| NotDownloaded
| Downloading (progress_percent : N)
| Ready
| Error (message : string).

(** [model_manager::ModelConfig] *)
Record ModelConfig : Type := {
  variant : ModelVariant;
  hf_repo : string;
  files : list string;
  total_size_bytes : N
}.

Definition model_files : list string :=
  ["model.safetensors"; "config.json"; "tokenizer.json"; "tokenizer_config.json"].

(** [ModelConfig::from_variant] *)
Definition from_variant (v : ModelVariant) : ModelConfig :=
  match v with
  | Qwen2VL2B =>
      {| variant := v; hf_repo := "Qwen/Qwen2-VL-2B-Instruct";
         files := model_files; total_size_bytes := 2800000000 |}
  | Qwen2VL7B =>
      {| variant := v; hf_repo := "Qwen/Qwen2-VL-7B-Instruct";
         files := model_files; total_size_bytes := 6500000000 |}
  | Qwen2VL72B =>
      {| variant := v; hf_repo := "Qwen/Qwen2-VL-72B-Instruct";
         files := model_files; total_size_bytes := 45000000000 |}
  end.

(** The file system as these functions see it: which paths exist, where the
    platform puts caches ([dirs::cache_dir()]), and for which directories
    [create_dir_all] fails (with the text of the I/O error). *)
Record Fs : Type := {
  present : path -> bool;
  platform_cache_dir : option path;
  create_error : path -> option string
}.

(** [std::fs::create_dir_all(p)]: on success [p] and the directories above
    it exist. *)
Definition create_dir_all (p : path) (fs : Fs) : Fs * result unit string :=
  match fs.(create_error) p with
  | Some e => (fs, Err e)
  | None =>
      ({| present := fun q => above q p || fs.(present) q;
          platform_cache_dir := fs.(platform_cache_dir);
          create_error := fs.(create_error) |},
       Ok tt)
  end.

(** [get_model_cache_dir].  An [anyhow] error is carried by the text that its
    [to_string] gives, the outermost context. *)
Definition get_model_cache_dir (custom_dir : option path) (fs : Fs)
  : Fs * result path string :=
  match custom_dir with
  | Some dir => (fs, Ok dir)
  | None =>
      match fs.(platform_cache_dir) with
      | None => (fs, Err "Failed to get cache directory")
      | Some d =>
          let cache_dir := join (join d "rzem-mj-lora") "models" in
          match create_dir_all cache_dir fs with
          | (fs', Ok _) => (fs', Ok cache_dir)
          | (fs', Err _) => (fs', Err "Failed to create model cache directory")
          end
      end
  end.

Definition variant_name (v : ModelVariant) : string :=
  match v with
  | Qwen2VL2B => "qwen2-vl-2b"
  | Qwen2VL7B => "qwen2-vl-7b"
  | Qwen2VL72B => "qwen2-vl-72b"
  end.

(** [get_model_path] *)
Definition get_model_path (v : ModelVariant) (custom_dir : option path) (fs : Fs)
  : Fs * result path string :=
  match get_model_cache_dir custom_dir fs with
  | (fs', Ok cache_dir) => (fs', Ok (join cache_dir (variant_name v)))
  | (fs', Err e) => (fs', Err e)
  end.

(** The loop of [check_model_status] over the required files. *)
Fixpoint first_missing (fs : Fs) (model_path : path) (names : list string) : bool :=
  match names with
  | [] => false
  | file :: rest =>
      if negb (fs.(present) (join model_path file)) then true
      else first_missing fs model_path rest
  end.

(** [check_model_status] *)
Definition check_model_status (v : ModelVariant) (custom_dir : option path) (fs : Fs)
  : Fs * result ModelStatus string :=
  match get_model_path v custom_dir fs with
  | (fs', Err e) => (fs', Err e)
  | (fs', Ok model_path) =>
      if negb (fs'.(present) model_path) then (fs', Ok NotDownloaded)
      else
        let config := from_variant v in
        if first_missing fs' model_path config.(files) then (fs', Ok NotDownloaded)
        else (fs', Ok Ready)
  end.

(** [model_manager::ModelError] and its [Display]. *)
Inductive ModelError : Type :=
| DownloadFailed (reason : string)
| IoError (reason : string)
| Other (reason : string).

Definition model_error_to_string (e : ModelError) : string :=
  match e with
  | DownloadFailed reason => "Download failed: " ++ reason
  | IoError reason => "IO error: " ++ reason
  | Other reason => "Other error: " ++ reason
  end.

(** [download_model], which so far creates the model directory and nothing
    else. *)
Definition download_model (v : ModelVariant) (custom_dir : option path) (fs : Fs)
  : Fs * result unit ModelError :=
  match get_model_path v custom_dir fs with
  | (fs', Err e) => (fs', Err (Other e))
  | (fs', Ok model_path) =>
      match create_dir_all model_path fs' with
      | (fs'', Ok _) => (fs'', Ok tt)
      | (fs'', Err e) => (fs'', Err (IoError e))
      end
  end.

End ModelManager.

Module OfflineAnalyzer.

Import Backend ModelManager.

(** [candle_inference::build_qwen_prompt] *)
Fixpoint repeat_string (s : string) (n : nat) : string :=
  match n with
  | O => EmptyString
  | S n' => s ++ repeat_string s n'
  end.

Definition build_qwen_prompt (sref_code : string) (num_images : nat) : string :=
  "<|im_start|>system" ++ newline
  ++ "You are Qwen, a vision-language AI assistant specialized in analyzing artistic styles.<|im_end|>"
  ++ newline
  ++ "<|im_start|>user" ++ newline
  ++ repeat_string "<|vision_start|><|image_pad|><|vision_end|>" num_images
  ++ "Analyze these " ++ nat_to_string num_images
  ++ " style reference images for Midjourney SREF code " ++ sref_code ++ "." ++ newline
  ++ newline
  ++ "Generate a LoRA training dataset specification with:" ++ newline
  ++ "1. Style analysis (colors, patterns, era, characteristics)" ++ newline
  ++ "2. 8-10 permutation batches with EXACTLY 40 images each" ++ newline
  ++ "3. Use format: {{subjects}} with {{modifiers}} --sref " ++ sref_code ++ newline
  ++ newline
  ++ "Output ONLY valid JSON matching the expected schema.<|im_end|>" ++ newline
  ++ "<|im_start|>assistant" ++ newline.

Section Analyzer.

(** [f32] with the comparison and the literals that the memory check uses;
    an image once opened; the [Debug] text of a path. *)
Variable f32 : Type.
Variable f32_lt : f32 -> f32 -> bool.
Variable f32_of_Z : Z -> f32.
Variable DynamicImage : Type.
Variable path_debug : path -> string.

(** The machine around one offline analysis. *)
Record Machine : Type := {
  get_available_memory_gb : f32;
  image_open : string -> result DynamicImage string;
  analyze_images : list DynamicImage -> string -> result string string
}.

(** What the analysis does in order, beyond the file system. *)
Inductive step : Type :=
| OpenImage (image_path : string)
| LoadModel (model_path : path)
| Infer (images : list DynamicImage) (prompt : string).

(** The outcome of a run: the file system, the steps and the result. *)
Definition outcome : Type :=
  Fs * list step * result string (OfflineAnalysisError f32).

Definition required_gb (v : ModelVariant) : f32 :=
  match v with
  | Qwen2VL2B => f32_of_Z 4
  | Qwen2VL7B => f32_of_Z 12
  | Qwen2VL72B => f32_of_Z 80
  end.

Variable m : Machine.

(** [check_system_requirements] *)
Definition check_system_requirements (settings : AppSettings)
  : result unit (OfflineAnalysisError f32) :=
  let required := required_gb settings.(offline_model_variant) in
  let available := m.(get_available_memory_gb) in
  if f32_lt available required
  then Err (InsufficientMemory required available)
  else Ok tt.

(** [load_images]: stops at the first image that does not open. *)
Fixpoint load_images (image_paths : list string)
  : list step * result (list DynamicImage) (OfflineAnalysisError f32) :=
  match image_paths with
  | [] => ([], Ok [])
  | p :: rest =>
      match m.(image_open) p with
      | Err e => ([OpenImage p], Err (ImageProcessingError e))
      | Ok img =>
          match load_images rest with
          | (log, Ok imgs) => (OpenImage p :: log, Ok (img :: imgs))
          | (log, Err e) => (OpenImage p :: log, Err e)
          end
      end
  end.

(** [Qwen2VLInference::new], which so far checks that the path exists. *)
Definition inference_new (model_path : path) (fs : Fs) : result unit string :=
  if negb (fs.(present) model_path)
  then Err ("Model path does not exist: " ++ path_debug model_path)%string
  else Ok tt.

(** [offline_analyzer::analyze_style] *)
Definition analyze_style (image_paths : list string) (sref_code : string)
    (settings : AppSettings) (fs : Fs) : outcome :=
  let v := settings.(offline_model_variant) in
  let dir := option_map path_of settings.(model_cache_dir) in
  (* 1. Check system requirements *)
  match check_system_requirements settings with
  | Err e => (fs, [], Err e)
  | Ok _ =>
      (* 2. Verify model is available *)
      match check_model_status v dir fs with
      | (fs1, Err e) => (fs1, [], Err (ModelLoadError e))
      | (fs1, Ok model_status) =>
          match model_status with
          | Ready =>
              (* 3. Get model path *)
              match get_model_path v dir fs1 with
              | (fs2, Err e) => (fs2, [], Err (ModelLoadError e))
              | (fs2, Ok model_path) =>
                  (* 4. Load images *)
                  match load_images image_paths with
                  | (log, Err e) => (fs2, log, Err e)
                  | (log, Ok images) =>
                      (* 5. Build prompt *)
                      let prompt := build_qwen_prompt sref_code (List.length images) in
                      (* 6. Load model and run inference *)
                      match inference_new model_path fs2 with
                      | Err e => (fs2, log ++ [LoadModel model_path], Err (ModelLoadError e))
                      | Ok _ =>
                          match m.(analyze_images) images prompt with
                          | Err e =>
                              (fs2, log ++ [LoadModel model_path; Infer images prompt],
                               Err (InferenceFailed e))
                          | Ok response =>
                              (fs2, log ++ [LoadModel model_path; Infer images prompt],
                               Ok response)
                          end
                      end
                  end
              end
          | _ => (fs1, [], Err ModelNotFound)
          end
      end
  end.

End Analyzer.

Arguments get_available_memory_gb {f32 DynamicImage} m.
Arguments image_open {f32 DynamicImage} m.
Arguments analyze_images {f32 DynamicImage} m.
Arguments OpenImage {DynamicImage} image_path.
Arguments LoadModel {DynamicImage} model_path.
Arguments Infer {DynamicImage} images prompt.
Arguments required_gb {f32} f32_of_Z v.
Arguments check_system_requirements {f32} f32_lt f32_of_Z {DynamicImage} m settings.
Arguments load_images {f32 DynamicImage} m image_paths.
Arguments analyze_style {f32} f32_lt f32_of_Z {DynamicImage} path_debug m
  image_paths sref_code settings fs.

End OfflineAnalyzer.

(** ** More sample runs of the analysis command *)

(** Offline mode with an API key in the environment; the offline model
    answers. *)
Definition offline_by_choice : Backend.World string :=
  {| Backend.load_settings :=
       Some {| Backend.analysis_mode := Backend.Offline;
               Backend.offline_model_variant := Backend.Qwen2VL2B;
               Backend.model_cache_dir := None;
               Backend.auto_fallback := true;
               Backend.keep_model_loaded := true |};
     Backend.env_var := fun _ => Some "sk-3";
     Backend.read_and_encode_image := fun _ => Backend.Ok "aGVsbG8=";
     Backend.get_mime_type := fun _ => Backend.Ok "image/png";
     Backend.claude_analyze_style := fun _ _ => Backend.Ok "{}";
     Backend.offline_analyze_style := fun _ _ _ => Backend.Ok "{}" |}.

(** No settings file (so the defaults: automatic mode with fallback), an API
    key, and a second image that cannot be read. *)
Definition unreadable_image : Backend.World string :=
  {| Backend.load_settings := None;
     Backend.env_var := fun _ => Some "sk-4";
     Backend.read_and_encode_image :=
       fun p => if String.eqb p "b.png" then Backend.Err "permission denied"
                else Backend.Ok "aGVsbG8=";
     Backend.get_mime_type := fun _ => Backend.Ok "image/png";
     Backend.claude_analyze_style := fun _ _ => Backend.Ok "{}";
     Backend.offline_analyze_style := fun _ _ _ => Backend.Ok "{}" |}.

(** ** Sample machines for the offline analyzer *)

(** A file system that holds the 2B model in a custom cache directory. *)
Definition model_dir : ModelManager.path := ["models"; "qwen2-vl-2b"].

Definition fs_with_model : ModelManager.Fs :=
  {| ModelManager.present := fun q =>
       ModelManager.above q model_dir
       || existsb (fun f => ModelManager.above q (ModelManager.join model_dir f)
                            && ModelManager.above (ModelManager.join model_dir f) q)
                  ModelManager.model_files;
     ModelManager.platform_cache_dir := Some ["home"; "me"; ".cache"];
     ModelManager.create_error := fun _ => None |}.

(** A file system without any model. *)
Definition fs_without_model : ModelManager.Fs :=
  {| ModelManager.present := fun q => ModelManager.above q ["home"; "me"; ".cache"];
     ModelManager.platform_cache_dir := Some ["home"; "me"; ".cache"];
     ModelManager.create_error := fun _ => None |}.

(** A machine with [gb] gigabytes of free memory; memory is counted in whole
    gigabytes here, and an image is stood for by its path. *)
Definition machine_with (gb : Z) : OfflineAnalyzer.Machine Z string :=
  {| OfflineAnalyzer.get_available_memory_gb := gb;
     OfflineAnalyzer.image_open := fun p => Backend.Ok p;
     OfflineAnalyzer.analyze_images := fun _ _ => Backend.Ok "{}" |}.

Definition settings_in_models (v : Backend.ModelVariant) : Backend.AppSettings :=
  {| Backend.analysis_mode := Backend.Offline;
     Backend.offline_model_variant := v;
     Backend.model_cache_dir := Some "models";
     Backend.auto_fallback := true;
     Backend.keep_model_loaded := true |}.

(** The world of the command in which the offline analyzer runs on a given
    machine and file system. *)
Definition world_on (m : OfflineAnalyzer.Machine Z string) (fs : ModelManager.Fs)
    (s : Backend.AppSettings) : Backend.World Z :=
  {| Backend.load_settings := Some s;
     Backend.env_var := fun _ => None;
     Backend.read_and_encode_image := fun _ => Backend.Ok "aGVsbG8=";
     Backend.get_mime_type := fun _ => Backend.Ok "image/png";
     Backend.claude_analyze_style := fun _ _ => Backend.Err "unreachable";
     Backend.offline_analyze_style := fun paths code s' =>
       snd (OfflineAnalyzer.analyze_style Z.ltb (fun z => z)
              (fun p => Js.join "/" p) m paths code s' fs) |}.

(** * Properties *)

(** ** Strings *)

Example count_two_by_two :
  calculatePermutationCount "{mountain, ocean} with {sunrise, sunset}" = 4.
Proof. reflexivity. Qed.

Section StringFacts.

Lemma append_nil_r (s : string) : (s ++ EmptyString)%string = s.
Proof. induction s as [|c s IH]; simpl; [reflexivity | now rewrite IH]. Qed.

Lemma append_assoc (a b c : string) :
  ((a ++ b) ++ c)%string = (a ++ (b ++ c))%string.
Proof. induction a as [|x a IH]; simpl; [reflexivity | now rewrite IH]. Qed.

Lemma length_append (a b : string) :
  String.length (a ++ b) = String.length a + String.length b.
Proof. induction a as [|x a IH]; simpl; [reflexivity | now rewrite IH]. Qed.

Lemma substring_0_append (a b : string) :
  substring 0 (String.length a) (a ++ b) = a.
Proof. induction a as [|x a IH]; simpl; [now destruct b | now rewrite IH]. Qed.

(** Taking the braces off a block gives back its body. *)
Lemma slice_block (body : string) :
  slice_1_m1 (in_braces body) = body.
Proof.
  unfold slice_1_m1, in_braces. simpl String.length. rewrite length_append. simpl.
  replace (String.length body + 1 - 1) with (String.length body) by lia.
  apply substring_0_append.
Qed.

End StringFacts.

(** ** The matcher on the expressions of the parser *)

Section MatcherFacts.

Lemma close_split_append (s body rest : string) :
  close_split s = Some (body, rest) -> s = (body ++ String "}" rest)%string.
Proof.
  revert body rest. induction s as [|c s IH]; simpl; intros body rest E.
  - discriminate.
  - destruct (Ascii.eqb_spec c "}") as [->|Hc].
    + now inversion E.
    + destruct (close_split s) as [[b r]|]; [|discriminate].
      inversion E; subst. simpl. now rewrite (IH b rest eq_refl).
Qed.

Lemma match_here_chr (p : ascii -> bool) (c : ascii) (s : string) :
  match_here [Chr p] (String c s)
  = if p c then Some ([String c EmptyString], s) else None.
Proof. reflexivity. Qed.

Lemma plus_tail_block (s : string) :
  plus_tail (fun c => negb (Ascii.eqb c "}")) (match_here [Chr (Ascii.eqb "}")]) s
  = match close_split s with
    | Some (body, rest) => Some (body, ([String "}" EmptyString], rest))
    | None => None
    end.
Proof.
  induction s as [|c s IH]; [reflexivity|].
  cbn [plus_tail close_split]. rewrite IH, match_here_chr.
  rewrite (Ascii.eqb_sym "}"%char c).
  destruct (Ascii.eqb_spec c "}") as [->|_]; cbn [negb option_map].
  - reflexivity.
  - destruct (close_split s) as [[b r]|]; reflexivity.
Qed.

(** A block starts here exactly when an opening brace is followed by a body
    that is not empty and by a closing brace. *)
Lemma match_here_block (c : ascii) (s : string) :
  match_here block_re (String c s)
  = if Ascii.eqb c "{" then
      match close_split s with
      | Some (String d body, rest) =>
          Some ([String "{" EmptyString; String d body; String "}" EmptyString], rest)
      | _ => None
      end
    else None.
Proof.
  unfold block_re. cbn [match_here].
  rewrite (Ascii.eqb_sym "{"%char c).
  destruct (Ascii.eqb_spec c "{") as [->|_]; [|reflexivity].
  destruct s as [|d s]; [reflexivity|].
  cbn [close_split]. rewrite plus_tail_block.
  destruct (Ascii.eqb d "}"); cbn; [reflexivity|].
  destruct (close_split s) as [[b r]|]; reflexivity.
Qed.

Lemma match_all_skip (r : regex) (pre s : string) :
  match_all_from r (String.length pre) (pre ++ s) = match_all_from r 0 s.
Proof. induction pre as [|c pre IH]; simpl; [reflexivity | exact IH]. Qed.

End MatcherFacts.

(** ** The scanner of the specification against the matcher *)

Section ScannerFacts.

Lemma scan_open (s acc : string) :
  scan_groups (Some acc) s
  = match close_split s with
    | Some (body, rest) =>
        match (acc ++ body)%string with
        | EmptyString => scan_groups None rest
        | g => g :: scan_groups None rest
        end
    | None => []
    end.
Proof.
  revert acc. induction s as [|c s IH]; intro acc; [reflexivity|].
  cbn [scan_groups close_split].
  destruct (Ascii.eqb c "}").
  - rewrite append_nil_r. destruct acc; reflexivity.
  - rewrite IH. destruct (close_split s) as [[b r]|]; [|reflexivity].
    rewrite append_assoc. reflexivity.
Qed.

Lemma scan_unclosed (s : string) :
  close_split s = None -> forall cur, scan_groups cur s = [].
Proof.
  induction s as [|c s IH]; intros E cur; [reflexivity|].
  cbn [close_split] in E. cbn [scan_groups].
  destruct (Ascii.eqb c "}"); [discriminate|].
  destruct (close_split s) as [[b r]|]; [discriminate|].
  destruct cur; [|destruct (Ascii.eqb c "{")]; now apply IH.
Qed.

Lemma match_all_block_bounded (n : nat) :
  forall s, String.length s <= n ->
  match_all_from block_re 0 s = map in_braces (scan_groups None s).
Proof.
  induction n as [|n IH]; intros [|c s] Hlen; try reflexivity.
  - simpl in Hlen. lia.
  - simpl in Hlen. apply le_S_n in Hlen.
    cbn [match_all_from scan_groups]. rewrite match_here_block.
    destruct (Ascii.eqb c "{"); [|now apply IH].
    rewrite scan_open.
    destruct (close_split s) as [[body rest]|] eqn:E.
    + apply close_split_append in E.
      destruct body as [|d body].
      * rewrite (IH s Hlen). subst s. reflexivity.
      * cbn [String.append map]. unfold matched. cbn [fold_right].
        rewrite append_nil_r.
        change ((String "{" EmptyString ++ String d body ++ String "}" EmptyString)%string)
          with (in_braces (String d body)).
        f_equal.
        assert (Hs : s = ((String d body ++ String "}" EmptyString) ++ rest)%string)
          by (rewrite append_assoc; exact E).
        assert (Hl : String.length (in_braces (String d body)) - 1
                     = String.length (String d body ++ String "}" EmptyString)%string)
          by (unfold in_braces; simpl; lia).
        rewrite Hl. rewrite Hs at 1. rewrite match_all_skip.
        apply IH. rewrite Hs, length_append in Hlen. lia.
    + rewrite (IH s Hlen). now rewrite (scan_unclosed s E).
Qed.

(** The blocks that the expression finds are the groups of the scanner. *)
Lemma match_all_block (s : string) :
  match_all_from block_re 0 s = map in_braces (bracket_groups s).
Proof. exact (match_all_block_bounded (String.length s) s (le_n _)). Qed.

Lemma match_g_block (s : string) :
  match_g block_re s
  = match bracket_groups s with
    | [] => None
    | gs => Some (map in_braces gs)
    end.
Proof.
  unfold match_g. rewrite match_all_block.
  destruct (bracket_groups s); reflexivity.
Qed.

End ScannerFacts.

(** ** Options: split, trim and filter against the one-pass count *)

Section OptionFacts.

Lemma trimStart_blank (s : string) : blank s = true -> trimStart s = EmptyString.
Proof.
  induction s as [|c s IH]; simpl; [reflexivity|].
  destruct (is_space c); simpl; [exact IH | discriminate].
Qed.

Lemma trimStart_visible (s : string) :
  blank s = false ->
  exists c t, trimStart s = String c t /\ is_space c = false.
Proof.
  induction s as [|c s IH]; simpl; [discriminate|].
  destruct (is_space c) eqn:E; simpl; [exact IH|].
  intros _. now exists c, s.
Qed.

Lemma trimEnd_visible (c : ascii) (t : string) :
  is_space c = false -> trimEnd (String c t) <> EmptyString.
Proof.
  intro E. simpl. destruct (trimEnd t); [rewrite E|]; discriminate.
Qed.

(** A piece survives the filter exactly when it is not blank. *)
Lemma trim_kept (s : string) : (0 <? String.length (trim s)) = negb (blank s).
Proof.
  unfold trim. destruct (blank s) eqn:B.
  - now rewrite trimStart_blank.
  - destruct (trimStart_visible s B) as (c & t & -> & E).
    pose proof (trimEnd_visible c t E) as Hne.
    destruct (trimEnd (String c t)); [congruence | reflexivity].
Qed.

Lemma kept_cons (h : string) (t : list string) :
  kept (h :: t) = (if blank h then 0 else 1) + kept t.
Proof.
  unfold kept. cbn [map filter]. rewrite trim_kept.
  destruct (blank h); reflexivity.
Qed.

Lemma split_comma_cons (s : string) : exists h t, split_comma s = h :: t.
Proof.
  destruct s as [|c s]; simpl; [now eexists; eexists|].
  destruct (Ascii.eqb c ","); [now eexists; eexists|].
  destruct (split_comma s); now eexists; eexists.
Qed.

Lemma count_options_split (s : string) (seen : bool) :
  count_options seen s
  = match split_comma s with
    | h :: t => (if seen || negb (blank h) then 1 else 0) + kept t
    | [] => 0
    end.
Proof.
  revert seen. induction s as [|c s IH]; intro seen.
  - simpl. rewrite orb_false_r. unfold kept. simpl. lia.
  - cbn [count_options split_comma].
    destruct (Ascii.eqb c ",").
    + rewrite (IH false). cbn [blank negb]. rewrite orb_false_r.
      destruct (split_comma s) as [|h t]; [reflexivity|].
      rewrite kept_cons. cbn [orb]. destruct (blank h); reflexivity.
    + rewrite IH. destruct (split_comma_cons s) as (h & t & ->).
      cbn [blank]. rewrite negb_andb, orb_assoc. reflexivity.
Qed.

(** The size of a group is the number of options the code keeps. *)
Lemma block_options_size (body : string) :
  List.length (block_options (in_braces body)) = group_size body.
Proof.
  unfold block_options, group_size. rewrite slice_block, count_options_split.
  destruct (split_comma_cons body) as (h & t & ->).
  fold (kept (h :: t)). rewrite kept_cons. cbn [orb].
  destruct (blank h); reflexivity.
Qed.

Lemma count_blocks (gs : list string) (start : Double.number) :
  fold_left (fun totalCount block =>
               Double.mul totalCount (Double.of_nat (List.length (block_options block))))
            (map in_braces gs) start
  = multiply_from start (map group_size gs).
Proof.
  unfold multiply_from. revert start. induction gs as [|g gs IH]; intro start; simpl.
  - reflexivity.
  - now rewrite IH, block_options_size.
Qed.

(** The code against the scan: the count is the product in doubles, from the
    left, of the sizes of the blocks. *)
Lemma calculatePermutationCount_spec (s : string) :
  calculatePermutationCount s = multiply_from 1 (map group_size (bracket_groups s)).
Proof.
  unfold calculatePermutationCount. rewrite match_g_block.
  destruct (bracket_groups s) as [|g gs] eqn:E; [reflexivity|].
  apply count_blocks.
Qed.

(** The size of a group in the words of the specification is the size that
    the scan counts. *)
Lemma spec_group_size_scan (body : string) : Spec.group_size body = group_size body.
Proof.
  unfold Spec.group_size, group_size. rewrite count_options_split.
  destruct (split_comma_cons body) as (h & t & ->).
  fold (kept (h :: t)). rewrite kept_cons. cbn [orb].
  destruct (blank h); reflexivity.
Qed.

End OptionFacts.

(** ** Doubles

    The rounding of the specification shifts a mantissa down to 53 bits and
    looks at the bits that fall off.  From what a shift leaves of the
    mantissa follow the two facts that the parser needs (up to 2^53 nothing
    is rounded, and nothing above zero is rounded to zero) and that the
    multiplication of module [Double] is the one of the specification. *)

Section DoubleFacts.

Import SpecFloat.

(** The number of bits of a mantissa. *)
Lemma bits_size (p : positive) : digits2_pos p = Pos.size p.
Proof. induction p; cbn; congruence. Qed.

Lemma bits_log2 (p : positive) : Zpos (digits2_pos p) = Z.succ (Z.log2 (Zpos p)).
Proof. rewrite bits_size. destruct p; cbn; lia. Qed.

Lemma bits_bounds (p : positive) :
  (2 ^ (Zpos (digits2_pos p) - 1) <= Zpos p < 2 ^ Zpos (digits2_pos p))%Z.
Proof.
  rewrite bits_log2. replace (Z.succ (Z.log2 (Zpos p)) - 1)%Z with (Z.log2 (Zpos p)) by lia.
  apply Z.log2_spec. lia.
Qed.

Lemma bits_unique (p : positive) (d : Z) :
  (2 ^ (d - 1) <= Zpos p < 2 ^ d)%Z -> (1 <= d)%Z -> Zpos (digits2_pos p) = d.
Proof.
  intros H Hd. rewrite bits_log2.
  rewrite (Z.log2_unique (Zpos p) (d - 1)); [lia | lia |].
  replace (Z.succ (d - 1)) with d by lia. exact H.
Qed.

(** A shift up multiplies by a power of two. *)
Lemma iter_xO (p j : positive) : Zpos (Pos.iter xO p j) = (Zpos p * 2 ^ Zpos j)%Z.
Proof.
  induction j as [|j IH] using Pos.peano_ind.
  - cbn. lia.
  - rewrite Pos.iter_succ, Pos2Z.inj_xO, IH, Pos2Z.inj_succ, Z.pow_succ_r by lia. lia.
Qed.

Lemma iter_pos_nat {A : Type} (f : A -> A) (p : positive) (x : A) :
  iter_pos f p x = Nat.iter (Pos.to_nat p) f x.
Proof.
  revert x. induction p as [p IH|p IH|]; intro x; cbn [iter_pos].
  - rewrite !IH, Pos2Nat.inj_xI.
    replace (S (2 * Pos.to_nat p)) with (Pos.to_nat p + (Pos.to_nat p + 1)) by lia.
    now rewrite !Nat.iter_add.
  - rewrite !IH, Pos2Nat.inj_xO.
    replace (2 * Pos.to_nat p) with (Pos.to_nat p + Pos.to_nat p) by lia.
    now rewrite Nat.iter_add.
  - reflexivity.
Qed.

(** A shift down by one bit halves the mantissa. *)
Lemma shr_1_m (mrs : shr_record) :
  (0 <= shr_m mrs)%Z -> shr_m (shr_1 mrs) = (shr_m mrs / 2)%Z.
Proof.
  destruct mrs as [m r s]. cbn [shr_m]. intro H.
  rewrite <- Z.div2_div. destruct m as [|[p|p|]|p]; try reflexivity; lia.
Qed.

Lemma shr_iter_m (n : nat) (mrs : shr_record) :
  (0 <= shr_m mrs)%Z ->
  shr_m (Nat.iter n shr_1 mrs) = (shr_m mrs / 2 ^ Z.of_nat n)%Z.
Proof.
  intro H. induction n as [|n IH].
  - cbn. now rewrite Z.div_1_r.
  - rewrite Nat.iter_succ, shr_1_m.
    + rewrite IH, Nat2Z.inj_succ, Z.pow_succ_r, Z.div_div by lia. f_equal. lia.
    + rewrite IH. apply Z.div_pos; [exact H | apply Z.pow_pos_nonneg; lia].
Qed.

(** What a shift leaves of the mantissa and of the exponent. *)
Lemma shr_spec (mrs mrs' : shr_record) (e e' n : Z) :
  (0 <= shr_m mrs)%Z -> shr mrs e n = (mrs', e') ->
  shr_m mrs' = (shr_m mrs / 2 ^ Z.max n 0)%Z /\ e' = (e + Z.max n 0)%Z.
Proof.
  intros H E. unfold shr in E. destruct n as [|p|p]; inversion E; subst.
  - cbn. rewrite Z.div_1_r. lia.
  - rewrite iter_pos_nat, shr_iter_m, positive_nat_Z by exact H.
    rewrite Z.max_l by lia. split; reflexivity.
  - cbn. rewrite Z.div_1_r. lia.
Qed.

Lemma round_nearest_even_bounds (m : Z) (l : location) :
  (m <= round_nearest_even m l <= m + 1)%Z.
Proof.
  unfold round_nearest_even. destruct l as [|[]]; try lia.
  destruct (Z.even m); lia.
Qed.

Lemma zdigits_53_54 (m : Z) :
  (2 ^ 52 <= m <= 2 ^ 53)%Z ->
  (m < 2 ^ 53 /\ Zdigits2 m = 53)%Z \/ (m = 2 ^ 53 /\ Zdigits2 m = 54)%Z.
Proof.
  intro H. destruct m as [|p|p]; try lia. cbn [Zdigits2].
  destruct (Z.eq_dec (Zpos p) (2 ^ 53)) as [E|E].
  - right. split; [exact E|]. inversion E. reflexivity.
  - left. split; [lia|]. apply bits_unique; lia.
Qed.

(** Rounding a mantissa of at least 53 bits: the outcome is a number with
    a mantissa above zero, or an infinity; a mantissa of just 53 bits
    stays. *)
Lemma binary_round_aux_spec (m : positive) (e : Z) :
  (53 <= Zpos (digits2_pos m))%Z ->
  (-1021 <= Zpos (digits2_pos m) + e - 53)%Z ->
  exists m3 e3,
    binary_round_aux 53 1024 false (Zpos m) e loc_Exact
    = (if (e3 <=? 971)%Z then S754_finite false m3 e3 else S754_infinity false)
    /\ (e + (Zpos (digits2_pos m) - 53) <= e3)%Z
    /\ (Zpos (digits2_pos m) = 53%Z -> m3 = m /\ e3 = e)
    /\ (2 ^ 52 <= Zpos m3 < 2 ^ 53)%Z.
Proof.
  set (d := Zpos (digits2_pos m)). intros Hd He.
  pose proof (bits_bounds m) as B. fold d in B.
  unfold binary_round_aux.
  destruct (shr_fexp 53 1024 (Zpos m) e loc_Exact) as [mrs1 e1] eqn:E1.
  unfold shr_fexp in E1. cbn [shr_record_of_loc Zdigits2] in E1. fold d in E1.
  assert (F1 : fexp 53 1024 (d + e) = (d + e - 53)%Z) by (unfold fexp, emin; lia).
  rewrite F1 in E1. replace (d + e - 53 - e)%Z with (d - 53)%Z in E1 by lia.
  assert (X1 : shr_m mrs1 = (Zpos m / 2 ^ (d - 53))%Z /\ e1 = (e + (d - 53))%Z
               /\ (d = 53%Z -> mrs1 = {| shr_m := Zpos m; shr_r := false; shr_s := false |})).
  { split; [|split].
    - apply shr_spec in E1 as [M1 _]; [|cbn; lia]. cbn [shr_m] in M1.
      now rewrite Z.max_l in M1 by lia.
    - apply shr_spec in E1 as [_ M1]; [|cbn; lia]. now rewrite Z.max_l in M1 by lia.
    - intro E. rewrite E in E1. cbn in E1. now inversion E1. }
  destruct X1 as (M1 & X1 & S1).
  assert (P : (2 ^ (d - 1) = 2 ^ (d - 53) * 2 ^ 52 /\ 2 ^ d = 2 ^ (d - 53) * 2 ^ 53)%Z).
  { rewrite <- !Z.pow_add_r by lia. split; f_equal; lia. }
  destruct P as [P1 P2].
  assert (Hp : (0 < 2 ^ (d - 53))%Z) by (apply Z.pow_pos_nonneg; lia).
  assert (B1 : (2 ^ 52 <= shr_m mrs1 < 2 ^ 53)%Z).
  { rewrite M1. split.
    - apply Z.div_le_lower_bound; [exact Hp | lia].
    - apply Z.div_lt_upper_bound; [exact Hp | lia]. }
  pose proof (round_nearest_even_bounds (shr_m mrs1) (loc_of_shr_record mrs1)) as B2.
  set (m2 := round_nearest_even (shr_m mrs1) (loc_of_shr_record mrs1)) in *.
  destruct (shr_fexp 53 1024 m2 e1 loc_Exact) as [mrs3 e3] eqn:E3.
  unfold shr_fexp in E3. cbn [shr_record_of_loc] in E3.
  assert (F3 : fexp 53 1024 (Zdigits2 m2 + e1) = (Zdigits2 m2 + e1 - 53)%Z).
  { unfold fexp, emin. destruct (zdigits_53_54 m2 ltac:(lia)) as [[_ D]|[_ D]]; lia. }
  rewrite F3 in E3. replace (Zdigits2 m2 + e1 - 53 - e1)%Z with (Zdigits2 m2 - 53)%Z in E3 by lia.
  assert (Hm2 : d = 53%Z -> m2 = Zpos m).
  { intro E. unfold m2. rewrite (S1 E). reflexivity. }
  assert (X3 : (2 ^ 52 <= shr_m mrs3 < 2 ^ 53)%Z /\ (e1 <= e3)%Z
               /\ (d = 53%Z -> shr_m mrs3 = Zpos m /\ e3 = e)).
  { destruct (zdigits_53_54 m2 ltac:(lia)) as [[L D]|[L D]]; rewrite D in E3.
    - cbn in E3. inversion E3; subst mrs3 e3. cbn [shr_m]. split; [lia|]. split; [lia|].
      intro E. split; [exact (Hm2 E) | lia].
    - cbn in E3. inversion E3; subst mrs3 e3. rewrite L. cbn. split; [lia|]. split; [lia|].
      intro E. exfalso. rewrite E in B. rewrite (Hm2 E) in L. lia. }
  destruct X3 as (B3 & X3 & S3).
  destruct (shr_m mrs3) as [|m3|m3] eqn:M3; try lia.
  exists m3, e3. split; [reflexivity|]. split; [lia|]. split; [|exact B3].
  intro E. destruct (S3 E) as [E' ->]. split; [now inversion E' | reflexivity].
Qed.

(** The number itself, shifted up to a mantissa of 53 bits. *)
Lemma binary_round_small (p : positive) :
  (Zpos (digits2_pos p) <= 53)%Z ->
  exists m e,
    binary_round 53 1024 false p 0 = S754_finite false m e
    /\ (e = 0%Z /\ m = p
        \/ exists j, e = Zneg j /\ m = Pos.iter xO p j).
Proof.
  intro Hd. pose proof (bits_bounds p) as B.
  set (d := Zpos (digits2_pos p)) in *.
  assert (Hd1 : (1 <= d)%Z) by (unfold d; lia).
  unfold binary_round.
  assert (F : fexp 53 1024 (Zpos (digits2_pos p) + 0) = (d - 53)%Z)
    by (unfold fexp, emin; fold d; lia).
  rewrite F. unfold shl_align.
  destruct (d - 53 - 0)%Z as [|j|j] eqn:Ej; try lia.
  - assert (D : Zpos (digits2_pos p) = 53%Z) by (fold d; lia).
    destruct (binary_round_aux_spec p 0) as (m3 & e3 & E & _ & S & _); [lia | lia |].
    destruct (S D) as [-> ->]. exists p, 0%Z. split; [exact E | now left].
  - assert (D : Zpos (digits2_pos (Pos.iter xO p j)) = 53%Z).
    { apply bits_unique; [|lia]. rewrite iter_xO.
      assert (Hj : Zpos j = (53 - d)%Z) by lia. rewrite Hj.
      assert (P : (2 ^ 52 = 2 ^ (d - 1) * 2 ^ (53 - d) /\ 2 ^ 53 = 2 ^ d * 2 ^ (53 - d))%Z).
      { rewrite <- !Z.pow_add_r by lia. split; f_equal; lia. }
      destruct P as [P1 P2]. replace (53 - 1)%Z with 52%Z by lia. rewrite P1, P2.
      assert (0 < 2 ^ (53 - d))%Z by (apply Z.pow_pos_nonneg; lia). nia. }
    destruct (binary_round_aux_spec (Pos.iter xO p j) (d - 53)) as (m3 & e3 & E & _ & S & _);
      [lia | lia |].
    destruct (S D) as [-> ->]. exists (Pos.iter xO p j), (d - 53)%Z.
    replace (d - 53 <=? 971)%Z with true in E by (symmetry; apply Z.leb_le; lia).
    split; [exact E|]. right. exists j. split; [lia | reflexivity].
Qed.

(** Up to 2^53 every natural number is a double. *)
Lemma round_exact (n : N) : (n <= 2 ^ 53)%N -> Double.round n = Double.Finite n.
Proof.
  intro H. destruct (N.eq_dec n (2 ^ 53)) as [->|Hn]; [reflexivity|].
  destruct n as [|p]; [reflexivity|].
  unfold Double.round. cbn [Z.of_N binary_normalize].
  assert (Hd : (Zpos (digits2_pos p) <= 53)%Z).
  { pose proof (bits_bounds p) as [B _].
    assert (Hp : (Zpos p < 2 ^ 53)%Z) by lia.
    apply Z.lt_succ_r. replace (Z.succ 53) with (53 + 1)%Z by lia.
    apply Z.lt_sub_lt_add_r.
    apply (Z.pow_lt_mono_r_iff 2); lia. }
  destruct (binary_round_small p Hd) as (m & e & -> & [[-> ->]|(j & -> & ->)]);
    cbn [Double.of_IEEE]; [reflexivity|].
  f_equal. change (N.pos (Pos.iter xO p j)) with (N.shiftl (N.pos p) (N.pos j)).
  rewrite N.shiftr_shiftl_l by lia. now rewrite N.sub_diag, N.shiftl_0_r.
Qed.

(** Rounding a positive number gives neither zero nor [NaN]. *)
Lemma round_positive (n : N) :
  (1 <= n)%N -> Double.round n <> Double.Finite 0 /\ Double.round n <> Double.NaN.
Proof.
  intro H. destruct (N.le_gt_cases n (2 ^ 53)) as [Hle|Hgt].
  - rewrite (round_exact n Hle). split; [intro E; inversion E; lia | discriminate].
  - destruct n as [|p]; [lia|].
    unfold Double.round. cbn [Z.of_N binary_normalize]. unfold binary_round.
    pose proof (bits_bounds p) as [_ B].
    set (d := Zpos (digits2_pos p)) in *.
    assert (Hd : (54 <= d)%Z).
    { assert (Hp : (2 ^ 53 < Zpos p)%Z) by lia.
      assert (53 < d)%Z; [|lia].
      apply (Z.pow_lt_mono_r_iff 2); lia. }
    assert (F : fexp 53 1024 (d + 0) = (d - 53)%Z) by (unfold fexp, emin; lia).
    rewrite F. unfold shl_align.
    destruct (d - 53 - 0)%Z as [|j|j] eqn:Ej; try lia.
    destruct (binary_round_aux_spec p 0) as (m3 & e3 & -> & He3 & _ & _);
      [fold d; lia | fold d; lia |].
    fold d in He3.
    destruct (e3 <=? 971)%Z; cbn [Double.of_IEEE]; [|split; discriminate].
    destruct e3 as [|k|k]; try lia.
    split; discriminate.
Qed.

Lemma shr_nat (mrs : shr_record) (e n : Z) :
  shr mrs e n = (Nat.iter (Z.to_nat n) shr_1 mrs, (e + Z.max n 0)%Z).
Proof.
  destruct n as [|p|p]; unfold shr; rewrite ?iter_pos_nat;
    simpl Z.to_nat; simpl Z.max; rewrite ?Z.add_0_r; reflexivity.
Qed.

(** Shifting out zeros leaves nothing behind. *)
Lemma shr_zeros (j : nat) (z : Z) :
  (0 <= z)%Z ->
  Nat.iter j shr_1 {| shr_m := z * 2 ^ Z.of_nat j; shr_r := false; shr_s := false |}
  = {| shr_m := z; shr_r := false; shr_s := false |}.
Proof.
  intro Hz. induction j as [|j IH].
  - cbn. f_equal. lia.
  - rewrite Nat.iter_succ_r.
    replace (z * 2 ^ Z.of_nat (S j))%Z with (2 * (z * 2 ^ Z.of_nat j))%Z
      by (rewrite Nat2Z.inj_succ, Z.pow_succ_r by lia; lia).
    assert (Hp : (0 <= z * 2 ^ Z.of_nat j)%Z)
      by (apply Z.mul_nonneg_nonneg; [exact Hz | apply Z.pow_nonneg; lia]).
    destruct (z * 2 ^ Z.of_nat j)%Z as [|q|q] eqn:E; [| |lia].
    + cbn [Z.mul shr_1 orb]. exact IH.
    + cbn [Z.mul shr_1 orb]. exact IH.
Qed.

(** The outcome of the rounding depends on the value alone: a mantissa
    shifted up with the exponent taken down is rounded alike. *)
Lemma binary_round_aux_shift (m m' : positive) (e j : Z) :
  (53 <= Zpos (digits2_pos m))%Z ->
  (-1021 <= Zpos (digits2_pos m) + e - 53)%Z ->
  (0 <= j)%Z -> (Zpos m' = Zpos m * 2 ^ j)%Z ->
  binary_round_aux 53 1024 false (Zpos m') (e - j) loc_Exact
  = binary_round_aux 53 1024 false (Zpos m) e loc_Exact.
Proof.
  intros Hd He Hj Hm. pose proof (bits_bounds m) as B.
  set (d := Zpos (digits2_pos m)) in *.
  assert (D' : Zpos (digits2_pos m') = (d + j)%Z).
  { apply bits_unique; [|lia]. rewrite Hm.
    replace (d + j - 1)%Z with ((d - 1) + j)%Z by lia.
    rewrite !Z.pow_add_r by lia.
    assert (0 < 2 ^ j)%Z by (apply Z.pow_pos_nonneg; lia). nia. }
  unfold binary_round_aux.
  assert (E : shr_fexp 53 1024 (Zpos m') (e - j) loc_Exact
              = shr_fexp 53 1024 (Zpos m) e loc_Exact).
  { unfold shr_fexp. cbn [Zdigits2 shr_record_of_loc]. fold d. rewrite D'.
    replace (d + j + (e - j))%Z with (d + e)%Z by lia.
    assert (F : fexp 53 1024 (d + e) = (d + e - 53)%Z) by (unfold fexp, emin; lia).
    rewrite F, !shr_nat.
    replace (d + e - 53 - (e - j))%Z with ((d - 53) + j)%Z by lia.
    replace (d + e - 53 - e)%Z with (d - 53)%Z by lia.
    replace (Z.to_nat (d - 53 + j)) with (Z.to_nat (d - 53) + Z.to_nat j) by lia.
    rewrite Nat.iter_add, Hm.
    pose proof (shr_zeros (Z.to_nat j) (Zpos m) ltac:(lia)) as Hz.
    rewrite Z2Nat.id in Hz by lia. rewrite Hz.
    f_equal. lia. }
  now rewrite E.
Qed.

(** Before the rounding the mantissa is shifted up to 53 bits, if it is
    shorter. *)
Lemma shl_align_spec (p : positive) :
  exists mz ez,
    shl_align p 0 (fexp 53 1024 (Zpos (digits2_pos p) + 0)) = (mz, ez)
    /\ (-52 <= ez <= 0)%Z
    /\ (Zpos mz = Zpos p * 2 ^ (- ez))%Z
    /\ (53 <= Zpos (digits2_pos mz))%Z
    /\ (ez = 0 \/ Zpos (digits2_pos mz) = 53)%Z.
Proof.
  pose proof (bits_bounds p) as B. set (d := Zpos (digits2_pos p)) in *.
  assert (Hd1 : (1 <= d)%Z) by (unfold d; lia).
  assert (F : fexp 53 1024 (d + 0) = (d - 53)%Z) by (unfold fexp, emin; lia).
  rewrite F. unfold shl_align.
  destruct (d - 53 - 0)%Z as [|j|j] eqn:Ej.
  - exists p, 0%Z. split; [reflexivity|]. split; [lia|].
    split; [cbn; lia|]. split; [fold d; lia | now left].
  - exists p, 0%Z. split; [reflexivity|]. split; [lia|].
    split; [cbn; lia|]. split; [fold d; lia | now left].
  - exists (Pos.iter xO p j), (d - 53)%Z. split; [reflexivity|]. split; [lia|].
    replace (- (d - 53))%Z with (Zpos j) by lia. split; [apply iter_xO|].
    assert (D : Zpos (digits2_pos (Pos.iter xO p j)) = 53%Z); [|split; [lia | now right]].
    apply bits_unique; [|lia]. rewrite iter_xO.
    assert (Hj : Zpos j = (53 - d)%Z) by lia. rewrite Hj.
    assert (P : (2 ^ 52 = 2 ^ (d - 1) * 2 ^ (53 - d) /\ 2 ^ 53 = 2 ^ d * 2 ^ (53 - d))%Z).
    { rewrite <- !Z.pow_add_r by lia. split; f_equal; lia. }
    destruct P as [P1 P2]. replace (53 - 1)%Z with 52%Z by lia. rewrite P1, P2.
    assert (0 < 2 ^ (53 - d))%Z by (apply Z.pow_pos_nonneg; lia). nia.
Qed.

(** A double above zero, as the specification has it: a mantissa of 53 bits
    and an exponent, with the value of the number. *)
Lemma to_IEEE_finite (p : positive) :
  Double.round (Npos p) = Double.Finite (Npos p) ->
  exists m e up down,
    binary_round 53 1024 false p 0 = S754_finite false m e
    /\ (2 ^ 52 <= Zpos m < 2 ^ 53)%Z
    /\ (0 <= up)%Z /\ (0 <= down <= 52)%Z /\ e = (up - down)%Z
    /\ (Zpos m * 2 ^ up = Zpos p * 2 ^ down)%Z.
Proof.
  intro R. unfold Double.round in R. cbn [Z.of_N binary_normalize] in R.
  unfold binary_round in *.
  destruct (shl_align_spec p) as (mz & ez & E & Hez & Hmz & Hdz & Hc). rewrite E in *.
  destruct (binary_round_aux_spec mz ez Hdz) as (m3 & e3 & E3 & He3 & _ & B3); [lia|].
  rewrite E3 in *. destruct (e3 <=? 971)%Z; [|discriminate].
  exists m3, e3. cbn [Double.of_IEEE] in R.
  destruct e3 as [|k|k].
  - exists 0%Z, 0%Z. inversion R. repeat split; try reflexivity; try lia.
  - exists (Zpos k), 0%Z.
    change (Double.Finite (N.shiftl (Npos m3) (Npos k)) = Double.Finite (Npos p)) in R.
    injection R as R'.
    repeat split; try reflexivity; try lia.
    rewrite <- R', iter_xO, Z.pow_0_r. lia.
  - exists 0%Z, (Zpos k).
    assert (Hk : (Zpos k <= 52)%Z) by lia.
    repeat split; try reflexivity; try lia.
    (* the mantissa is the number shifted up *)
    assert (V : (Zpos m3 = Zpos mz /\ Zneg k = ez)%Z).
    { destruct (binary_round_aux_spec mz ez Hdz) as (m4 & e4 & E4 & He4 & S4 & B4); [lia|].
      assert (D53 : Zpos (digits2_pos mz) = 53%Z) by lia.
      destruct (S4 D53) as [-> ->].
      rewrite E3 in E4. destruct (ez <=? 971)%Z eqn:L; [|apply Z.leb_gt in L; lia].
      inversion E4. split; congruence. }
    destruct V as [V1 V2]. rewrite V1, Hmz, <- V2. cbn. lia.
Qed.

(** What the rounding returns is a double. *)
Lemma round_double (n : N) : Double.double (Double.round n).
Proof.
  destruct n as [|p]; [reflexivity|].
  unfold Double.round at 1. cbn [Z.of_N binary_normalize]. unfold binary_round.
  destruct (shl_align_spec p) as (mz & ez & E & Hez & Hmz & Hdz & _). rewrite E.
  destruct (binary_round_aux_spec mz ez Hdz) as (m3 & e3 & -> & He3 & _ & B3); [lia|].
  destruct (e3 <=? 971)%Z eqn:L; [|reflexivity].
  cbn [Double.of_IEEE]. destruct e3 as [|k|k].
  - apply round_exact. lia.
  - change (N.shiftl (N.pos m3) (N.pos k)) with (N.pos (Pos.iter xO m3 k)).
    unfold Double.double, Double.to_IEEE. cbn [Z.of_N binary_normalize]. unfold binary_round.
    destruct (shl_align_spec (Pos.iter xO m3 k)) as (mz' & ez' & E' & Hez' & Hmz' & _).
    rewrite E'.
    assert (D3 : Zpos (digits2_pos m3) = 53%Z) by (apply bits_unique; lia).
    replace ez' with (Zpos k - (Zpos k - ez'))%Z by lia.
    rewrite (binary_round_aux_shift m3 mz' (Zpos k) (Zpos k - ez')); [|lia|lia|lia|].
    + destruct (binary_round_aux_spec m3 (Zpos k)) as (m4 & e4 & -> & _ & S4 & _); [lia|lia|].
      destruct (S4 D3) as [-> ->]. rewrite L. reflexivity.
    + rewrite Hmz', iter_xO.
      replace (Zpos k - ez')%Z with (Zpos k + (- ez'))%Z by lia.
      rewrite Z.pow_add_r by lia. ring.
  - apply round_exact.
    change (N.shiftr (N.pos m3) (N.pos k) <= 2 ^ 53)%N.
    rewrite N.shiftr_div_pow2.
    assert (Hm : (N.pos m3 <= 2 ^ 53)%N) by lia.
    etransitivity; [|exact Hm].
    apply N.Div0.div_le_upper_bound.
    pose proof (N.pow_nonzero 2 (N.pos k)). nia.
Qed.

(** The product of doubles is a double. *)
Lemma mul_double (x y : Double.number) : Double.double (Double.mul x y).
Proof.
  destruct x as [[|a]| |], y as [[|b]| |]; try reflexivity.
  cbn [Double.mul]. apply round_double.
Qed.

Lemma of_nat_double (n : N) : (n <= 2 ^ 53)%N -> Double.double (Double.Finite n).
Proof. exact (round_exact n). Qed.

Lemma to_IEEE_zero_or_finite (n : N) :
  Double.double (Double.Finite n) ->
  (n = 0%N /\ Double.to_IEEE (Double.Finite n) = S754_zero false)
  \/ exists p m e, n = Npos p /\ Double.to_IEEE (Double.Finite n) = S754_finite false m e.
Proof.
  intro H. destruct n as [|p]; [left; split; reflexivity|]. right.
  destruct (to_IEEE_finite p H) as (m & e & _ & _ & E & _).
  exists p, m, e. split; [reflexivity | exact E].
Qed.

(** The multiplication is the multiplication of the Standard Library's
    specification of IEEE-754 arithmetic. *)
Theorem mul_IEEE_754 (x y : Double.number) :
  Double.double x -> Double.double y ->
  Double.mul x y = Double.of_IEEE (SFmul 53 1024 (Double.to_IEEE x) (Double.to_IEEE y)).
Proof.
  intros Hx Hy. destruct x as [a| |], y as [b| |]; try reflexivity.
  - destruct a as [|pa], b as [|pb]; try reflexivity.
    + destruct (to_IEEE_finite pb Hy) as (m & e & _ & _ & E & _).
      cbn [Double.to_IEEE Z.of_N binary_normalize]. rewrite E. reflexivity.
    + destruct (to_IEEE_finite pa Hx) as (m & e & _ & _ & E & _).
      cbn [Double.to_IEEE Z.of_N binary_normalize]. rewrite E. reflexivity.
    + destruct (to_IEEE_finite pa Hx)
        as (ma & ea & upa & downa & Ea & Ba & Hupa & Hdowna & Hea & Va).
      destruct (to_IEEE_finite pb Hy)
        as (mb & eb & upb & downb & Eb & Bb & Hupb & Hdownb & Heb & Vb).
      cbn [Double.to_IEEE Z.of_N binary_normalize Double.mul N.mul].
      rewrite Ea, Eb. cbn [SFmul xorb]. unfold Double.round.
      cbn [Z.of_N binary_normalize]. f_equal. unfold binary_round.
      destruct (shl_align_spec (pa * pb)) as (mz & ez & E & Hez & Hmz & Hdz & _).
      rewrite E.
      assert (Hpos : (0 < Zpos mz * 2 ^ (downa + downb))%Z)
        by (apply Z.mul_pos_pos; [lia | apply Z.pow_pos_nonneg; lia]).
      set (w := Z.to_pos (Zpos mz * 2 ^ (downa + downb))).
      assert (Hw : Zpos w = (Zpos mz * 2 ^ (downa + downb))%Z) by (apply Z2Pos.id; exact Hpos).
      assert (Dm : (105 <= Zpos (digits2_pos (ma * mb)))%Z).
      { pose proof (bits_bounds (ma * mb)) as [_ B].
        assert (104 < Zpos (digits2_pos (ma * mb)))%Z; [|lia].
        apply (Z.pow_lt_mono_r_iff 2); [lia | lia |].
        rewrite Pos2Z.inj_mul in B.
        replace (2 ^ 104)%Z with (2 ^ 52 * 2 ^ 52)%Z by reflexivity. nia. }
      rewrite <- (binary_round_aux_shift mz w ez (downa + downb)); [|lia|lia|lia|exact Hw].
      rewrite <- (binary_round_aux_shift (ma * mb) w (ea + eb) (upa + upb + (- ez)));
        [f_equal; lia | lia | lia | lia |].
      rewrite Hw, Hmz, !Pos2Z.inj_mul, !Z.pow_add_r by lia.
      assert (Ha' : (0 < 2 ^ upa)%Z) by (apply Z.pow_pos_nonneg; lia).
      assert (Hb' : (0 < 2 ^ upb)%Z) by (apply Z.pow_pos_nonneg; lia).
      set (A := (2 ^ upa)%Z) in *. set (B := (2 ^ upb)%Z) in *.
      set (C := (2 ^ downa)%Z) in *. set (D := (2 ^ downb)%Z) in *.
      set (Z := (2 ^ (- ez))%Z) in *.
      transitivity ((Zpos pa * C) * (Zpos pb * D) * Z)%Z; [ring|].
      rewrite <- Va, <- Vb. ring.
  - destruct (to_IEEE_zero_or_finite a Hx) as [[-> E]|(p & m & e & -> & E)];
      rewrite E; reflexivity.
  - destruct (to_IEEE_zero_or_finite a Hx) as [[-> E]|(p & m & e & -> & E)];
      rewrite E; reflexivity.
  - destruct (to_IEEE_zero_or_finite b Hy) as [[-> E]|(p & m & e & -> & E)];
      rewrite E; reflexivity.
Qed.

Lemma strict_eq_nat (x : Double.number) (n : nat) :
  reflect (x = Double.of_nat n) (Double.strict_eq x (Double.of_nat n)).
Proof.
  unfold Double.of_nat. destruct x as [a| |]; cbn [Double.strict_eq].
  - destruct (N.eqb_spec a (N.of_nat n)) as [->|H]; constructor; congruence.
  - constructor. discriminate.
  - constructor. discriminate.
Qed.

Lemma mul_finite (a b : N) :
  Double.mul (Double.Finite a) (Double.Finite b) = Double.round (a * b).
Proof. destruct a; reflexivity. Qed.

Lemma mul_absorbing (x : Double.number) (n : nat) :
  zero_or_NaN x -> zero_or_NaN (Double.mul x (Double.of_nat n)).
Proof.
  intros [->| ->]; [left | right; reflexivity].
  unfold Double.of_nat. cbn. reflexivity.
Qed.

Lemma mul_zero (x : Double.number) :
  above_zero x -> zero_or_NaN (Double.mul x (Double.of_nat 0)).
Proof.
  intros [H0 Hn]. destruct x as [[|a]| |];
    [congruence | left; reflexivity | right; reflexivity | congruence].
Qed.

Lemma mul_positive (x : Double.number) (n : nat) :
  above_zero x -> 1 <= n -> above_zero (Double.mul x (Double.of_nat n)).
Proof.
  intros [H0 Hn] H. destruct x as [a| |]; [| |congruence].
  - assert (Ha : a <> 0%N) by congruence.
    unfold Double.of_nat. rewrite mul_finite.
    apply round_positive. nia.
  - unfold Double.of_nat. cbn. destruct (N.of_nat n) eqn:E; [lia|].
    split; discriminate.
Qed.

Lemma multiply_from_absorbing (sizes : list nat) (x : Double.number) :
  zero_or_NaN x -> zero_or_NaN (multiply_from x sizes).
Proof.
  revert x. induction sizes as [|n sizes IH]; intros x Hx; [exact Hx|].
  apply IH. now apply mul_absorbing.
Qed.

(** A product from a count above zero is zero or [NaN] exactly when a factor
    is zero. *)
Lemma multiply_from_zero (sizes : list nat) (x : Double.number) :
  above_zero x ->
  (zero_or_NaN (multiply_from x sizes) <-> Exists (fun n => n = 0) sizes)
  /\ (~ Exists (fun n => n = 0) sizes -> above_zero (multiply_from x sizes)).
Proof.
  revert x. induction sizes as [|n sizes IH]; intros x Hx.
  - cbn. split; [split|].
    + intros [E|E]; destruct Hx; congruence.
    + intro E. inversion E.
    + intros _. exact Hx.
  - change (multiply_from x (n :: sizes))
      with (multiply_from (Double.mul x (Double.of_nat n)) sizes).
    destruct n as [|n].
    + split; [split|].
      * intros _. now left.
      * intros _. apply multiply_from_absorbing. now apply mul_zero.
      * intro E. exfalso. apply E. now left.
    + assert (Hp : above_zero (Double.mul x (Double.of_nat (S n))))
        by (apply mul_positive; [exact Hx | lia]).
      destruct (IH _ Hp) as [IH1 IH2]. split; [split|].
      * intro A. right. now apply IH1.
      * intro E. apply IH1. inversion E; [discriminate | assumption].
      * intro E. apply IH2. intro E'. apply E. now right.
Qed.

Lemma product_cons (n : nat) (sizes : list nat) :
  product (n :: sizes) = (N.of_nat n * product sizes)%N.
Proof. reflexivity. Qed.

Lemma product_app (xs ys : list nat) :
  product (xs ++ ys) = (product xs * product ys)%N.
Proof.
  induction xs as [|x xs IH]; [cbn [app]; change (product []) with 1%N; lia|].
  cbn [app]. rewrite !product_cons, IH. lia.
Qed.

(** While the product of every initial run of factors is at most 2^53, the
    product in doubles is the product. *)
Lemma multiply_from_exact (sizes : list nat) (a : N) :
  (forall k, (a * product (firstn k sizes) <= 2 ^ 53)%N) ->
  multiply_from (Double.Finite a) sizes = Double.Finite (a * product sizes).
Proof.
  revert a. induction sizes as [|n sizes IH]; intros a H.
  - cbn. now rewrite N.mul_1_r.
  - change (multiply_from (Double.Finite a) (n :: sizes))
      with (multiply_from (Double.mul (Double.Finite a) (Double.of_nat n)) sizes).
    assert (E : Double.mul (Double.Finite a) (Double.of_nat n)
                = Double.Finite (a * N.of_nat n)).
    { unfold Double.of_nat. rewrite mul_finite. apply round_exact.
      specialize (H 1). cbn [firstn] in H. rewrite product_cons in H.
      change (product []) with 1%N in H. lia. }
    rewrite E, IH.
    + rewrite product_cons. f_equal. lia.
    + intro k. specialize (H (S k)). cbn [firstn] in H. rewrite product_cons in H. lia.
Qed.

(** When no factor is zero, the product bounds the product of every initial
    run. *)
Lemma product_firstn (sizes : list nat) (k : nat) :
  Forall (fun n => 1 <= n) sizes -> (product (firstn k sizes) <= product sizes)%N.
Proof.
  intro H. revert k. induction H as [|n sizes Hn H IH]; intro k.
  - destruct k; cbn; lia.
  - destruct k as [|k]; cbn [firstn]; rewrite ?product_cons.
    + change (product []) with 1%N.
      assert (1 <= product sizes)%N by (specialize (IH 0); exact IH). nia.
    + specialize (IH k). nia.
Qed.

End DoubleFacts.

(** ** The words of the specification and the scan *)

Section WordsFacts.

(** Where no group is nested or empty, the groups of the specification are
    the blocks of the expression. *)
Lemma scan_words (s : string) (cur : option string) :
  Spec.nested_from (match cur with Some _ => true | None => false end) s = false ->
  Forall (fun body => body <> EmptyString) (Spec.scan cur s) ->
  scan_groups cur s = Spec.scan cur s.
Proof.
  revert cur. induction s as [|c s IH]; intros cur Hn Hne; [reflexivity|].
  cbn [Spec.nested_from Spec.scan scan_groups] in *.
  destruct (Ascii.eqb_spec c "{") as [->|Hopen].
  - destruct cur as [body|]; [discriminate|].
    cbn [orb] in Hn. cbn. now apply (IH (Some EmptyString)).
  - destruct (Ascii.eqb_spec c "}") as [->|Hclose].
    + destruct cur as [body|].
      * inversion Hne as [|? ? Hb Hrest]; subst.
        destruct body as [|b body]; [congruence|].
        f_equal. now apply (IH None).
      * now apply (IH None).
    + destruct cur as [body|]; cbn [option_map] in *.
      * now apply (IH (Some (body ++ String c EmptyString)%string)).
      * now apply (IH None).
Qed.

(** The expression finds a block only where the specification has a
    group. *)
Lemma scan_none (s : string) (cur cur' : option string) :
  (cur = None <-> cur' = None) ->
  Spec.scan cur' s = [] -> scan_groups cur s = [].
Proof.
  revert cur cur'. induction s as [|c s IH]; intros cur cur' Hc H; [reflexivity|].
  cbn [Spec.scan scan_groups] in *.
  destruct cur as [body|], cur' as [body'|];
    try (exfalso; destruct Hc as [H1 H2]; (now discriminate (H1 eq_refl)) || (now discriminate (H2 eq_refl))).
  - destruct (Ascii.eqb_spec c "{") as [->|Hopen].
    + cbn. apply (IH _ (Some EmptyString)); [split; discriminate | exact H].
    + destruct (Ascii.eqb_spec c "}") as [->|Hclose]; [discriminate|].
      cbn [option_map] in H.
      apply (IH _ (Some (body' ++ String c EmptyString)%string)); [split; discriminate | exact H].
  - destruct (Ascii.eqb c "{").
    + apply (IH _ (Some EmptyString)); [split; discriminate | exact H].
    + destruct (Ascii.eqb c "}"); apply (IH _ None); tauto || exact H.
Qed.

End WordsFacts.

(** C7, as the code has it.  For a template in which no bracket group is
    nested or empty and in which the product of the sizes of every initial
    run of groups is at most 2^53, [calculatePermutationCount] is the product
    over the bracket groups of the number of comma-separated options that
    are not blank; it is 1 for a template without groups, and 6 for the
    template [{a,b,c} with {x,y}].  On every template it is the product that
    the doubles give, from the left, over the blocks that the expression
    [/\{[^}]+\}/g] finds. *)
Theorem calculatePermutationCount_is_product :
  (forall template,
     Spec.nested template = false ->
     Forall (fun body => body <> EmptyString) (Spec.groups template) ->
     (forall k, (product (firstn k (Spec.sizes template)) <= 2 ^ 53)%N) ->
     calculatePermutationCount template = Double.Finite (Spec.expansion_count template))
  /\ (forall template,
        Spec.groups template = [] -> calculatePermutationCount template = 1)
  /\ calculatePermutationCount "{a,b,c} with {x,y}" = 6
  /\ (forall template,
        calculatePermutationCount template
        = multiply_from 1 (map group_size (bracket_groups template))).
Proof.
  split; [|split; [|split]].
  - intros template Hn Hne Hk. rewrite calculatePermutationCount_spec.
    unfold bracket_groups. rewrite (scan_words template None Hn Hne).
    replace (map group_size (Spec.scan None template)) with (Spec.sizes template)
      by (unfold Spec.sizes, Spec.groups; apply map_ext; exact spec_group_size_scan).
    change (Double.of_nat 1) with (Double.Finite 1).
    rewrite multiply_from_exact.
    + unfold Spec.expansion_count. f_equal. lia.
    + intro k. specialize (Hk k). lia.
  - intros template E. rewrite calculatePermutationCount_spec.
    unfold bracket_groups. rewrite (scan_none template None None); [reflexivity | tauto | exact E].
  - reflexivity.
  - exact calculatePermutationCount_spec.
Qed.

Lemma calculatePermutationCount_is_product_witness :
  calculatePermutationCount "{mountain, ocean} with {sunrise, sunset, noon}"
  = Double.Finite 6.
Proof.
  apply (proj1 calculatePermutationCount_is_product
           "{mountain, ocean} with {sunrise, sunset, noon}").
  - reflexivity.
  - unfold Spec.groups. cbn. repeat (apply Forall_cons; [discriminate|]). apply Forall_nil.
  - intros [|[|[|k]]]; vm_compute; discriminate.
Defined.

(** C7, as stated, fails in three ways.  A pair of braces with nothing
    between is a group without options, and the product over the groups is
    0, but the code passes it over.  In a nested group the code takes the
    text from the outer opening brace to the first closing brace.  And the
    code multiplies doubles: for 34 groups of three options it returns
    16677181699666568, while 3^34 is 16677181699666569. *)
Lemma calculatePermutationCount_is_not_the_product :
  (Spec.expansion_count "{} and {a,b,c}" = 0%N
   /\ calculatePermutationCount "{} and {a,b,c}" = 3)
  /\ (Spec.expansion_count "{a,{b,c},d}" = 2%N
      /\ calculatePermutationCount "{a,{b,c},d}" = 3)
  /\ (Spec.expansion_count (groups_of_three 34) = 16677181699666569%N
      /\ calculatePermutationCount (groups_of_three 34)
         = Double.Finite 16677181699666568).
Proof.
  split; [split | split; [split | split]]; vm_compute; reflexivity.
Qed.

(** ** The syntax check *)

Section SyntaxFacts.

Lemma match_g_or_empty (r : regex) (s : string) :
  match match_g r s with Some l => l | None => [] end = match_all_from r 0 s.
Proof. unfold match_g. destruct (match_all_from r 0 s); reflexivity. Qed.

(** Counting the matches of a one-character expression counts the
    character. *)
Lemma match_all_char (c : ascii) (s : string) :
  List.length (match_all_from [Chr (Ascii.eqb c)] 0 s) = count_char c s.
Proof.
  induction s as [|d s IH]; [reflexivity|].
  cbn [match_all_from count_char]. rewrite match_here_chr, (Ascii.eqb_sym c d).
  destruct (Ascii.eqb d c); simpl; now rewrite IH.
Qed.

Lemma prefix_comma (c : ascii) (s : string) :
  prefix "," (String c s) = Ascii.eqb c ",".
Proof.
  cbn [prefix]. destruct (ascii_dec "," c) as [<-|N].
  - now destruct s.
  - symmetry. apply Ascii.eqb_neq. congruence.
Qed.

Lemma space_not_comma (c : ascii) : is_space c = true -> Ascii.eqb c "," = false.
Proof.
  intro E. destruct (Ascii.eqb_spec c ","); [subst; discriminate | reflexivity].
Qed.

Lemma includes_comma_trimStart (s : string) :
  includes "," (trimStart s) = includes "," s.
Proof.
  induction s as [|c s IH]; [reflexivity|].
  cbn [trimStart]. destruct (is_space c) eqn:E; [|reflexivity].
  rewrite IH. cbn [includes]. now rewrite prefix_comma, space_not_comma.
Qed.

Lemma includes_comma_trimEnd (s : string) :
  includes "," (trimEnd s) = includes "," s.
Proof.
  induction s as [|c s IH]; [reflexivity|].
  cbn [trimEnd includes]. rewrite <- IH, prefix_comma.
  destruct (trimEnd s) as [|d t].
  - destruct (is_space c) eqn:E.
    + now rewrite space_not_comma.
    + cbn [includes]. now rewrite prefix_comma.
  - cbn [includes]. now rewrite prefix_comma.
Qed.

Lemma includes_comma_trim (s : string) : includes "," (trim s) = includes "," s.
Proof. unfold trim. now rewrite includes_comma_trimEnd, includes_comma_trimStart. Qed.

Lemma blank_no_options (s : string) : blank s = true -> count_options false s = 0.
Proof.
  induction s as [|c s IH]; [reflexivity|].
  cbn [blank count_options]. intro B. apply andb_prop in B as [Hc Hs].
  rewrite (space_not_comma c Hc), Hc. exact (IH Hs).
Qed.

Lemma forallb_map_eq {A B : Type} (f : B -> bool) (g : A -> bool) (h : A -> B) :
  (forall a, f (h a) = g a) -> forall l, forallb f (map h l) = forallb g l.
Proof.
  intros E l. induction l as [|a l IH]; simpl; [reflexivity | now rewrite E, IH].
Qed.

(** What the code asks of a block, on the body of the group. *)
Lemma block_check (body : string) :
  (let content := trim (slice_1_m1 (in_braces body)) in
   negb ((String.length content =? 0) || negb (includes "," content)))
  = negb (blank body) && includes "," body.
Proof.
  cbv zeta. rewrite slice_block, includes_comma_trim.
  pose proof (trim_kept body) as K.
  destruct (String.length (trim body)); cbn in K |- *; rewrite <- K;
    [reflexivity | now rewrite negb_involutive].
Qed.

(** The syntax check in terms of the scanner: the braces balance, and every
    group has a visible character and a comma. *)
Lemma hasValidPermutationSyntax_spec (s : string) :
  hasValidPermutationSyntax s
  = (count_char "{" s =? count_char "}" s)
    && forallb (fun body => negb (blank body) && includes "," body)
               (bracket_groups s).
Proof.
  unfold hasValidPermutationSyntax.
  rewrite !match_g_or_empty. unfold open_re, close_re. rewrite !match_all_char.
  destruct (count_char "{" s =? count_char "}" s); [|reflexivity].
  cbn [negb andb]. rewrite match_g_block.
  destruct (bracket_groups s) as [|g gs]; [reflexivity|].
  apply forallb_map_eq. exact block_check.
Qed.

End SyntaxFacts.

(** C8, as the code has it. A template whose brace counts balance and whose
    every bracket group holds an option that is not blank and a comma passes
    the syntax check; a group of one option without a comma, as in [{a}],
    fails it. *)
Theorem hasValidPermutationSyntax_needs_comma :
  (forall template,
     balanced template ->
     Forall (fun body => 1 <= group_size body /\ includes "," body = true)
            (bracket_groups template) ->
     hasValidPermutationSyntax template = true)
  /\ hasValidPermutationSyntax "{a}" = false.
Proof.
  split; [|reflexivity].
  intros template Hbal Hgroups. rewrite hasValidPermutationSyntax_spec.
  unfold balanced in Hbal. rewrite Hbal, Nat.eqb_refl. cbn [andb].
  apply forallb_forall. intros body Hin.
  rewrite Forall_forall in Hgroups. destruct (Hgroups body Hin) as [Hsize Hcomma].
  rewrite Hcomma, andb_true_r.
  destruct (blank body) eqn:B; [|reflexivity].
  unfold group_size in Hsize. rewrite (blank_no_options body B) in Hsize. lia.
Qed.

Lemma hasValidPermutationSyntax_needs_comma_witness :
  balanced "{mountain, ocean} at {dawn, dusk}"
  /\ Forall (fun body => 1 <= group_size body /\ includes "," body = true)
            (bracket_groups "{mountain, ocean} at {dawn, dusk}")
  /\ hasValidPermutationSyntax "{mountain, ocean} at {dawn, dusk}" = true.
Proof.
  assert (Hb : balanced "{mountain, ocean} at {dawn, dusk}") by reflexivity.
  assert (Hg : Forall (fun body => 1 <= group_size body /\ includes "," body = true)
                      (bracket_groups "{mountain, ocean} at {dawn, dusk}"))
    by (repeat constructor).
  split; [exact Hb|]. split; [exact Hg|].
  exact (proj1 hasValidPermutationSyntax_needs_comma _ Hb Hg).
Defined.

(** C8, as stated, fails: the braces of [{a}] balance and its only group
    holds the option [a], yet the syntax check rejects it. *)
Lemma single_option_group_rejected :
  balanced "{a}"
  /\ Forall (fun body => 1 <= group_size body) (bracket_groups "{a}")
  /\ hasValidPermutationSyntax "{a}" = false.
Proof.
  split; [reflexivity|]. split; [|reflexivity].
  repeat constructor.
Qed.

(** ** The style-code marker *)

Section MarkerFacts.

(** A greedy [+] takes a whole run when the input behind the run does not
    go on with the class and the rest of the expression matches there. *)
Lemma plus_tail_run (p : ascii -> bool) (k : string -> option outcome)
    (run rest : string) (o : outcome) :
  (forall c, In c (list_ascii_of_string run) -> p c = true) ->
  match rest with String c _ => p c = false | EmptyString => True end ->
  k rest = Some o ->
  plus_tail p k (run ++ rest) = Some (run, o).
Proof.
  intros Hrun Hrest Hk. induction run as [|c run IH].
  - cbn [String.append]. destruct rest as [|d rest]; cbn [plus_tail].
    + now rewrite Hk.
    + now rewrite Hrest, Hk.
  - cbn [String.append plus_tail].
    rewrite (Hrun c (or_introl eq_refl)), IH; [reflexivity|].
    intros d Hd. apply Hrun. now right.
Qed.

Lemma blank_chars (s : string) :
  blank s = true -> forall c, In c (list_ascii_of_string s) -> is_space c = true.
Proof.
  induction s as [|d s IH]; cbn; [tauto|].
  intros B c [<-|Hin]; apply andb_prop in B as [Hd Hs]; [exact Hd | now apply IH].
Qed.

Lemma digits_chars (s : string) :
  digits s = true -> forall c, In c (list_ascii_of_string s) -> is_digit c = true.
Proof.
  induction s as [|d s IH]; cbn; [tauto|].
  intros B c [<-|Hin]; apply andb_prop in B as [Hd Hs]; [exact Hd | now apply IH].
Qed.

Lemma digit_not_space (c : ascii) : is_digit c = true -> is_space c = false.
Proof.
  unfold is_digit, is_space. intro D.
  apply andb_prop in D as [D1 D2]. apply Nat.leb_le in D1, D2.
  destruct (Nat.leb_spec 9 (nat_of_ascii c)), (Nat.leb_spec (nat_of_ascii c) 13),
    (Nat.eqb_spec (nat_of_ascii c) 32), (Nat.eqb_spec (nat_of_ascii c) 160);
    cbn; try reflexivity; lia.
Qed.

Lemma match_here_plus (p : ascii -> bool) (r : regex) (c : ascii) (s : string) :
  match_here (Plus p :: r) (String c s)
  = if p c then
      match plus_tail p (match_here r) s with
      | Some (m, (segs, rest)) => Some (String c m :: segs, rest)
      | None => None
      end
    else None.
Proof. reflexivity. Qed.

(** White space and then digits up to the end of the input. *)
Lemma match_here_space_digits (c d : ascii) (ws code : string) :
  is_space c = true -> blank ws = true ->
  is_digit d = true -> digits code = true ->
  match_here [Plus is_space; Plus is_digit] (String c ws ++ String d code)
  = Some ([String c ws; String d code], EmptyString).
Proof.
  intros Hc Hws Hd Hcode.
  assert (Hk : match_here [Plus is_digit] (String d code)
               = Some ([String d code], EmptyString)).
  { rewrite match_here_plus, Hd.
    rewrite <- (append_nil_r code) at 1.
    rewrite (plus_tail_run is_digit _ code EmptyString ([], EmptyString));
      [reflexivity | now apply digits_chars | exact I | reflexivity]. }
  cbn [String.append]. rewrite match_here_plus, Hc.
  rewrite (plus_tail_run is_space _ ws (String d code) _ (blank_chars ws Hws)
             (digit_not_space d Hd) Hk).
  reflexivity.
Qed.

Lemma match_here_lit (l : string) (r : regex) (s : string) (o : outcome) :
  match_here (lit l ++ r) s = Some o -> prefix l s = true.
Proof.
  revert s o. induction l as [|a l IH]; intros s o; [intros _; now destruct s|].
  destruct s as [|c s]; cbn [lit app match_here prefix]; [discriminate|].
  destruct (Ascii.eqb_spec a c) as [->|N].
  - destruct (match_here (lit l ++ r) s) as [[segs rest]|] eqn:E; [|discriminate].
    intros _. destruct (ascii_dec c c); [now apply (IH s (segs, rest)) | congruence].
  - discriminate.
Qed.

Lemma match_here_lit_append (l : string) (r : regex) (s : string) :
  match_here (lit l ++ r) (l ++ s)
  = match match_here r s with
    | Some (segs, rest) =>
        Some (map (fun c => String c EmptyString) (list_ascii_of_string l) ++ segs, rest)
    | None => None
    end.
Proof.
  induction l as [|a l IH].
  - cbn. destruct (match_here r s) as [[segs rest]|]; reflexivity.
  - cbn [lit app String.append match_here list_ascii_of_string map].
    rewrite Ascii.eqb_refl, IH.
    destruct (match_here r s) as [[segs rest]|]; reflexivity.
Qed.

Lemma exec_here (r : regex) (s : string) (segs : list string) (rest : string) :
  match_here r s = Some (segs, rest) -> exec r s = Some segs.
Proof. intro E. destruct s; cbn [exec]; now rewrite E. Qed.

(** A marker cannot start in a text without [--sref] and run into a marker
    that follows the text. *)
Lemma marker_not_astride (t x : string) :
  t <> EmptyString ->
  prefix "--sref" t = false ->
  prefix "--sref" (t ++ "--sref" ++ x) = false.
Proof.
  intros Hne Hpre.
  destruct t as [|a1 [|a2 [|a3 [|a4 [|a5 [|a6 t]]]]]]; [congruence| | | | | |];
    cbn [String.append prefix] in Hpre |- *;
    repeat match goal with
           | |- context [ascii_dec ?a ?b] =>
               destruct (ascii_dec a b) as [<-|?]; try reflexivity; try discriminate
           | H : context [ascii_dec ?a ?b] |- _ =>
               destruct (ascii_dec a b) as [<-|?]; try reflexivity; try discriminate;
               try congruence
           end.
  all: try (destruct t; cbn in Hpre |- *; congruence).
Qed.

Lemma exec_skips_text (r : regex) (pre x : string) :
  includes "--sref" pre = false ->
  exec (lit "--sref" ++ r) (pre ++ "--sref" ++ x)
  = exec (lit "--sref" ++ r) ("--sref" ++ x).
Proof.
  induction pre as [|c pre IH]; intro Hinc; [reflexivity|].
  cbn [includes] in Hinc. apply orb_false_elim in Hinc as [Hpre Hrest].
  change ((String c pre ++ "--sref" ++ x)%string)
    with (String c (pre ++ "--sref" ++ x)%string).
  cbn [exec].
  destruct (match_here (lit "--sref" ++ r) (String c (pre ++ "--sref" ++ x)))
    as [[segs rest]|] eqn:E.
  - apply match_here_lit in E.
    change (String c (pre ++ "--sref" ++ x)%string)
      with ((String c pre ++ "--sref" ++ x)%string) in E.
    rewrite marker_not_astride in E; [discriminate | discriminate | exact Hpre].
  - now apply IH.
Qed.

(** A prompt that ends in [--sref], white space and a code of digits, and
    has no [--sref] before that, yields that code. *)
Lemma extractSrefCode_trailing (pre ws code : string) :
  includes "--sref" pre = false ->
  ws <> EmptyString -> blank ws = true ->
  code <> EmptyString -> digits code = true ->
  extractSrefCode (pre ++ "--sref" ++ ws ++ code) = Some code.
Proof.
  intros Hpre Hws Hblank Hcode Hdigits.
  destruct ws as [|c ws]; [congruence|]. destruct code as [|d code]; [congruence|].
  cbn [blank digits] in Hblank, Hdigits.
  apply andb_prop in Hblank as [Hc Hblank]. apply andb_prop in Hdigits as [Hd Hdigits].
  unfold extractSrefCode, sref_re. rewrite exec_skips_text by exact Hpre.
  pose proof (match_here_space_digits c d ws code Hc Hblank Hd Hdigits) as Hm.
  erewrite exec_here; [|rewrite match_here_lit_append, Hm; reflexivity].
  reflexivity.
Qed.

End MarkerFacts.

(** ** The batch validator *)

Section BatchFacts.

Lemma push_if_false (x : string) (xs : list string) : push_if false x xs = xs.
Proof. reflexivity. Qed.

Lemma hasSrefCode_extract (prompt : string) (code : string) :
  extractSrefCode prompt = Some code -> hasSrefCode prompt = true.
Proof.
  unfold extractSrefCode, hasSrefCode, test.
  destruct (exec sref_re prompt); [reflexivity | discriminate].
Qed.

Lemma priority_known (p : string) :
  In p ["high"; "medium"; "low"] -> array_includes p ["high"; "medium"; "low"] = true.
Proof.
  intro H. unfold array_includes. apply existsb_exists. exists p.
  split; [exact H | apply String.eqb_refl].
Qed.

(** A result is valid exactly when it carries no error. *)
Lemma no_errors_iff (es : list string) : (List.length es =? 0) = true <-> es = [].
Proof.
  destruct es; simpl; split; intro E; try reflexivity; discriminate.
Qed.

End BatchFacts.

(** C6, as the code has it. A batch whose template expands to 40 images and
    passes the syntax check, whose [--sref] marker carries exactly the
    expected code, and whose priority is one of high, medium and low, gets
    an empty list of errors. *)
Theorem validateBatch_no_errors (batch : PermutationBatch) (code : string) :
  calculatePermutationCount batch.(prompt) = 40 ->
  hasValidPermutationSyntax batch.(prompt) = true ->
  extractSrefCode batch.(prompt) = Some code ->
  In batch.(priority) ["high"; "medium"; "low"] ->
  (validateBatch batch (Some code)).(errors) = [].
Proof.
  intros Hcount Hsyntax Hcode Hprio.
  cbn [validateBatch validation errors]. unfold batch_errors.
  rewrite Hcount, Hsyntax, (hasSrefCode_extract _ _ Hcode), Hcode.
  rewrite (priority_known _ Hprio), String.eqb_refl.
  cbn [Nat.eqb negb andb]. rewrite !push_if_false.
  destruct (0 <? String.length code); reflexivity.
Qed.

Lemma validateBatch_no_errors_witness :
  calculatePermutationCount good_batch.(prompt) = 40
  /\ hasValidPermutationSyntax good_batch.(prompt) = true
  /\ extractSrefCode good_batch.(prompt) = Some "1234567890"
  /\ In good_batch.(priority) ["high"; "medium"; "low"]
  /\ (validateBatch good_batch (Some "1234567890")).(errors) = [].
Proof.
  assert (H1 : calculatePermutationCount good_batch.(prompt) = 40) by reflexivity.
  assert (H2 : hasValidPermutationSyntax good_batch.(prompt) = true) by reflexivity.
  assert (H3 : extractSrefCode good_batch.(prompt) = Some "1234567890") by reflexivity.
  assert (H4 : In good_batch.(priority) ["high"; "medium"; "low"]) by (left; reflexivity).
  split; [exact H1|]. split; [exact H2|]. split; [exact H3|]. split; [exact H4|].
  exact (validateBatch_no_errors good_batch "1234567890" H1 H2 H3 H4).
Defined.

(** C6, as stated, fails: a batch expands to 40 images, ends in the marker
    with the expected code and has the priority high, and still gets an error,
    because a brace is left open. *)
Lemma unbalanced_batch_has_error :
  calculatePermutationCount unbalanced_batch.(prompt) = 40
  /\ extractSrefCode unbalanced_batch.(prompt) = Some "1234567890"
  /\ In unbalanced_batch.(priority) ["high"; "medium"; "low"]
  /\ (validateBatch unbalanced_batch (Some "1234567890")).(errors)
     = ["Invalid permutation syntax"].
Proof.
  repeat split; try reflexivity. left; reflexivity.
Qed.

(** ** The specification validator *)

Section SpecificationFacts.

Context {number : Type} `{Number number}.

Lemma percentages_throw (values : list (value number)) (n : number) :
  In (Num n) values ->
  percentages values = Throw (TypeError "p.replace is not a function").
Proof.
  induction values as [|p rest IH]; intros Hin; [contradiction|].
  cbn [percentages]. destruct p as [m|s]; [reflexivity|].
  destruct Hin as [E|Hin]; [discriminate|].
  cbn [percentage]. now rewrite (IH Hin).
Qed.

Lemma percentages_return (values : list (value number)) :
  Forall (fun p => exists s, p = Str s) values ->
  exists ps, percentages values = Return ps.
Proof.
  induction 1 as [|p rest [s ->] _ [ps IH]]; [now exists []|].
  cbn [percentages percentage]. rewrite IH. now eexists.
Qed.

(** A number among the values of the distribution makes the validator
    throw. *)
Lemma validate_throws_on_number (spec : DatasetSpecification number)
    (category : string) (n : number) :
  In (category, Num n)
     spec.(training_recommendations).(optimal_subject_distribution) ->
  validateDatasetSpecification spec = Throw (TypeError "p.replace is not a function").
Proof.
  intro Hin. unfold validateDatasetSpecification.
  rewrite (percentages_throw _ n); [|exact (in_map snd _ _ Hin)].
  destruct (fold_left _ _ _) as [es ws]. reflexivity.
Qed.

(** On a distribution of strings (an empty one too) the validator returns a
    result. *)
Lemma validate_returns_on_strings (spec : DatasetSpecification number) :
  Forall (fun entry => exists s, snd entry = Str s)
         spec.(training_recommendations).(optimal_subject_distribution) ->
  exists r, validateDatasetSpecification spec = Return r.
Proof.
  intro Hall. unfold validateDatasetSpecification.
  destruct (percentages_return
              (map snd spec.(training_recommendations).(optimal_subject_distribution)))
    as [ps ->].
  - apply Forall_map. exact Hall.
  - destruct (fold_left _ _ _) as [es ws]. now eexists.
Qed.

End SpecificationFacts.

(** C2. On a specification that conforms to the schema (eight well-formed
    batches, a distribution of 60 and 40) the specification validator does
    not return a result: it throws a [TypeError]. *)
Theorem validateDatasetSpecification_throws_on_schema_numbers
    {number : Type} `{Number number} :
  validateDatasetSpecification (numeric_spec (repeat good_batch 8) 60 40)
  = Throw (TypeError "p.replace is not a function").
Proof. eapply validate_throws_on_number. left. reflexivity. Qed.

(** C9. With a numeric distribution that sums to 100 the validator throws
    instead of returning without a distribution warning, and with one that
    sums to 80 it throws instead of returning with the warning. *)
Theorem validateDatasetSpecification_distribution_check_throws
    {number : Type} `{Number number} (batches : list PermutationBatch) :
  validateDatasetSpecification (numeric_spec batches 50 50)
  = Throw (TypeError "p.replace is not a function")
  /\ validateDatasetSpecification (numeric_spec batches 50 30)
     = Throw (TypeError "p.replace is not a function").
Proof. split; eapply validate_throws_on_number; left; reflexivity. Qed.

(** C10. The [isValid] of [validateBatch] is true exactly when its list of
    errors is empty, and so is the [isValid] of every result that
    [validateDatasetSpecification] returns; the warnings play no part. *)
Theorem isValid_iff_no_errors :
  (forall batch expectedSrefCode,
     (validateBatch batch expectedSrefCode).(isValid) = true
     <-> (validateBatch batch expectedSrefCode).(errors) = [])
  /\ (forall (number : Type) (ops : Number number) (spec : DatasetSpecification number),
        match validateDatasetSpecification spec with
        | Return r => r.(isValid) = true <-> r.(errors) = []
        | Throw _ => True
        end).
Proof.
  split.
  - intros batch expected. apply no_errors_iff.
  - intros number ops spec. unfold validateDatasetSpecification.
    destruct (fold_left _ _ _) as [es ws].
    destruct (percentages _); [apply no_errors_iff | exact I].
Qed.

(** ** The analysis command *)

Import Backend.

Section CommandFacts.

Variable f32 : Type.
Variable f32_to_string : f32 -> string.
Variable w : World f32.

Lemma offline_calls_app (l1 l2 : list event) :
  offline_calls (l1 ++ l2) = offline_calls l1 + offline_calls l2.
Proof. unfold offline_calls. now rewrite filter_app, length_app. Qed.

(** Reading and encoding the images never reaches the offline analyzer. *)
Lemma encode_images_offline_calls (image_paths : list string) :
  offline_calls (fst (encode_images w image_paths)) = 0.
Proof.
  induction image_paths as [|path rest IH]; [reflexivity|].
  cbn [encode_images]. unfold encode_image, bind, emit, or_fail, ret, fail.
  destruct (read_and_encode_image w path); [|reflexivity].
  destruct (get_mime_type w path); [|reflexivity].
  destruct (encode_images w rest) as [log [xs|e]]; cbn in IH |- *;
    rewrite ?app_nil_r; exact IH.
Qed.

(** The run when the cloud is not tried at all. *)
Lemma analyze_style_offline_only (image_paths : list string) (sref_code : string) :
  use_api w = false ->
  analyze_style f32_to_string w image_paths sref_code
  = offline_mode f32_to_string w image_paths sref_code.
Proof.
  intro E. unfold analyze_style. rewrite E. unfold bind, ret.
  destruct (offline_mode f32_to_string w image_paths sref_code) as [log r].
  reflexivity.
Qed.

(** The run when the cloud is tried, the images are read and the cloud
    client fails. *)
Lemma analyze_style_cloud_failed (image_paths : list string) (sref_code e : string)
    (log : list event) (image_data : list (string * string)) :
  use_api w = true ->
  encode_images w image_paths = (log, Ok image_data) ->
  claude_analyze_style w image_data sref_code = Err e ->
  analyze_style f32_to_string w image_paths sref_code
  = if auto_fallback (settings w) then
      (log ++ [CloudCall image_data sref_code;
               LogWarn ("API analysis failed: " ++ e ++ ". Attempting offline fallback...");
               OfflineCall image_paths sref_code (settings w)],
       match offline_analyze_style w image_paths sref_code (settings w) with
       | Ok result =>
           Ok {| data := result; mode_used := "offline"; fallback_used := true |}
       | Err e' => Err ("Offline analysis error: " ++ to_string f32_to_string e')%string
       end)
    else (log ++ [CloudCall image_data sref_code], Err ("Claude API error: " ++ e)%string).
Proof.
  intros Hapi Henc Hcloud.
  unfold analyze_style, try_cloud, offline_mode. rewrite Hapi, Henc.
  unfold bind, emit, ret, fail. rewrite Hcloud.
  destruct (auto_fallback (settings w)); [|reflexivity].
  destruct (offline_analyze_style w image_paths sref_code (settings w));
    cbn; rewrite ?Hapi, ?app_nil_r, <- ?app_assoc; reflexivity.
Qed.

End CommandFacts.

(** C4. When fallback is enabled, the cloud attempt is made and fails, and
    the offline attempt that follows succeeds, the result carries the offline
    payload with [mode_used = offline] and [fallback_used = true]. *)
Theorem fallback_to_offline_succeeds {f32 : Type} (f32_to_string : f32 -> string)
    (w : World f32) (image_paths : list string) (sref_code : string)
    (log : list event) (image_data : list (string * string)) (e result : string) :
  auto_fallback (settings w) = true ->
  use_api w = true ->
  encode_images w image_paths = (log, Ok image_data) ->
  claude_analyze_style w image_data sref_code = Err e ->
  offline_analyze_style w image_paths sref_code (settings w) = Ok result ->
  snd (analyze_style f32_to_string w image_paths sref_code)
  = Ok {| data := result; mode_used := "offline"; fallback_used := true |}.
Proof.
  intros Hfb Hapi Henc Hcloud Hoff.
  rewrite (analyze_style_cloud_failed f32 f32_to_string w _ _ _ _ _ Hapi Henc Hcloud).
  rewrite Hfb, Hoff. reflexivity.
Qed.

Lemma fallback_to_offline_succeeds_witness :
  snd (analyze_style (fun s => s) (cloud_fails_offline_ready true) three_images "1234567890")
  = Ok {| data := "{}"; mode_used := "offline"; fallback_used := true |}.
Proof.
  eapply (fallback_to_offline_succeeds (fun s => s) (cloud_fails_offline_ready true)
            three_images "1234567890");
    reflexivity.
Defined.

(** C5. When fallback is disabled and the cloud attempt fails, the command
    fails with the error of the cloud client (behind the prefix
    [Claude API error: ]), and the offline analyzer is not called. *)
Theorem cloud_failure_without_fallback {f32 : Type} (f32_to_string : f32 -> string)
    (w : World f32) (image_paths : list string) (sref_code : string)
    (log : list event) (image_data : list (string * string)) (e : string) :
  auto_fallback (settings w) = false ->
  use_api w = true ->
  encode_images w image_paths = (log, Ok image_data) ->
  claude_analyze_style w image_data sref_code = Err e ->
  snd (analyze_style f32_to_string w image_paths sref_code)
    = Err ("Claude API error: " ++ e)%string
  /\ offline_calls (fst (analyze_style f32_to_string w image_paths sref_code)) = 0.
Proof.
  intros Hfb Hapi Henc Hcloud.
  rewrite (analyze_style_cloud_failed f32 f32_to_string w _ _ _ _ _ Hapi Henc Hcloud).
  rewrite Hfb. split; [reflexivity|].
  cbn [fst]. rewrite offline_calls_app.
  pose proof (encode_images_offline_calls f32 w image_paths) as Hzero.
  rewrite Henc in Hzero. cbn [fst] in Hzero. rewrite Hzero. reflexivity.
Qed.

Lemma cloud_failure_without_fallback_witness :
  snd (analyze_style (fun s => s) (cloud_fails_offline_ready false) three_images "1234567890")
    = Err "Claude API error: connection timed out"
  /\ offline_calls
       (fst (analyze_style (fun s => s) (cloud_fails_offline_ready false)
               three_images "1234567890")) = 0.
Proof.
  eapply (cloud_failure_without_fallback (fun s => s) (cloud_fails_offline_ready false)
            three_images "1234567890");
    reflexivity.
Defined.

(** C1, as the code has it. When the cloud attempt fails and the offline
    attempt that follows fails too, the error that the command returns is the
    offline error behind the prefix [Offline analysis error: ]; the cloud
    error goes to the warning log only. *)
Theorem fallback_failure_reports_offline_error {f32 : Type}
    (f32_to_string : f32 -> string)
    (w : World f32) (image_paths : list string) (sref_code : string)
    (log : list event) (image_data : list (string * string))
    (remote_cause : string) (local_cause : OfflineAnalysisError f32) :
  auto_fallback (settings w) = true ->
  use_api w = true ->
  encode_images w image_paths = (log, Ok image_data) ->
  claude_analyze_style w image_data sref_code = Err remote_cause ->
  offline_analyze_style w image_paths sref_code (settings w) = Err local_cause ->
  snd (analyze_style f32_to_string w image_paths sref_code)
    = Err ("Offline analysis error: " ++ to_string f32_to_string local_cause)%string
  /\ In (LogWarn ("API analysis failed: " ++ remote_cause
                    ++ ". Attempting offline fallback..."))
        (fst (analyze_style f32_to_string w image_paths sref_code)).
Proof.
  intros Hfb Hapi Henc Hcloud Hoff.
  rewrite (analyze_style_cloud_failed f32 f32_to_string w _ _ _ _ _ Hapi Henc Hcloud).
  rewrite Hfb, Hoff. split; [reflexivity|].
  cbn [fst]. apply in_or_app. right. right. left. reflexivity.
Qed.

Lemma fallback_failure_reports_offline_error_witness :
  snd (analyze_style (fun s => s) both_fail three_images "1234567890")
    = Err "Offline analysis error: Model not found. Please download the model first."
  /\ In (LogWarn "API analysis failed: rate limit exceeded. Attempting offline fallback...")
        (fst (analyze_style (fun s => s) both_fail three_images "1234567890")).
Proof.
  eapply (fallback_failure_reports_offline_error (fun s => s) both_fail
            three_images "1234567890" _ _ "rate limit exceeded" ModelNotFound);
    reflexivity.
Defined.

(** C1, as stated, fails: the cloud client fails with a rate limit, the
    offline analyzer fails because the model is missing, and the error that
    the command returns does not contain the cloud error. *)
Lemma fallback_failure_drops_cloud_error :
  use_api both_fail = true
  /\ auto_fallback (settings both_fail) = true
  /\ claude_analyze_style both_fail
       [("aGVsbG8=", "image/png"); ("aGVsbG8=", "image/png"); ("aGVsbG8=", "image/png")]
       "1234567890" = Err "rate limit exceeded"
  /\ offline_analyze_style both_fail three_images "1234567890" (settings both_fail)
     = Err ModelNotFound
  /\ exists error,
       snd (analyze_style (fun s => s) both_fail three_images "1234567890") = Err error
       /\ wraps error (to_string (fun s => s) (@ModelNotFound string)) = true
       /\ wraps error "rate limit exceeded" = false.
Proof.
  repeat (split; [reflexivity|]).
  eexists. repeat split; reflexivity.
Qed.

(** In cloud mode without a key the command goes to the offline analyzer,
    whatever the fallback setting. *)
Lemma missing_key_goes_offline {f32 : Type} (f32_to_string : f32 -> string)
    (w : World f32) (image_paths : list string) (sref_code : string) :
  analysis_mode (settings w) = CloudAPI ->
  var_is_ok w "CLAUDE_API_KEY" = false ->
  var_is_ok w "ANTHROPIC_API_KEY" = false ->
  analyze_style f32_to_string w image_paths sref_code
  = offline_mode f32_to_string w image_paths sref_code
  /\ offline_calls (fst (analyze_style f32_to_string w image_paths sref_code)) = 1.
Proof.
  intros Hmode Hk1 Hk2.
  assert (Hapi : use_api w = false) by (unfold use_api; now rewrite Hmode, Hk1, Hk2).
  rewrite (analyze_style_offline_only f32 f32_to_string w _ _ Hapi).
  split; [reflexivity|].
  unfold offline_mode, bind, emit, ret, fail.
  destruct (offline_analyze_style w image_paths sref_code (settings w)); reflexivity.
Qed.

(** C3. In cloud mode, with no API key in the environment and fallback
    disabled, the command does not fail at once: it calls the offline
    analyzer and returns its answer. *)
Theorem cloud_mode_without_key_runs_offline :
  analyze_style (fun s => s) cloud_without_key three_images "1234567890"
  = ([OfflineCall three_images "1234567890" (settings cloud_without_key)],
     Ok {| data := "{}"; mode_used := "offline"; fallback_used := false |}).
Proof. reflexivity. Qed.

(** * Further properties of the code *)

(** ** The parser *)

Section ParserMore.

Lemma scan_append_closed (a b : string) (cur : option string) :
  scan_groups cur ((a ++ "}") ++ b)
  = scan_groups cur (a ++ "}") ++ scan_groups None b.
Proof.
  revert cur. induction a as [|c a IH]; intro cur.
  - cbn [String.append scan_groups].
    destruct cur as [body|]; cbn.
    + destruct body; cbn; now rewrite ?app_nil_r.
    + reflexivity.
  - cbn [String.append scan_groups].
    destruct cur as [body|].
    + destruct (Ascii.eqb c "}"); [destruct body|]; cbn [app]; now rewrite IH.
    + destruct (Ascii.eqb c "{"); now rewrite IH.
Qed.

Lemma scan_without_open (a b : string) :
  count_char "{" a = 0 -> scan_groups None (a ++ b) = scan_groups None b.
Proof.
  induction a as [|c a IH]; [reflexivity|].
  cbn [count_char String.append scan_groups].
  destruct (Ascii.eqb c "{"); [discriminate | exact IH].
Qed.

Lemma product_zero (sizes : list nat) :
  product sizes = 0%N <-> Exists (fun n => n = 0) sizes.
Proof.
  induction sizes as [|n sizes IH].
  - split; [discriminate | intro E; inversion E].
  - rewrite product_cons, Exists_cons, <- IH. lia.
Qed.

Lemma multiply_from_app (xs ys : list nat) (start : Double.number) :
  multiply_from start (xs ++ ys) = multiply_from (multiply_from start xs) ys.
Proof. apply fold_left_app. Qed.

(** Factors above zero with a product of at most 2^53 are multiplied
    exactly. *)
Lemma multiply_exact (sizes : list nat) :
  Forall (fun n => 1 <= n) sizes -> (product sizes <= 2 ^ 53)%N ->
  multiply_from 1 sizes = Double.Finite (product sizes).
Proof.
  intros Hpos Hle. change (Double.of_nat 1) with (Double.Finite 1).
  rewrite multiply_from_exact; [f_equal; lia|].
  intro k. pose proof (product_firstn sizes k Hpos). lia.
Qed.

Lemma product_positive (sizes : list nat) :
  Forall (fun n => 1 <= n) sizes -> (1 <= product sizes)%N.
Proof. intro H. exact (product_firstn sizes 0 H). Qed.

Lemma count_append_closed (a b : string) :
  calculatePermutationCount ((a ++ "}") ++ b)
  = multiply_from (calculatePermutationCount (a ++ "}"))
                  (map group_size (bracket_groups b)).
Proof.
  rewrite !calculatePermutationCount_spec. unfold bracket_groups.
  now rewrite scan_append_closed, map_app, multiply_from_app.
Qed.

Lemma count_plain_prefix (a b : string) :
  count_char "{" a = 0 ->
  calculatePermutationCount (a ++ b) = calculatePermutationCount b.
Proof.
  intro Ha. rewrite !calculatePermutationCount_spec.
  unfold bracket_groups. now rewrite scan_without_open.
Qed.

Lemma count_plain (s : string) :
  count_char "{" s = 0 -> calculatePermutationCount s = 1.
Proof.
  intro H. rewrite <- (append_nil_r s). rewrite (count_plain_prefix _ _ H). reflexivity.
Qed.

Lemma syntax_valid_iff (template : string) :
  hasValidPermutationSyntax template = true
  <-> balanced template
      /\ Forall (fun body => blank body = false /\ includes "," body = true)
                (bracket_groups template).
Proof.
  rewrite hasValidPermutationSyntax_spec, andb_true_iff, Nat.eqb_eq, forallb_forall,
    Forall_forall.
  unfold balanced. split; intros [Hb Hg]; (split; [exact Hb|]); intros body Hin.
  - specialize (Hg body Hin). apply andb_prop in Hg as [H1 H2].
    now apply negb_true_iff in H1.
  - destruct (Hg body Hin) as [H1 H2]. now rewrite H1, H2.
Qed.

End ParserMore.

(** X1. The syntax check passes exactly when the brace counts balance and
    every bracket group has a character that is not white space and a
    comma. *)
Theorem hasValidPermutationSyntax_iff (template : string) :
  hasValidPermutationSyntax template = true
  <-> balanced template
      /\ Forall (fun body => blank body = false /\ includes "," body = true)
                (bracket_groups template).
Proof. exact (syntax_valid_iff template). Qed.

(** X2. The expansion count is 0 or [NaN] exactly when some block that the
    expression finds holds no option that is not blank; while the product of
    the sizes of every initial run of blocks is at most 2^53, it is 0 exactly
    then. *)
Theorem calculatePermutationCount_zero_iff (template : string) :
  (calculatePermutationCount template = 0
   \/ calculatePermutationCount template = Double.NaN
   <-> Exists (fun body => group_size body = 0) (bracket_groups template))
  /\ ((forall k,
         (product (firstn k (map group_size (bracket_groups template))) <= 2 ^ 53)%N) ->
      (calculatePermutationCount template = 0
       <-> Exists (fun body => group_size body = 0) (bracket_groups template))).
Proof.
  rewrite calculatePermutationCount_spec. split.
  - assert (Hp : above_zero (Double.of_nat 1)) by (split; discriminate).
    destruct (multiply_from_zero (map group_size (bracket_groups template)) _ Hp)
      as [H _].
    unfold zero_or_NaN in H. rewrite H, Exists_map. reflexivity.
  - intro Hk. change (Double.of_nat 1) with (Double.Finite 1).
    rewrite multiply_from_exact by (intro k; specialize (Hk k); lia).
    rewrite <- Exists_map with (f := group_size) (P := fun n => n = 0).
    rewrite <- product_zero. change (Double.of_nat 0) with (Double.Finite 0). split.
    + intro E. injection E as E. now destruct (product _).
    + intro E. f_equal. lia.
Qed.

Lemma calculatePermutationCount_zero_iff_witness :
  calculatePermutationCount "{a, b} and { , }" = 0
  <-> Exists (fun body => group_size body = 0) (bracket_groups "{a, b} and { , }").
Proof.
  apply (proj2 (calculatePermutationCount_zero_iff "{a, b} and { , }")).
  intros [|[|[|k]]]; vm_compute; discriminate.
Defined.

(** X3. Behind a closing brace the count goes on from where it is: the count
    of a template that is cut after a closing brace is the count of the
    first part multiplied on by the sizes of the blocks of the second part.
    When no block is without options and the product of all sizes is at most
    2^53, it is the product of the counts of the two parts. *)
Theorem calculatePermutationCount_append (a b : string) :
  calculatePermutationCount ((a ++ "}") ++ b)
  = multiply_from (calculatePermutationCount (a ++ "}"))
                  (map group_size (bracket_groups b))
  /\ (Forall (fun body => 1 <= group_size body) (bracket_groups ((a ++ "}") ++ b)) ->
      (product (map group_size (bracket_groups ((a ++ "}") ++ b))) <= 2 ^ 53)%N ->
      calculatePermutationCount ((a ++ "}") ++ b)
      = Double.mul (calculatePermutationCount (a ++ "}"))
                   (calculatePermutationCount b)).
Proof.
  split; [exact (count_append_closed a b)|].
  intros Hpos Hle. rewrite !calculatePermutationCount_spec.
  unfold bracket_groups in *. rewrite scan_append_closed in *.
  rewrite map_app in *. rewrite <- Forall_map in Hpos.
  rewrite map_app in Hpos. apply Forall_app in Hpos as [H1 H2].
  rewrite product_app in Hle.
  pose proof (product_positive _ H1). pose proof (product_positive _ H2).
  rewrite (multiply_exact (_ ++ _)); [|apply Forall_app; now split | rewrite product_app; exact Hle].
  rewrite (multiply_exact _ H1) by nia. rewrite (multiply_exact _ H2) by nia.
  rewrite mul_finite, product_app. symmetry. now apply round_exact.
Qed.

Lemma calculatePermutationCount_append_witness :
  calculatePermutationCount (("{a,b" ++ "}") ++ " with {c,d,e}")
  = Double.mul (calculatePermutationCount ("{a,b" ++ "}"))
               (calculatePermutationCount " with {c,d,e}").
Proof.
  apply (proj2 (calculatePermutationCount_append "{a,b" " with {c,d,e}")).
  - unfold bracket_groups. cbn. repeat (apply Forall_cons; [vm_compute; lia|]). apply Forall_nil.
  - vm_compute. discriminate.
Defined.

(** ** The style-code marker, read back *)

Section MarkerMore.

Lemma plus_tail_sound (p : ascii -> bool) (k : string -> option outcome)
    (s m : string) (o : outcome) :
  plus_tail p k s = Some (m, o) ->
  exists t, s = (m ++ t)%string
            /\ (forall c, In c (list_ascii_of_string m) -> p c = true)
            /\ k t = Some o.
Proof.
  revert m. induction s as [|c s IH]; intros m E; cbn [plus_tail] in E.
  - destruct (k EmptyString) as [o'|] eqn:K; [|discriminate].
    inversion E; subst. exists EmptyString. cbn. tauto.
  - assert (Hstop : option_map (pair EmptyString) (k (String c s)) = Some (m, o) ->
                    exists t, String c s = (m ++ t)%string
                              /\ (forall c, In c (list_ascii_of_string m) -> p c = true)
                              /\ k t = Some o).
    { intro E'. destruct (k (String c s)) as [o'|] eqn:K; [|discriminate].
      inversion E'; subst. exists (String c s). cbn. tauto. }
    destruct (p c) eqn:Pc; [|now apply Hstop].
    destruct (plus_tail p k s) as [[m' o']|] eqn:T; [|now apply Hstop].
    inversion E; subst. destruct (IH m' eq_refl) as (t & -> & Hall & Hk).
    exists t. cbn. repeat split; [|exact Hk].
    intros d [<-|Hd]; [exact Pc | now apply Hall].
Qed.

Lemma match_here_lit_split (l : string) (r : regex) (s : string)
    (segs : list string) (rest : string) :
  match_here (lit l ++ r) s = Some (segs, rest) ->
  exists s' segs',
    s = (l ++ s')%string
    /\ match_here r s' = Some (segs', rest)
    /\ segs = map (fun c => String c EmptyString) (list_ascii_of_string l) ++ segs'.
Proof.
  revert s segs. induction l as [|a l IH]; intros s segs E.
  - exists s, segs. cbn in *. tauto.
  - destruct s as [|c s]; cbn [lit app match_here] in E; [discriminate|].
    destruct (Ascii.eqb_spec a c) as [->|]; [|discriminate].
    destruct (match_here (lit l ++ r) s) as [[segs0 rest0]|] eqn:E0; [|discriminate].
    inversion E; subst. destruct (IH s segs0 E0) as (s' & segs' & -> & Hm & ->).
    exists s', segs'. cbn. tauto.
Qed.

Lemma exec_sound (r : regex) (s : string) (segs : list string) :
  exec r s = Some segs ->
  exists pre s' rest, s = (pre ++ s')%string /\ match_here r s' = Some (segs, rest).
Proof.
  induction s as [|c s IH]; cbn [exec]; intro E.
  - destruct (match_here r EmptyString) as [[segs' rest]|] eqn:M; [|discriminate].
    inversion E; subst. now exists EmptyString, EmptyString, rest.
  - destruct (match_here r (String c s)) as [[segs' rest]|] eqn:M.
    + inversion E; subst. now exists EmptyString, (String c s), rest.
    + destruct (IH E) as (pre & s' & rest & -> & Hm).
      now exists (String c pre), s', rest.
Qed.

Lemma chars_blank (s : string) :
  (forall c, In c (list_ascii_of_string s) -> is_space c = true) -> blank s = true.
Proof.
  induction s as [|c s IH]; cbn; [reflexivity|]. intro H.
  rewrite (H c (or_introl eq_refl)), IH; [reflexivity|]. intros d Hd. apply H. now right.
Qed.

Lemma chars_digits (s : string) :
  (forall c, In c (list_ascii_of_string s) -> is_digit c = true) -> digits s = true.
Proof.
  induction s as [|c s IH]; cbn; [reflexivity|]. intro H.
  rewrite (H c (or_introl eq_refl)), IH; [reflexivity|]. intros d Hd. apply H. now right.
Qed.

(** What a match of white space and digits looks like. *)
Lemma match_here_space_digits_sound (s : string) (segs : list string) (rest : string) :
  match_here [Plus is_space; Plus is_digit] s = Some (segs, rest) ->
  exists ws code,
    segs = [ws; code] /\ s = (ws ++ code ++ rest)%string
    /\ ws <> EmptyString /\ blank ws = true
    /\ code <> EmptyString /\ digits code = true.
Proof.
  destruct s as [|c s]; [discriminate|]. rewrite match_here_plus.
  destruct (is_space c) eqn:Hc; [|discriminate].
  destruct (plus_tail is_space (match_here [Plus is_digit]) s) as [[m [segs1 rest1]]|] eqn:T;
    [|discriminate].
  intro E. inversion E; subst. clear E.
  destruct (plus_tail_sound _ _ _ _ _ T) as (t & -> & Hm & Hk).
  destruct t as [|d t]; [discriminate|]. rewrite match_here_plus in Hk.
  destruct (is_digit d) eqn:Hd; [|discriminate].
  destruct (plus_tail is_digit (match_here []) t) as [[m2 [segs2 rest2]]|] eqn:T2;
    [|discriminate].
  inversion Hk; subst. clear Hk.
  destruct (plus_tail_sound _ _ _ _ _ T2) as (t2 & -> & Hm2 & Hk2).
  cbn in Hk2. inversion Hk2; subst.
  exists (String c m), (String d m2).
  split; [reflexivity|]. split; [reflexivity|]. split; [discriminate|].
  split; [cbn; rewrite Hc; now apply chars_blank|]. split; [discriminate|].
  cbn. rewrite Hd. now apply chars_digits.
Qed.

End MarkerMore.

(** X4. The code that [extractSrefCode] returns is a run of decimal digits,
    not empty, that stands in the prompt behind [--sref] and white space. *)
Theorem extractSrefCode_sound (prompt code : string) :
  extractSrefCode prompt = Some code ->
  code <> EmptyString /\ digits code = true
  /\ exists pre ws post,
       prompt = (pre ++ "--sref" ++ ws ++ code ++ post)%string
       /\ ws <> EmptyString /\ blank ws = true.
Proof.
  unfold extractSrefCode. destruct (exec sref_re prompt) as [segs|] eqn:E; [|discriminate].
  intro H. inversion H; subst. clear H.
  destruct (exec_sound _ _ _ E) as (pre & s' & rest & -> & Hm).
  unfold sref_re in Hm.
  destruct (match_here_lit_split _ _ _ _ _ Hm) as (s2 & segs2 & -> & Hm2 & ->).
  destruct (match_here_space_digits_sound _ _ _ Hm2)
    as (ws & code & -> & -> & Hws & Hblank & Hcode & Hdigits).
  change [ws; code] with ([ws] ++ [code]). rewrite app_assoc, last_last.
  split; [exact Hcode|]. split; [exact Hdigits|].
  exists pre, ws, rest. split; [reflexivity|]. split; assumption.
Qed.

Lemma extractSrefCode_sound_witness :
  "42" <> EmptyString /\ digits "42" = true
  /\ exists pre ws post,
       "a {cat, dog} --sref  42 --v 6" = (pre ++ "--sref" ++ ws ++ "42" ++ post)%string
       /\ ws <> EmptyString /\ blank ws = true.
Proof. apply (extractSrefCode_sound "a {cat, dog} --sref  42 --v 6" "42"). reflexivity. Defined.

(** X5. A prompt that ends in [--sref], white space and a code of digits,
    with no [--sref] before, yields exactly that code. *)
Theorem extractSrefCode_at_end (pre ws code : string) :
  includes "--sref" pre = false ->
  ws <> EmptyString -> blank ws = true ->
  code <> EmptyString -> digits code = true ->
  extractSrefCode (pre ++ "--sref" ++ ws ++ code) = Some code
  /\ hasSrefCode (pre ++ "--sref" ++ ws ++ code) = true.
Proof.
  intros H1 H2 H3 H4 H5.
  pose proof (extractSrefCode_trailing pre ws code H1 H2 H3 H4 H5) as E.
  split; [exact E | exact (hasSrefCode_extract _ _ E)].
Qed.

Lemma extractSrefCode_at_end_witness :
  extractSrefCode ("{a, b} with {c, d} " ++ "--sref" ++ " " ++ "1234567890")
    = Some "1234567890"
  /\ hasSrefCode ("{a, b} with {c, d} " ++ "--sref" ++ " " ++ "1234567890") = true.
Proof.
  apply (extractSrefCode_at_end "{a, b} with {c, d} " " " "1234567890");
    try reflexivity; discriminate.
Defined.

(** ** Validity of a batch and of a specification *)

Section ValidityFacts.

Lemma push_if_nil (cond : bool) (x : string) (xs : list string) :
  push_if cond x xs = [] <-> cond = false /\ xs = [].
Proof.
  destruct cond; cbn; [|tauto]. split; [|intros [E _]; discriminate].
  intro E. destruct xs; discriminate.
Qed.

Lemma push_if_keeps (cond : bool) (x y : string) (xs : list string) :
  In y xs -> In y (push_if cond x xs).
Proof. destruct cond; cbn; [intro; apply in_or_app; now left | tauto]. Qed.

Lemma array_includes_In (x : string) (xs : list string) :
  array_includes x xs = true <-> In x xs.
Proof.
  unfold array_includes. rewrite existsb_exists. split.
  - intros (y & Hy & E). apply String.eqb_eq in E. now subst.
  - intro H. exists x. split; [exact H | apply String.eqb_refl].
Qed.

Lemma includes_open_count (s : string) :
  includes "{" s = false -> count_char "{" s = 0.
Proof.
  induction s as [|c s IH]; [reflexivity|].
  cbn [includes count_char prefix]. intro H. apply orb_false_elim in H as [H1 H2].
  destruct (ascii_dec "{" c) as [<-|N].
  - destruct s; discriminate.
  - rewrite (IH H2). destruct (Ascii.eqb_spec c "{"); [congruence | reflexivity].
Qed.

(** Without an opening brace there is no group, and the count is 1. *)
Lemma count_without_open (s : string) :
  includes "{" s = false -> calculatePermutationCount s = 1.
Proof.
  intro H. apply count_plain. now apply includes_open_count.
Qed.

Lemma hasSrefCode_extract_some (prompt : string) :
  hasSrefCode prompt = true -> exists code, extractSrefCode prompt = Some code.
Proof.
  unfold hasSrefCode, test, extractSrefCode.
  destruct (exec sref_re prompt); [now eexists | discriminate].
Qed.

Lemma batch_errors_nil (batch : PermutationBatch) (expectedSrefCode : option string) :
  batch_errors batch expectedSrefCode = []
  <-> calculatePermutationCount batch.(prompt) = 40
      /\ hasValidPermutationSyntax batch.(prompt) = true
      /\ (hasSrefCode batch.(prompt) = true
          /\ match expectedSrefCode with
             | Some expected =>
                 expected = EmptyString \/ extractSrefCode batch.(prompt) = Some expected
             | None => True
             end)
      /\ In batch.(priority) ["high"; "medium"; "low"].
Proof.
  unfold batch_errors.
  rewrite push_if_nil, negb_false_iff, array_includes_In.
  set (prio := In (priority batch) ["high"; "medium"; "low"]).
  destruct (strict_eq_nat (calculatePermutationCount (prompt batch)) 40) as [Hc|Hc].
  2:{ cbn [negb push_if app]. split; [|tauto]. intros [_ E]. exfalso.
      destruct (negb (hasValidPermutationSyntax (prompt batch)) && includes "{" (prompt batch));
        cbn [push_if app] in E;
        destruct (negb (hasSrefCode (prompt batch)));
        try (destruct ([_] ++ [_]); discriminate); try discriminate;
        destruct expectedSrefCode as [e|]; try discriminate;
        destruct (0 <? String.length e); try discriminate;
        destruct (extractSrefCode (prompt batch)); try discriminate;
        destruct (negb (_ =? _)%string); discriminate. }
  cbn [negb]. rewrite push_if_false.
  assert (Hopen : includes "{" (prompt batch) = true).
  { destruct (includes "{" (prompt batch)) eqn:I; [reflexivity|].
    rewrite (count_without_open _ I) in Hc. discriminate. }
  rewrite Hopen, andb_true_r.
  destruct (hasValidPermutationSyntax (prompt batch)) eqn:Hs; cbn [negb push_if app].
  2:{ split; [|intros (_ & E & _); discriminate]. intros [_ E]. exfalso.
      destruct (negb (hasSrefCode (prompt batch))); try discriminate;
        destruct expectedSrefCode as [e|]; try discriminate;
        destruct (0 <? String.length e); try discriminate;
        destruct (extractSrefCode (prompt batch)); try discriminate;
        destruct (negb (_ =? _)%string); discriminate. }
  destruct (hasSrefCode (prompt batch)) eqn:Hm; cbn [negb app].
  2:{ split; [intros [_ E]; discriminate | intros (_ & _ & [E _] & _); discriminate]. }
  destruct expectedSrefCode as [e|]; [|tauto].
  destruct (hasSrefCode_extract_some _ Hm) as [found Hf]. rewrite Hf.
  destruct e as [|a e]; cbn [String.length Nat.ltb Nat.leb]; [tauto|].
  rewrite push_if_nil, negb_false_iff, String.eqb_eq.
  split.
  - intros (Hp & E & _). subst. repeat split; try assumption. now right.
  - intros (_ & _ & [_ [E|E]] & Hp); [discriminate|]. inversion E. tauto.
Qed.

Lemma nodup_length_le (l : list Z) : List.length (nodup Z.eq_dec l) <= List.length l.
Proof.
  induction l as [|a l IH]; cbn; [lia|]. destruct (in_dec Z.eq_dec a l); cbn; lia.
Qed.

(** The test on the size of the set of batch numbers. *)
Lemma nodup_length_NoDup (l : list Z) :
  List.length (nodup Z.eq_dec l) = List.length l <-> NoDup l.
Proof.
  split.
  - induction l as [|a l IH]; cbn; [constructor|].
    destruct (in_dec Z.eq_dec a l) as [Hin|Hnin]; cbn; intro E.
    + pose proof (nodup_length_le l). lia.
    + constructor; [exact Hnin | apply IH; lia].
  - intro H. now rewrite nodup_fixed_point.
Qed.

(** The errors after the loop over the batches. *)
Lemma fold_batch_errors (code : string) (batches : list PermutationBatch)
    (es ws : list string) :
  fst (fold_left (fold_batch code) batches (es, ws)) = []
  <-> es = []
      /\ Forall (fun b => (validateBatch b (Some code)).(isValid) = true) batches.
Proof.
  revert es ws. induction batches as [|b bs IH]; intros es ws; cbn [fold_left].
  - cbn. split; [intro; split; [assumption | constructor] | tauto].
  - unfold fold_batch at 2. rewrite IH, push_if_nil, negb_false_iff, Forall_cons_iff.
    tauto.
Qed.

End ValidityFacts.

(** X6. A batch is valid exactly when its template expands to 40 images,
    passes the syntax check, carries a marker (with the expected code, when a
    code that is not empty is expected) and has one of the three
    priorities. *)
Theorem validateBatch_valid_iff (batch : PermutationBatch)
    (expectedSrefCode : option string) :
  (validateBatch batch expectedSrefCode).(isValid) = true
  <-> calculatePermutationCount batch.(prompt) = 40
      /\ hasValidPermutationSyntax batch.(prompt) = true
      /\ (hasSrefCode batch.(prompt) = true
          /\ match expectedSrefCode with
             | Some expected =>
                 expected = EmptyString \/ extractSrefCode batch.(prompt) = Some expected
             | None => True
             end)
      /\ In batch.(priority) ["high"; "medium"; "low"].
Proof.
  cbn [validateBatch validation isValid]. rewrite no_errors_iff.
  apply batch_errors_nil.
Qed.

(** X7. A batch whose template has no bracket group is never valid: it is
    told that it generates 1 images. *)
Theorem validateBatch_without_groups (batch : PermutationBatch)
    (expectedSrefCode : option string) :
  bracket_groups batch.(prompt) = [] ->
  (validateBatch batch expectedSrefCode).(isValid) = false
  /\ In "Batch generates 1 images, must be exactly 40"
        (validateBatch batch expectedSrefCode).(errors).
Proof.
  intro Hg.
  assert (Hc : calculatePermutationCount batch.(prompt) = 1).
  { rewrite calculatePermutationCount_spec. now rewrite Hg. }
  assert (Hin : In "Batch generates 1 images, must be exactly 40"
                   (validateBatch batch expectedSrefCode).(errors)).
  { cbn [validateBatch validation errors]. unfold batch_errors. rewrite Hc.
    change (Double.strict_eq (Double.of_nat 1) (Double.of_nat 40)) with false.
    change (Double.to_string (Double.of_nat 1)) with "1".
    cbn [negb push_if app]. apply push_if_keeps.
    set (e2 := push_if _ "Invalid permutation syntax" _).
    assert (H2 : In "Batch generates 1 images, must be exactly 40" e2)
      by (apply push_if_keeps; now left).
    destruct (negb (hasSrefCode (prompt batch))); [apply in_or_app; now left|].
    destruct expectedSrefCode as [e|]; [|exact H2].
    destruct (0 <? String.length e); [|exact H2].
    destruct (extractSrefCode (prompt batch));
      [now apply push_if_keeps | apply in_or_app; now left]. }
  split; [|exact Hin].
  destruct (isValid (validateBatch batch expectedSrefCode)) eqn:V; [|reflexivity].
  cbn [validateBatch validation isValid] in V. apply no_errors_iff in V.
  apply batch_errors_nil in V. destruct V as [V _]. rewrite Hc in V. discriminate.
Qed.

Lemma validateBatch_without_groups_witness :
  (validateBatch
     {| batch_number := 1; batch_name := "Plain"; category := "misc"; image_count := 40;
        prompt := "a red fox in the snow --sref 1234567890"; priority := "high";
        notes := None |} (Some "1234567890")).(isValid) = false
  /\ In "Batch generates 1 images, must be exactly 40"
        (validateBatch
           {| batch_number := 1; batch_name := "Plain"; category := "misc";
              image_count := 40;
              prompt := "a red fox in the snow --sref 1234567890"; priority := "high";
              notes := None |} (Some "1234567890")).(errors).
Proof. apply validateBatch_without_groups. reflexivity. Defined.

(** X8. A result that the specification validator returns is valid exactly
    when there are at least 8 batches, no two batches share a number, and
    every batch is valid against the style code of the specification. *)
Theorem validateDatasetSpecification_valid_iff
    {number : Type} `{Number number} (spec : DatasetSpecification number) :
  match validateDatasetSpecification spec with
  | Return r =>
      r.(isValid) = true
      <-> 8 <= List.length spec.(permutation_batches)
          /\ NoDup (map batch_number spec.(permutation_batches))
          /\ Forall (fun b => (validateBatch b (Some spec.(sref_code))).(isValid) = true)
                    spec.(permutation_batches)
  | Throw _ => True
  end.
Proof.
  unfold validateDatasetSpecification.
  destruct (fold_left _ _ _) as [es ws] eqn:F.
  destruct (percentages _); [|exact I].
  cbn [isValid]. rewrite no_errors_iff.
  replace es with (fst (fold_left (fold_batch spec.(sref_code)) spec.(permutation_batches)
                          (push_if (negb (List.length
                                            (nodup Z.eq_dec
                                               (map batch_number spec.(permutation_batches)))
                                          =? List.length
                                               (map batch_number spec.(permutation_batches))))
                                   "Duplicate batch numbers found"
                                   (push_if (List.length spec.(permutation_batches) <? 8)
                                      ("Only "
                                       ++ nat_to_string (List.length spec.(permutation_batches))
                                       ++ " batches - minimum 8 required") []),
                           push_if (negb (test_start sref_code_re spec.(sref_code)))
                             "SREF code should be a 10-digit number" [])))
    by (rewrite F; reflexivity).
  rewrite fold_batch_errors, !push_if_nil, negb_false_iff, Nat.eqb_eq, nodup_length_NoDup,
    Nat.ltb_ge.
  tauto.
Qed.

(** ** The summary, the image filter and the file names *)

Section FrontendFacts.

Lemma set_values_spec (xs seen : list string) :
  NoDup (set_values seen xs)
  /\ forall x, In x (set_values seen xs) <-> In x xs /\ ~ In x seen.
Proof.
  revert seen. induction xs as [|a xs IH]; intro seen; cbn [set_values].
  - split; [constructor | cbn; tauto].
  - destruct (array_includes a seen) eqn:E.
    + apply array_includes_In in E. destruct (IH seen) as [Hnd Hin].
      split; [exact Hnd|]. intro x. rewrite Hin. cbn. split; [tauto|].
      intros [[<-|Hx] Hs]; tauto.
    + assert (Hna : ~ In a seen)
        by (intro Hin; apply array_includes_In in Hin; congruence).
      destruct (IH (a :: seen)) as [Hnd Hin]. split.
      * constructor; [|exact Hnd]. rewrite Hin. cbn. tauto.
      * intro x. cbn. rewrite Hin. cbn.
        destruct (string_dec a x) as [<-|Hax]; tauto.
Qed.

Lemma set_values_length (xs seen : list string) :
  List.length (set_values seen xs) <= List.length xs.
Proof.
  revert seen. induction xs as [|a xs IH]; intro seen; cbn; [lia|].
  destruct (array_includes a seen); cbn; [specialize (IH seen) | specialize (IH (a :: seen))];
    lia.
Qed.

Lemma filter_length_bound {A : Type} (f : A -> bool) (l : list A) :
  List.length (filter f l) <= List.length l.
Proof. induction l as [|a l IH]; cbn; [lia | destruct (f a); cbn; lia]. Qed.

Lemma toLowerCase_append (a b : string) :
  toLowerCase (a ++ b) = (toLowerCase a ++ toLowerCase b)%string.
Proof. induction a as [|c a IH]; cbn; [reflexivity | now rewrite IH]. Qed.

Lemma split_char_cons (sep : ascii) (s : string) : exists h t, split_char sep s = h :: t.
Proof.
  destruct s as [|c s]; cbn; [now eexists; eexists|].
  destruct (Ascii.eqb c sep); [now eexists; eexists|].
  destruct (split_char sep s); now eexists; eexists.
Qed.

Lemma split_char_plain (sep : ascii) (s : string) :
  count_char sep s = 0 -> split_char sep s = [s].
Proof.
  induction s as [|c s IH]; [reflexivity|]. cbn [count_char split_char].
  destruct (Ascii.eqb c sep); [discriminate|]. intro E. now rewrite (IH E).
Qed.

(** Splitting goes piece by piece across a separator. *)
Lemma split_char_append (sep : ascii) (a b : string) :
  split_char sep (a ++ String sep b) = split_char sep a ++ split_char sep b.
Proof.
  induction a as [|c a IH]; [cbn; now rewrite Ascii.eqb_refl|].
  cbn [String.append split_char]. rewrite IH.
  destruct (Ascii.eqb c sep); [reflexivity|].
  destruct (split_char_cons sep a) as (h & t & ->). reflexivity.
Qed.

Lemma last_append_cons {A : Type} (l1 l2 : list A) (x d : A) :
  last (l1 ++ x :: l2) d = last (x :: l2) d.
Proof.
  induction l1 as [|a l1 IH]; [reflexivity|].
  cbn [app]. change (last (a :: l1 ++ x :: l2) d)
    with (match l1 ++ x :: l2 with [] => a | _ => last (l1 ++ x :: l2) d end).
  destruct (l1 ++ x :: l2) eqn:E; [destruct l1; discriminate | exact IH].
Qed.

Lemma pop_split_append (sep : ascii) (a b : string) :
  pop (split_char sep (a ++ String sep b)) = pop (split_char sep b).
Proof.
  rewrite split_char_append. destruct (split_char_cons sep b) as (h & t & ->).
  unfold pop. rewrite last_append_cons.
  destruct (split_char sep a ++ h :: t) eqn:E; [destruct (split_char sep a); discriminate|].
  reflexivity.
Qed.

(** The last piece has no separator, and the text is that piece or ends in
    the separator and that piece. *)
Lemma last_piece (sep : ascii) (s : string) :
  let e := last (split_char sep s) EmptyString in
  count_char sep e = 0
  /\ (s = e \/ exists pre, s = (pre ++ String sep e)%string).
Proof.
  induction s as [|c s IH]; cbn zeta in *; [cbn; tauto|].
  cbn [split_char]. destruct (Ascii.eqb_spec c sep) as [->|Hc].
  - destruct (split_char_cons sep s) as (h & t & E). rewrite E in *.
    change (last (EmptyString :: h :: t) EmptyString) with (last (h :: t) EmptyString).
    destruct IH as [H0 [Hs|[pre Hs]]]; (split; [exact H0|]); right.
    + exists EmptyString. cbn [String.append]. now rewrite <- Hs.
    + exists (String sep pre). cbn [String.append]. now rewrite <- Hs.
  - destruct (split_char_cons sep s) as (h & t & E). rewrite E in *.
    destruct t as [|h2 t].
    + cbn [last] in *. destruct IH as [H0 [Hs|[pre Hs]]].
      * subst h. split; [|now left]. cbn [count_char].
        destruct (Ascii.eqb_spec c sep); [contradiction | exact H0].
      * exfalso. rewrite Hs, split_char_append in E.
        destruct (split_char_cons sep pre) as (a1 & a2 & Ea).
        destruct (split_char_cons sep h) as (b1 & b2 & Eb).
        rewrite Ea, Eb in E. destruct a2; discriminate.
    + change (last (String c h :: h2 :: t) EmptyString) with (last (h2 :: t) EmptyString).
      change (last (h :: h2 :: t) EmptyString) with (last (h2 :: t) EmptyString) in IH.
      destruct IH as [H0 [Hs|[pre Hs]]]; (split; [exact H0|]).
      * exfalso. rewrite Hs in E. rewrite split_char_plain in E by exact H0. discriminate.
      * right. exists (String c pre). cbn [String.append]. now rewrite <- Hs.
Qed.

End FrontendFacts.

(** X9. The summary lists every category of the batches exactly once, counts
    them, and reports no more categories and no more high-priority batches
    than there are batches. *)
Theorem generateDatasetSummary_counts {number : Type} (spec : DatasetSpecification number) :
  let summary := generateDatasetSummary spec in
  NoDup summary.(categoryList)
  /\ (forall c, In c summary.(categoryList)
                <-> exists b, In b spec.(permutation_batches) /\ b.(category) = c)
  /\ summary.(categories) = List.length summary.(categoryList)
  /\ summary.(categories) <= summary.(totalBatches)
  /\ summary.(highPriorityBatches) <= summary.(totalBatches).
Proof.
  cbn. destruct (set_values_spec (map category spec.(permutation_batches)) []) as [Hnd Hin].
  split; [exact Hnd|]. split; [|split; [reflexivity|split]].
  - intro c. rewrite Hin, in_map_iff. cbn. split.
    + intros [(b & E & Hb) _]. now exists b.
    + intros (b & Hb & E). split; [now exists b | tauto].
  - rewrite <- (length_map category). apply set_values_length.
  - apply filter_length_bound.
Qed.

(** X10. The filter for dropped files accepts a path exactly when the path
    in lower case is one of jpg, jpeg, png, webp or ends in a dot and one of
    them; so the case of the extension does not matter, and the bare name
    [png] without a dot is accepted too. *)
Theorem is_image_path_iff (path : string) :
  is_image_path path = true
  <-> exists ext, In ext ["jpg"; "jpeg"; "png"; "webp"]
                  /\ (toLowerCase path = ext
                      \/ exists pre, toLowerCase path = (pre ++ "." ++ ext)%string).
Proof.
  unfold is_image_path. split.
  - intro H. apply array_includes_In in H.
    destruct (split_char_cons "." (toLowerCase path)) as (h & t & E).
    pose proof (last_piece "." (toLowerCase path)) as [_ Hlast]. cbn zeta in Hlast.
    rewrite E in H, Hlast. unfold pop in H.
    set (e := last (h :: t) EmptyString) in *.
    assert (He : or_else (Some e) EmptyString = e) by (destruct e; reflexivity).
    rewrite He in H. exists e. split; [exact H | exact Hlast].
  - intros (ext & Hin & Hpath).
    assert (E : pop (split_char "." ext) = Some ext /\ or_else (Some ext) EmptyString = ext).
    { cbn in Hin. destruct Hin as [<-|[<-|[<-|[<-|[]]]]]; split; reflexivity. }
    destruct E as [E1 E2].
    assert (Ep : pop (split_char "." (toLowerCase path)) = Some ext).
    { destruct Hpath as [->|[pre ->]]; [exact E1|].
      change ((pre ++ "." ++ ext)%string) with ((pre ++ String "." ext)%string).
      now rewrite pop_split_append. }
    rewrite Ep, E2. now apply array_includes_In.
Qed.

(** X11. For a path that ends in a slash and a name without slash,
    [getFileName] is that name. *)
Theorem getFileName_after_slash (dir name : string) :
  name <> EmptyString -> count_char "/" name = 0 ->
  getFileName (dir ++ "/" ++ name) = name.
Proof.
  intros Hne Hplain. unfold getFileName.
  change ((dir ++ "/" ++ name)%string) with ((dir ++ String "/" name)%string).
  rewrite pop_split_append, (split_char_plain _ _ Hplain).
  destruct name; [congruence | reflexivity].
Qed.

Lemma getFileName_after_slash_witness :
  getFileName ("/home/me/refs" ++ "/" ++ "cat 01.png") = "cat 01.png".
Proof. apply getFileName_after_slash; [discriminate | reflexivity]. Defined.

(** X12. For a path without a slash, [getFileName] is the whole path, also
    when the path has backslashes. *)
Theorem getFileName_without_slash (path : string) :
  count_char "/" path = 0 -> getFileName path = path.
Proof.
  intro Hplain. unfold getFileName. rewrite (split_char_plain _ _ Hplain).
  destruct path; reflexivity.
Qed.

Lemma getFileName_without_slash_witness :
  getFileName "C:\Users\me\refs\cat.png" = "C:\Users\me\refs\cat.png".
Proof. apply getFileName_without_slash. reflexivity. Defined.


(** ** The project store *)

Section StoreFacts.

Import Store.

Context {number : Type}.

Lemma write_same (heap : ref -> PermutationBatch) (r : ref) (b : PermutationBatch) :
  write heap r b r = b.
Proof. unfold write. now rewrite Nat.eqb_refl. Qed.

Lemma write_other (heap : ref -> PermutationBatch) (r r' : ref) (b : PermutationBatch) :
  r' <> r -> write heap r b r' = heap r'.
Proof. intro N. unfold write. apply Nat.eqb_neq in N. now rewrite N. Qed.

Lemma renumber_outside (slots : list ref) (i : nat) (heap : ref -> PermutationBatch)
    (r : ref) :
  ~ In r slots -> renumber i slots heap r = heap r.
Proof.
  revert i heap. induction slots as [|r0 slots IH]; intros i heap Hnin; [reflexivity|].
  cbn [renumber]. rewrite IH by (intro; apply Hnin; now right).
  apply write_other. intro E. apply Hnin. now left.
Qed.

(** Renumbering through the slots, read back through the slots. *)
Lemma renumber_read (slots : list ref) (i : nat) (heap : ref -> PermutationBatch) :
  NoDup slots ->
  map (renumber i slots heap) slots
  = map (fun kb => set_batch_number (Z.of_nat (fst kb + 1)) (snd kb))
        (combine (seq i (List.length slots)) (map heap slots)).
Proof.
  revert i heap. induction slots as [|r slots IH]; intros i heap Hnd; [reflexivity|].
  inversion Hnd as [|? ? Hnin Hnd']; subst.
  cbn [renumber map List.length seq combine fst snd]. f_equal.
  - rewrite renumber_outside by exact Hnin. apply write_same.
  - rewrite (IH (S i) _ Hnd'). f_equal. f_equal.
    apply map_ext_in. intros r' Hr'. apply write_other. intro E. subst. contradiction.
Qed.

Lemma splice_1_map {A B : Type} (f : A -> B) (index : Z) (l : list A) :
  map f (splice_1 index l) = splice_1 index (map f l).
Proof.
  unfold splice_1. rewrite length_map.
  destruct (_ <? _)%Z; [|reflexivity].
  now rewrite map_app, firstn_map, skipn_map.
Qed.

Lemma In_firstn {A : Type} (k : nat) (l : list A) (x : A) :
  In x (firstn k l) -> In x l.
Proof. intro H. rewrite <- (firstn_skipn k l). apply in_or_app. now left. Qed.

Lemma In_skipn {A : Type} (k : nat) (l : list A) (x : A) :
  In x (skipn k l) -> In x l.
Proof. intro H. rewrite <- (firstn_skipn k l). apply in_or_app. now right. Qed.

Lemma splice_1_In {A : Type} (index : Z) (l : list A) (x : A) :
  In x (splice_1 index l) -> In x l.
Proof.
  unfold splice_1. destruct (_ <? _)%Z; [|tauto].
  intro H. apply in_app_or in H as [H|H];
    [exact (In_firstn _ _ _ H) | exact (In_skipn _ _ _ H)].
Qed.

Lemma splice_1_NoDup {A : Type} (index : Z) (l : list A) :
  NoDup l -> NoDup (splice_1 index l).
Proof.
  unfold splice_1. destruct (_ <? _)%Z; [|tauto].
  set (k := Z.to_nat _). intro H.
  rewrite <- (firstn_skipn k l) in H.
  destruct (skipn k l) as [|x rest] eqn:E.
  - rewrite (skipn_all2 l); [now rewrite app_nil_r in *|].
    apply (f_equal (@List.length A)) in E. rewrite length_skipn in E. cbn in E. lia.
  - replace (skipn (S k) l) with rest.
    + exact (NoDup_remove_1 _ _ _ H).
    + change (S k) with (1 + k). rewrite <- skipn_skipn, E. reflexivity.
Qed.

Lemma splice_1_length {A : Type} (index : Z) (l : list A) :
  List.length (splice_1 index l)
  = if (index <? Z.of_nat (List.length l))%Z && negb (List.length l =? 0)
    then List.length l - 1 else List.length l.
Proof.
  unfold splice_1. set (len := Z.of_nat (List.length l)).
  destruct (index <? 0)%Z eqn:Eneg.
  - apply Z.ltb_lt in Eneg.
    assert (Hlt : (index <? len)%Z = true) by (apply Z.ltb_lt; lia). rewrite Hlt.
    destruct (Z.ltb_spec (Z.max (len + index) 0) len) as [H|H];
      destruct (Nat.eqb_spec (List.length l) 0) as [E0|E0]; cbn [andb negb]; try lia.
    rewrite length_app, length_firstn, length_skipn. lia.
  - apply Z.ltb_ge in Eneg.
    destruct (Z.ltb_spec (Z.min index len) len) as [H|H];
      destruct (Z.ltb_spec index len) as [H'|H'];
      destruct (Nat.eqb_spec (List.length l) 0) as [E0|E0]; cbn [andb negb]; try lia.
    rewrite length_app, length_firstn, length_skipn. lia.
Qed.

Lemma renumbered_numbers_from (batches : list PermutationBatch) (i : nat) :
  map batch_number
      (map (fun kb => set_batch_number (Z.of_nat (fst kb + 1)) (snd kb))
           (combine (seq i (List.length batches)) batches))
  = map (fun k => Z.of_nat k) (seq (i + 1) (List.length batches)).
Proof.
  revert i. induction batches as [|b bs IH]; intro i; [reflexivity|].
  cbn [List.length seq combine map fst snd batch_number set_batch_number].
  f_equal. rewrite IH. reflexivity.
Qed.

Lemma renumbered_numbers (batches : list PermutationBatch) :
  map batch_number (renumbered batches)
  = map (fun i => Z.of_nat i) (seq 1 (List.length batches)).
Proof. exact (renumbered_numbers_from batches 0). Qed.

Lemma renumbered_length (batches : list PermutationBatch) :
  List.length (renumbered batches) = List.length batches.
Proof.
  unfold renumbered. now rewrite length_map, length_combine, length_seq, Nat.min_id.
Qed.

Lemma read_removeBatch (st : state number) (doc : document number) (index : Z) :
  st.(specification) = Some doc ->
  NoDup doc.(doc_batches) ->
  read_batches (removeBatch index st) = renumbered (splice_1 index (read_batches st)).
Proof.
  intros Hs Hnd. unfold removeBatch, read_batches. rewrite Hs.
  cbn [with_document with_batches specification objects doc_batches].
  rewrite renumber_read by now apply splice_1_NoDup.
  unfold renumbered. now rewrite <- splice_1_map, length_map.
Qed.

Lemma read_fresh (st : state number) (doc : document number) (b : PermutationBatch) :
  Forall (fun r => r < st.(next_ref)) doc.(doc_batches) ->
  map (write st.(objects) st.(next_ref) b) (doc.(doc_batches) ++ [st.(next_ref)])
  = map st.(objects) doc.(doc_batches) ++ [b].
Proof.
  intro Hlt. rewrite map_app. cbn [map]. rewrite write_same. f_equal.
  apply map_ext_in. intros r Hr. rewrite Forall_forall in Hlt. specialize (Hlt r Hr).
  apply write_other. lia.
Qed.

Lemma fresh_unshared (slots : list ref) (next : ref) :
  NoDup slots -> Forall (fun r => r < next) slots ->
  NoDup (slots ++ [next]) /\ Forall (fun r => r < S next) (slots ++ [next]).
Proof.
  intros Hnd Hlt. split.
  - apply NoDup_app; [exact Hnd | repeat constructor; tauto |].
    intros r Hr [E|[]]. rewrite Forall_forall in Hlt. specialize (Hlt r Hr). lia.
  - apply Forall_app. split; [|repeat constructor].
    eapply Forall_impl; [|exact Hlt]. cbn. intros. lia.
Qed.

Lemma dense_snoc (numbers : list Z) (n : nat) :
  List.length numbers = n ->
  numbers = map (fun i => Z.of_nat i) (seq 1 n) ->
  numbers ++ [Z.of_nat (n + 1)] = map (fun i => Z.of_nat i) (seq 1 (S n)).
Proof.
  intros _ ->. rewrite seq_S, map_app. cbn. now rewrite Nat.add_comm.
Qed.

End StoreFacts.

Section NewBatchFacts.

Lemma count_char_append (c : ascii) (a b : string) :
  count_char c (a ++ b) = count_char c a + count_char c b.
Proof. induction a as [|d a IH]; cbn; [reflexivity | rewrite IH; lia]. Qed.

Lemma digits_count (s : string) (c : ascii) :
  digits s = true -> is_digit c = false -> count_char c s = 0.
Proof.
  intros Hd Hc. induction s as [|d s IH]; [reflexivity|].
  cbn in Hd |- *. apply andb_prop in Hd as [H1 H2]. rewrite (IH H2).
  destruct (Ascii.eqb_spec d c); [congruence | reflexivity].
Qed.

Lemma scan_plain (s : string) : count_char "{" s = 0 -> scan_groups None s = [].
Proof.
  intro H. rewrite <- (append_nil_r s). now rewrite (scan_without_open _ _ H).
Qed.

(** The batch that [addBatch] creates passes the batch validator when the
    style code is a run of digits. *)
Lemma new_batch_valid (n : nat) (code : string) :
  code <> EmptyString -> digits code = true ->
  batch_errors (Store.new_batch n code) (Some code) = [].
Proof.
  intros Hne Hd. apply batch_errors_nil. cbn [Store.new_batch prompt priority].
  set (head := "{subject1, subject2, subject3, subject4, subject5} with {modifier1, modifier2, modifier3, modifier4, modifier5, modifier6, modifier7, modifier8").
  set (pre := (head ++ "} ")%string).
  assert (Hopen : count_char "{" (" --sref " ++ code) = 0)
    by (rewrite count_char_append, (digits_count code "{" Hd eq_refl); reflexivity).
  assert (Hclose : count_char "}" (" --sref " ++ code) = 0)
    by (rewrite count_char_append, (digits_count code "}" Hd eq_refl); reflexivity).
  assert (Hm : extractSrefCode (pre ++ "--sref" ++ " " ++ code) = Some code).
  { apply extractSrefCode_trailing; try assumption; try reflexivity. discriminate. }
  split; [|split; [|split]].
  - change (calculatePermutationCount ((head ++ "}") ++ (" --sref " ++ code)) = 40).
    rewrite count_append_closed. unfold bracket_groups.
    rewrite (scan_plain _ Hopen). reflexivity.
  - change (hasValidPermutationSyntax ((head ++ "}") ++ (" --sref " ++ code)) = true).
    rewrite hasValidPermutationSyntax_spec. unfold bracket_groups.
    rewrite scan_append_closed, (scan_plain _ Hopen).
    rewrite (count_char_append "{" (head ++ "}")), (count_char_append "}" (head ++ "}")).
    rewrite Hopen, Hclose. reflexivity.
  - split; [exact (hasSrefCode_extract _ _ Hm) | right; exact Hm].
  - right. left. reflexivity.
Qed.

End NewBatchFacts.

(** X13. When no batch object sits in two slots, [removeBatch] leaves the
    batches of the array without the one at the index (counted from the end
    when negative; none beyond the end), in their order and numbered
    1, 2, 3 and so on. *)
Theorem removeBatch_renumbers {number : Type} (st : Store.state number)
    (doc : Store.document number) (index : Z) :
  Store.specification st = Some doc ->
  NoDup (Store.doc_batches doc) ->
  Store.read_batches (Store.removeBatch index st)
    = Store.renumbered (Store.splice_1 index (Store.read_batches st))
  /\ Store.dense (Store.removeBatch index st)
  /\ List.length (Store.read_batches (Store.removeBatch index st))
     = if (index <? Z.of_nat (List.length (Store.read_batches st)))%Z
          && negb (List.length (Store.read_batches st) =? 0)
       then List.length (Store.read_batches st) - 1
       else List.length (Store.read_batches st).
Proof.
  intros Hs Hnd. pose proof (read_removeBatch st doc index Hs Hnd) as Hread.
  split; [exact Hread|]. split.
  - unfold Store.dense. rewrite Hread, renumbered_length. apply renumbered_numbers.
  - rewrite Hread, renumbered_length. apply splice_1_length.
Qed.

Lemma removeBatch_renumbers_witness :
  map batch_name (Store.read_batches (Store.removeBatch 0 (Store.sample_state [0; 1; 2])))
    = ["Coasts"; "Forests"]
  /\ map batch_number (Store.read_batches (Store.removeBatch 0 (Store.sample_state [0; 1; 2])))
     = [1%Z; 2%Z].
Proof.
  destruct (removeBatch_renumbers (Store.sample_state [0; 1; 2])
              (Store.sample_document [0; 1; 2]) 0 eq_refl) as (Hread & Hdense & _).
  - repeat constructor; cbn; intuition discriminate.
  - split; [rewrite Hread; reflexivity | exact Hdense].
Defined.

(** When one object sits in two slots, the renumbering gives both slots the
    same number. *)
Lemma removeBatch_shared_object :
  map batch_number (Store.read_batches (Store.removeBatch 2 (Store.sample_state [0; 0; 1])))
  = [2%Z; 2%Z].
Proof. reflexivity. Qed.

(** X14. [addBatch] appends one batch, numbered one more than the batches
    there were, whatever the style code of the specification is; when that
    code is a run of digits the new batch is valid against it. *)
Theorem addBatch_appends_valid_batch {number : Type} (st : Store.state number)
    (doc : Store.document number) :
  Store.specification st = Some doc ->
  Store.unshared st ->
  let added := Store.new_batch (List.length (Store.read_batches st) + 1)
                               (Store.doc_sref_code doc) in
  Store.read_batches (Store.addBatch st) = Store.read_batches st ++ [added]
  /\ added.(batch_number) = Z.of_nat (List.length (Store.read_batches st) + 1)
  /\ (Store.doc_sref_code doc <> EmptyString ->
      digits (Store.doc_sref_code doc) = true ->
      (validateBatch added (Some (Store.doc_sref_code doc))).(isValid) = true).
Proof.
  intros Hs Hun. cbn zeta. unfold Store.unshared in Hun. rewrite Hs in Hun.
  destruct Hun as [_ Hlt].
  unfold Store.read_batches, Store.addBatch. rewrite Hs.
  cbn [Store.with_document Store.with_batches Store.specification Store.objects
       Store.doc_batches].
  rewrite length_map. split; [apply read_fresh; exact Hlt|]. split; [reflexivity|].
  intros Hne Hd.
  cbn [validateBatch validation isValid]. apply no_errors_iff.
  now apply new_batch_valid.
Qed.

Lemma addBatch_appends_valid_batch_witness :
  map batch_number (Store.read_batches (Store.addBatch (Store.sample_state [0; 1; 2])))
    = [1%Z; 2%Z; 3%Z; 4%Z]
  /\ (validateBatch (Store.new_batch 4 "1234567890") (Some "1234567890")).(isValid) = true.
Proof.
  destruct (addBatch_appends_valid_batch (Store.sample_state [0; 1; 2])
              (Store.sample_document [0; 1; 2]) eq_refl) as (Hread & _ & Hvalid).
  - split; [repeat constructor; cbn; intuition discriminate | repeat constructor].
  - split; [rewrite Hread; reflexivity|].
    apply Hvalid; [discriminate | reflexivity].
Defined.

(** X15. [duplicateBatch] on an index that names no slot throws, and changes
    nothing. *)
Theorem duplicateBatch_out_of_range {number : Type} (st : Store.state number)
    (doc : Store.document number) (index : Z) :
  Store.specification st = Some doc ->
  (index < 0 \/ Z.of_nat (List.length (Store.doc_batches doc)) <= index)%Z ->
  Store.duplicateBatch index st
  = Throw (TypeError "Cannot read properties of undefined (reading 'batch_name')").
Proof.
  intros Hs Hout. unfold Store.duplicateBatch, Store.at_index. rewrite Hs.
  destruct (Z.ltb_spec index 0) as [_|Hpos]; [reflexivity|].
  destruct Hout as [Hneg|Hbig]; [lia|].
  destruct (nth_error (Store.doc_batches doc) (Z.to_nat index)) eqn:E; [|reflexivity].
  assert (Hsome : nth_error (Store.doc_batches doc) (Z.to_nat index) <> None) by congruence.
  apply nth_error_Some in Hsome. lia.
Qed.

Lemma duplicateBatch_out_of_range_witness :
  Store.duplicateBatch 3 (Store.sample_state [0; 1; 2])
  = Throw (TypeError "Cannot read properties of undefined (reading 'batch_name')").
Proof.
  apply (duplicateBatch_out_of_range _ (Store.sample_document [0; 1; 2]));
    [reflexivity | right; cbn; lia].
Defined.

(** X16. [duplicateBatch] on the index of a batch appends a copy of it with
    the next number and [ (Copy)] behind its name; the copy gets the same
    errors and warnings from the batch validator as the original. *)
Theorem duplicateBatch_copies {number : Type} (st : Store.state number)
    (doc : Store.document number) (index : Z) :
  Store.specification st = Some doc ->
  Store.unshared st ->
  (0 <= index < Z.of_nat (List.length (Store.doc_batches doc)))%Z ->
  exists st' original,
    Store.duplicateBatch index st = Return st'
    /\ nth_error (Store.read_batches st) (Z.to_nat index) = Some original
    /\ Store.read_batches st'
       = Store.read_batches st
           ++ [Store.copy_of original (List.length (Store.read_batches st) + 1)]
    /\ forall expectedSrefCode,
         validation
           (validateBatch
              (Store.copy_of original (List.length (Store.read_batches st) + 1))
              expectedSrefCode)
         = validation (validateBatch original expectedSrefCode).
Proof.
  intros Hs Hun Hin. unfold Store.unshared in Hun. rewrite Hs in Hun.
  destruct Hun as [_ Hlt].
  unfold Store.duplicateBatch, Store.at_index, Store.read_batches. rewrite Hs.
  destruct (Z.ltb_spec index 0) as [Hneg|_]; [lia|].
  destruct (nth_error (Store.doc_batches doc) (Z.to_nat index)) as [r0|] eqn:E.
  2:{ apply nth_error_None in E. lia. }
  eexists. exists (Store.objects st r0).
  split; [reflexivity|]. split; [now rewrite nth_error_map, E|]. split.
  - cbn [Store.with_document Store.with_batches Store.specification Store.objects
         Store.doc_batches].
    rewrite length_map. apply read_fresh. exact Hlt.
  - reflexivity.
Qed.

Lemma duplicateBatch_copies_witness :
  exists st' original,
    Store.duplicateBatch 1 (Store.sample_state [0; 1; 2]) = Return st'
    /\ nth_error (Store.read_batches (Store.sample_state [0; 1; 2])) (Z.to_nat 1)
       = Some original
    /\ Store.read_batches st'
       = Store.read_batches (Store.sample_state [0; 1; 2])
           ++ [Store.copy_of original
                 (List.length (Store.read_batches (Store.sample_state [0; 1; 2])) + 1)]
    /\ forall expectedSrefCode,
         validation
           (validateBatch
              (Store.copy_of original
                 (List.length (Store.read_batches (Store.sample_state [0; 1; 2])) + 1))
              expectedSrefCode)
         = validation (validateBatch original expectedSrefCode).
Proof.
  apply (duplicateBatch_copies (Store.sample_state [0; 1; 2])
           (Store.sample_document [0; 1; 2]) 1 eq_refl).
  - split; [repeat constructor; cbn; intuition discriminate | repeat constructor].
  - cbn. lia.
Defined.

(** X17. Adding, removing and duplicating batches keep the store in a state
    where no batch object sits in two slots and the batch numbers run
    1, 2, 3 and so on. *)
Theorem batch_actions_keep_numbering {number : Type} (st : Store.state number) :
  Store.unshared st -> Store.dense st ->
  (Store.unshared (Store.addBatch st) /\ Store.dense (Store.addBatch st))
  /\ (forall index,
        Store.unshared (Store.removeBatch index st)
        /\ Store.dense (Store.removeBatch index st))
  /\ (forall index st',
        Store.duplicateBatch index st = Return st' ->
        Store.unshared st' /\ Store.dense st').
Proof.
  intros Hun Hdense.
  destruct (Store.specification st) as [doc|] eqn:Hs.
  2:{ unfold Store.addBatch, Store.removeBatch, Store.duplicateBatch. rewrite Hs.
      repeat split; try assumption; inversion H; subst; assumption. }
  pose proof Hun as Hun'. unfold Store.unshared in Hun'. rewrite Hs in Hun'.
  destruct Hun' as [Hnd Hlt].
  assert (Hgrow : forall b,
            b.(batch_number) = Z.of_nat (List.length (Store.doc_batches doc) + 1) ->
            let st' := Store.with_document
                         (Store.with_batches doc (Store.doc_batches doc ++ [Store.next_ref st]))
                         (Store.write (Store.objects st) (Store.next_ref st) b)
                         (S (Store.next_ref st)) st in
            Store.unshared st' /\ Store.dense st').
  { intros b Hb. cbn zeta. split.
    - unfold Store.unshared. cbn. now apply fresh_unshared.
    - unfold Store.dense, Store.read_batches in *. rewrite Hs in Hdense. cbn.
      rewrite (read_fresh st doc b Hlt), map_app, length_app, !length_map in *.
      cbn [map List.length]. rewrite Hb.
      replace (List.length (Store.doc_batches doc) + 1 + 0)
        with (S (List.length (Store.doc_batches doc))) by lia.
      replace (List.length (Store.doc_batches doc) + 1)
        with (S (List.length (Store.doc_batches doc))) by lia.
      rewrite <- (Nat.add_1_r (List.length (Store.doc_batches doc))) at 1.
      apply dense_snoc; [now rewrite !length_map | exact Hdense]. }
  split; [|split].
  - unfold Store.addBatch. rewrite Hs. apply Hgrow. reflexivity.
  - intro index. split.
    + unfold Store.unshared, Store.removeBatch. rewrite Hs. cbn. split.
      * now apply splice_1_NoDup.
      * rewrite Forall_forall in *. intros r Hr. apply Hlt. exact (splice_1_In _ _ _ Hr).
    + unfold Store.dense.
      rewrite (read_removeBatch st doc index Hs Hnd), renumbered_length.
      apply renumbered_numbers.
  - intros index st' Hdup. unfold Store.duplicateBatch in Hdup. rewrite Hs in Hdup.
    destruct (Store.at_index index (Store.doc_batches doc)) as [r0|]; [|discriminate].
    inversion Hdup; subst. apply Hgrow. reflexivity.
Qed.

Lemma batch_actions_keep_numbering_witness :
  Store.dense (Store.addBatch (Store.sample_state [0; 1; 2]))
  /\ Store.dense (Store.removeBatch 1 (Store.sample_state [0; 1; 2])).
Proof.
  assert (Hun : Store.unshared (Store.sample_state [0; 1; 2])).
  { split; [repeat constructor; cbn; intuition discriminate | repeat constructor]. }
  assert (Hd : Store.dense (Store.sample_state [0; 1; 2])) by reflexivity.
  destruct (batch_actions_keep_numbering (Store.sample_state [0; 1; 2]) Hun Hd)
    as ([_ Hadd] & Hrem & _).
  split; [exact Hadd | exact (proj2 (Hrem 1%Z))].
Defined.

(** X18. [addImage] never makes the list of image paths hold a path twice,
    always leaves the path in the list, and does nothing the second time. *)
Theorem addImage_no_duplicates {number : Type} (st : Store.state number) (path : string) :
  NoDup (Store.imagePaths st) ->
  NoDup (Store.imagePaths (Store.addImage path st))
  /\ In path (Store.imagePaths (Store.addImage path st))
  /\ Store.addImage path (Store.addImage path st) = Store.addImage path st.
Proof.
  intro Hnd. unfold Store.addImage.
  destruct (array_includes path (Store.imagePaths st)) eqn:E; cbn [negb].
  - rewrite E. cbn [negb]. apply array_includes_In in E. tauto.
  - assert (Hnin : ~ In path (Store.imagePaths st))
      by (intro Hin; apply array_includes_In in Hin; congruence).
    assert (Hin : In path (Store.imagePaths st ++ [path]))
      by (apply in_or_app; right; now left).
    cbn [Store.setImages Store.imagePaths].
    split; [|split; [exact Hin|]].
    + apply NoDup_app; [exact Hnd | repeat constructor; tauto |].
      intros x Hx [E'|[]]. subst. contradiction.
    + apply array_includes_In in Hin. now rewrite Hin.
Qed.

Lemma addImage_no_duplicates_witness :
  NoDup (Store.imagePaths (Store.addImage "b.png" (Store.sample_state [0; 1; 2])))
  /\ In "b.png" (Store.imagePaths (Store.addImage "b.png" (Store.sample_state [0; 1; 2])))
  /\ Store.addImage "b.png" (Store.addImage "b.png" (Store.sample_state [0; 1; 2]))
     = Store.addImage "b.png" (Store.sample_state [0; 1; 2]).
Proof.
  apply addImage_no_duplicates. repeat constructor; cbn; intuition discriminate.
Defined.

(** ** More of the analysis command *)

Section CommandMore.

Variable f32 : Type.
Variable f32_to_string : f32 -> string.
Variable w : World f32.

Lemma cloud_calls_app (l1 l2 : list event) :
  cloud_calls (l1 ++ l2) = cloud_calls l1 + cloud_calls l2.
Proof. unfold cloud_calls. now rewrite filter_app, length_app. Qed.

Lemma encode_images_cloud_calls (image_paths : list string) :
  cloud_calls (fst (encode_images w image_paths)) = 0.
Proof.
  induction image_paths as [|path rest IH]; [reflexivity|].
  cbn [encode_images]. unfold encode_image, bind, emit, or_fail, ret, fail.
  destruct (read_and_encode_image w path); [|reflexivity].
  destruct (get_mime_type w path); [|reflexivity].
  destruct (encode_images w rest) as [log [xs|e]]; cbn in IH |- *;
    rewrite ?app_nil_r; exact IH.
Qed.

(** An error of the image loop names the image and the helper that
    failed. *)
Lemma encode_images_error (image_paths : list string) (log : list event) (e : string) :
  encode_images w image_paths = (log, Err e) ->
  exists path cause,
    In path image_paths
    /\ ((read_and_encode_image w path = Err cause
         /\ e = ("Failed to read image " ++ path ++ ": " ++ cause)%string)
        \/ (get_mime_type w path = Err cause
            /\ e = ("Invalid image format " ++ path ++ ": " ++ cause)%string)).
Proof.
  revert log. induction image_paths as [|path rest IH]; intro log; [discriminate|].
  cbn [encode_images]. unfold encode_image, bind, emit, or_fail, ret, fail.
  destruct (read_and_encode_image w path) as [b|c] eqn:R.
  2:{ intro E. inversion E; subst. exists path, c. split; [now left | now left]. }
  destruct (get_mime_type w path) as [mt|c] eqn:G.
  2:{ intro E. inversion E; subst. exists path, c. split; [now left | now right]. }
  destruct (encode_images w rest) as [log' [xs|e']] eqn:Rest; cbn; intro E; [discriminate|].
  inversion E; subst.
  destruct (IH log' eq_refl) as (p & c & Hin & H). exists p, c. split; [now right | exact H].
Qed.

(** The command, case by case. *)
Lemma analyze_style_cases (image_paths : list string) (sref_code : string) :
  analyze_style f32_to_string w image_paths sref_code
  = if use_api w then
      match encode_images w image_paths with
      | (log, Err e) => (log, Err e)
      | (log, Ok image_data) =>
          match claude_analyze_style w image_data sref_code with
          | Ok result =>
              (log ++ [CloudCall image_data sref_code],
               Ok {| data := result; mode_used := "cloud"; fallback_used := false |})
          | Err e =>
              if auto_fallback (settings w) then
                (log ++ [CloudCall image_data sref_code;
                         LogWarn ("API analysis failed: " ++ e
                                    ++ ". Attempting offline fallback...");
                         OfflineCall image_paths sref_code (settings w)],
                 match offline_analyze_style w image_paths sref_code (settings w) with
                 | Ok result =>
                     Ok {| data := result; mode_used := "offline"; fallback_used := true |}
                 | Err e' =>
                     Err ("Offline analysis error: " ++ to_string f32_to_string e')%string
                 end)
              else (log ++ [CloudCall image_data sref_code],
                    Err ("Claude API error: " ++ e)%string)
          end
      end
    else
      ([OfflineCall image_paths sref_code (settings w)],
       match offline_analyze_style w image_paths sref_code (settings w) with
       | Ok result =>
           Ok {| data := result; mode_used := "offline"; fallback_used := false |}
       | Err e' => Err ("Offline analysis error: " ++ to_string f32_to_string e')%string
       end).
Proof.
  destruct (use_api w) eqn:Hapi.
  - destruct (encode_images w image_paths) as [log [image_data|e]] eqn:Henc.
    + destruct (claude_analyze_style w image_data sref_code) as [result|e] eqn:Hc.
      * unfold analyze_style, try_cloud. rewrite Hapi, Henc.
        unfold bind, emit, ret. rewrite Hc. cbn. now rewrite ?app_nil_r.
      * apply (analyze_style_cloud_failed f32 f32_to_string w _ _ _ _ _ Hapi Henc Hc).
    + unfold analyze_style, try_cloud. rewrite Hapi, Henc. reflexivity.
  - rewrite (analyze_style_offline_only f32 f32_to_string w _ _ Hapi).
    unfold offline_mode, bind, emit, ret, fail. rewrite Hapi.
    destruct (offline_analyze_style w image_paths sref_code (settings w)); reflexivity.
Qed.

End CommandMore.

(** X19. In offline mode the command reads no image and does not call the
    cloud client, whatever the environment holds: it calls the offline
    analyzer once, and a result carries its answer with [mode_used = offline]
    and [fallback_used = false]. *)
Theorem offline_mode_stays_offline {f32 : Type} (f32_to_string : f32 -> string)
    (w : World f32) (image_paths : list string) (sref_code : string) :
  analysis_mode (settings w) = Offline ->
  fst (analyze_style f32_to_string w image_paths sref_code)
    = [OfflineCall image_paths sref_code (settings w)]
  /\ forall r,
       snd (analyze_style f32_to_string w image_paths sref_code) = Ok r ->
       offline_analyze_style w image_paths sref_code (settings w) = Ok r.(data)
       /\ r.(mode_used) = "offline" /\ r.(fallback_used) = false.
Proof.
  intro Hmode. rewrite analyze_style_cases.
  assert (Hapi : use_api w = false) by (unfold use_api; now rewrite Hmode).
  rewrite Hapi. split; [reflexivity|]. cbn [snd]. intros r Hr.
  destruct (offline_analyze_style w image_paths sref_code (settings w)); [|discriminate].
  inversion Hr; subst. cbn. tauto.
Qed.

Lemma offline_mode_stays_offline_witness :
  fst (analyze_style (fun s => s) offline_by_choice three_images "1234567890")
  = [OfflineCall three_images "1234567890" (settings offline_by_choice)].
Proof.
  exact (proj1 (offline_mode_stays_offline (fun s => s) offline_by_choice three_images
                  "1234567890" eq_refl)).
Defined.

(** X20. When the cloud attempt is made and succeeds, the command returns the
    cloud answer with [mode_used = cloud] and [fallback_used = false], and
    the offline analyzer is not called. *)
Theorem cloud_success {f32 : Type} (f32_to_string : f32 -> string)
    (w : World f32) (image_paths : list string) (sref_code : string)
    (log : list event) (image_data : list (string * string)) (result : string) :
  use_api w = true ->
  encode_images w image_paths = (log, Ok image_data) ->
  claude_analyze_style w image_data sref_code = Ok result ->
  snd (analyze_style f32_to_string w image_paths sref_code)
    = Ok {| data := result; mode_used := "cloud"; fallback_used := false |}
  /\ offline_calls (fst (analyze_style f32_to_string w image_paths sref_code)) = 0
  /\ cloud_calls (fst (analyze_style f32_to_string w image_paths sref_code)) = 1.
Proof.
  intros Hapi Henc Hc. rewrite analyze_style_cases, Hapi, Henc, Hc.
  split; [reflexivity|]. cbn [fst].
  pose proof (encode_images_offline_calls f32 w image_paths) as Ho.
  pose proof (encode_images_cloud_calls f32 w image_paths) as Hcl.
  rewrite Henc in Ho, Hcl. cbn [fst] in Ho, Hcl.
  rewrite offline_calls_app, cloud_calls_app, Ho, Hcl. split; reflexivity.
Qed.

Lemma cloud_success_witness :
  snd (analyze_style (fun s => s) unreadable_image ["a.png"; "c.png"] "1234567890")
    = Ok {| data := "{}"; mode_used := "cloud"; fallback_used := false |}
  /\ offline_calls
       (fst (analyze_style (fun s => s) unreadable_image ["a.png"; "c.png"] "1234567890")) = 0
  /\ cloud_calls
       (fst (analyze_style (fun s => s) unreadable_image ["a.png"; "c.png"] "1234567890")) = 1.
Proof.
  eapply (cloud_success (fun s => s) unreadable_image ["a.png"; "c.png"] "1234567890");
    reflexivity.
Defined.

(** X21. When the cloud is chosen and an image cannot be read or has no
    known format, the command fails with that error and calls neither the
    cloud client nor the offline analyzer, also when fallback is enabled. *)
Theorem image_failure_is_final {f32 : Type} (f32_to_string : f32 -> string)
    (w : World f32) (image_paths : list string) (sref_code : string)
    (log : list event) (e : string) :
  use_api w = true ->
  encode_images w image_paths = (log, Err e) ->
  analyze_style f32_to_string w image_paths sref_code = (log, Err e)
  /\ cloud_calls log = 0 /\ offline_calls log = 0
  /\ exists path cause,
       In path image_paths
       /\ ((read_and_encode_image w path = Err cause
            /\ e = ("Failed to read image " ++ path ++ ": " ++ cause)%string)
           \/ (get_mime_type w path = Err cause
               /\ e = ("Invalid image format " ++ path ++ ": " ++ cause)%string)).
Proof.
  intros Hapi Henc. rewrite analyze_style_cases, Hapi, Henc.
  pose proof (encode_images_offline_calls f32 w image_paths) as Ho.
  pose proof (encode_images_cloud_calls f32 w image_paths) as Hcl.
  rewrite Henc in Ho, Hcl. cbn [fst] in Ho, Hcl.
  repeat split; try assumption. exact (encode_images_error f32 w _ _ _ Henc).
Qed.

Lemma image_failure_is_final_witness :
  analyze_style (fun s => s) unreadable_image three_images "1234567890"
  = ([ReadImage "a.png"; GetMimeType "a.png"; ReadImage "b.png"],
     Err "Failed to read image b.png: permission denied").
Proof.
  exact (proj1 (image_failure_is_final (fun s => s) unreadable_image three_images
                  "1234567890" _ _ eq_refl eq_refl)).
Defined.

(** X22. Every result of the command is the unchanged answer of one backend:
    of the cloud client with [mode_used = cloud] and [fallback_used = false],
    or of the offline analyzer with [mode_used = offline] and
    [fallback_used] telling whether the cloud was tried first. *)
Theorem analyze_style_result {f32 : Type} (f32_to_string : f32 -> string)
    (w : World f32) (image_paths : list string) (sref_code : string)
    (r : AnalysisResult) :
  snd (analyze_style f32_to_string w image_paths sref_code) = Ok r ->
  (r.(mode_used) = "cloud" /\ r.(fallback_used) = false
   /\ exists image_data, claude_analyze_style w image_data sref_code = Ok r.(data))
  \/ (r.(mode_used) = "offline" /\ r.(fallback_used) = use_api w
      /\ offline_analyze_style w image_paths sref_code (settings w) = Ok r.(data)).
Proof.
  rewrite analyze_style_cases.
  destruct (use_api w) eqn:Hapi.
  - destruct (encode_images w image_paths) as [log [image_data|e]]; [|discriminate].
    destruct (claude_analyze_style w image_data sref_code) as [result|e] eqn:Hc.
    + cbn. intro E. inversion E; subst. left. cbn. repeat split. now exists image_data.
    + destruct (auto_fallback (settings w)); [|discriminate]. cbn [snd].
      destruct (offline_analyze_style w image_paths sref_code (settings w));
        [|discriminate].
      intro E. inversion E; subst. right. cbn. tauto.
  - cbn [snd].
    destruct (offline_analyze_style w image_paths sref_code (settings w)); [|discriminate].
    intro E. inversion E; subst. right. cbn. tauto.
Qed.

Lemma analyze_style_result_witness :
  ("offline" = "cloud" /\ true = false
   /\ exists image_data,
        claude_analyze_style (cloud_fails_offline_ready true) image_data "1234567890"
        = Ok "{}")
  \/ ("offline" = "offline" /\ true = use_api (cloud_fails_offline_ready true)
      /\ offline_analyze_style (cloud_fails_offline_ready true) three_images "1234567890"
           (settings (cloud_fails_offline_ready true)) = Ok "{}").
Proof.
  exact (analyze_style_result (fun s => s) (cloud_fails_offline_ready true) three_images
           "1234567890"
           {| data := "{}"; mode_used := "offline"; fallback_used := true |} eq_refl).
Defined.

(** X23. In one run the command calls the cloud client at most once and the
    offline analyzer at most once, and it calls the cloud client only when an
    API key is set and the mode is not offline. *)
Theorem at_most_one_call_each {f32 : Type} (f32_to_string : f32 -> string)
    (w : World f32) (image_paths : list string) (sref_code : string) :
  cloud_calls (fst (analyze_style f32_to_string w image_paths sref_code)) <= 1
  /\ offline_calls (fst (analyze_style f32_to_string w image_paths sref_code)) <= 1
  /\ (cloud_calls (fst (analyze_style f32_to_string w image_paths sref_code)) = 1 ->
      analysis_mode (settings w) <> Offline
      /\ (var_is_ok w "CLAUDE_API_KEY" = true \/ var_is_ok w "ANTHROPIC_API_KEY" = true)).
Proof.
  rewrite analyze_style_cases.
  pose proof (encode_images_offline_calls f32 w image_paths) as Ho.
  pose proof (encode_images_cloud_calls f32 w image_paths) as Hcl.
  assert (Hkey : use_api w = true ->
                 analysis_mode (settings w) <> Offline
                 /\ (var_is_ok w "CLAUDE_API_KEY" = true
                     \/ var_is_ok w "ANTHROPIC_API_KEY" = true)).
  { unfold use_api. destruct (analysis_mode (settings w)); intro E;
      try discriminate; (split; [discriminate | now apply orb_prop]). }
  destruct (use_api w) eqn:Hapi.
  - destruct (encode_images w image_paths) as [log [image_data|e]]; cbn [fst] in *.
    + destruct (claude_analyze_style w image_data sref_code);
        [|destruct (auto_fallback (settings w))];
        cbn [fst]; rewrite cloud_calls_app, offline_calls_app, Ho, Hcl; cbn;
        repeat split; try lia; intros; now apply Hkey.
    + rewrite Ho, Hcl. repeat split; lia.
  - cbn. repeat split; try lia; discriminate.
Qed.

(** ** The model manager *)

Section ModelManagerFacts.

Import ModelManager.

Lemma above_length (q p : path) : above q p = true -> List.length q <= List.length p.
Proof.
  revert p. induction q as [|x q IH]; intros [|y p]; cbn; try lia; try discriminate.
  intro H. apply andb_prop in H as [_ H]. specialize (IH p H). lia.
Qed.

Lemma above_refl (p : path) : above p p = true.
Proof. induction p as [|x p IH]; cbn; [reflexivity | now rewrite String.eqb_refl]. Qed.

Lemma above_below (p : path) (name : string) : above (join p name) p = false.
Proof.
  destruct (above (join p name) p) eqn:E; [|reflexivity].
  apply above_length in E. unfold join in E. rewrite length_app in E. cbn in E. lia.
Qed.

Lemma first_missing_forallb (fs : Fs) (model_path : path) (names : list string) :
  first_missing fs model_path names
  = negb (forallb (fun f => fs.(present) (join model_path f)) names).
Proof.
  induction names as [|f names IH]; [reflexivity|]. cbn [first_missing forallb].
  destruct (present fs (join model_path f)); cbn; [exact IH | reflexivity].
Qed.

Lemma from_variant_files (v : ModelVariant) : files (from_variant v) = model_files.
Proof. destruct v; reflexivity. Qed.

(** What the cache directory function leaves unchanged, and where it may
    add directories. *)
Lemma get_model_cache_dir_effect (custom_dir : option path) (fs fs' : Fs) (dir : path) :
  get_model_cache_dir custom_dir fs = (fs', Ok dir) ->
  platform_cache_dir fs' = platform_cache_dir fs
  /\ create_error fs' = create_error fs
  /\ (forall q, present fs' q = above q dir && negb (match custom_dir with
                                                    | Some _ => true
                                                    | None => false
                                                    end)
                                || present fs q).
Proof.
  unfold get_model_cache_dir, create_dir_all. destruct custom_dir as [d|].
  - intro E. inversion E; subst. repeat split. intro q. now rewrite andb_false_r.
  - destruct (platform_cache_dir fs) as [d|]; [|discriminate].
    destruct (create_error fs _); [discriminate|].
    intro E. inversion E; subst. cbn. repeat split. intro q. now rewrite andb_true_r.
Qed.

Lemma get_model_cache_dir_again (custom_dir : option path) (fs fs' other : Fs) (dir : path) :
  get_model_cache_dir custom_dir fs = (fs', Ok dir) ->
  platform_cache_dir other = platform_cache_dir fs ->
  create_error other = create_error fs ->
  exists other', get_model_cache_dir custom_dir other = (other', Ok dir).
Proof.
  unfold get_model_cache_dir, create_dir_all. intros E Hp Hc. rewrite Hp, Hc.
  destruct custom_dir as [d|].
  - inversion E; subst. now eexists.
  - destruct (platform_cache_dir fs) as [d|]; [|discriminate].
    destruct (create_error fs _); [discriminate|]. inversion E; subst. now eexists.
Qed.

End ModelManagerFacts.

(** X24. With a custom cache directory, [check_model_status] reports the model
    as ready exactly when the directory of the variant and the four model
    files in it exist, and it leaves the file system as it is. *)
Theorem check_model_status_ready_iff (v : ModelVariant) (dir : ModelManager.path)
    (fs : ModelManager.Fs) :
  let model_path := ModelManager.join dir (ModelManager.variant_name v) in
  fst (ModelManager.check_model_status v (Some dir) fs) = fs
  /\ (snd (ModelManager.check_model_status v (Some dir) fs) = Ok ModelManager.Ready
      <-> ModelManager.present fs model_path = true
          /\ Forall (fun f => ModelManager.present fs (ModelManager.join model_path f) = true)
                    ["model.safetensors"; "config.json"; "tokenizer.json";
                     "tokenizer_config.json"]).
Proof.
  cbn zeta. unfold ModelManager.check_model_status, ModelManager.get_model_path,
    ModelManager.get_model_cache_dir.
  rewrite first_missing_forallb, from_variant_files.
  destruct (ModelManager.present fs _) eqn:P; cbn [negb fst snd].
  2:{ split; [reflexivity|]. split; [discriminate | intros [E _]; discriminate]. }
  destruct (forallb _ ModelManager.model_files) eqn:F; cbn [negb fst snd];
    (split; [reflexivity|]).
  - split; [intros _|reflexivity]. split; [reflexivity|].
    apply Forall_forall. rewrite forallb_forall in F. exact F.
  - split; [discriminate|]. intros [_ H]. exfalso.
    assert (F' : forallb (fun f => ModelManager.present fs
                                     (ModelManager.join
                                        (ModelManager.join dir (ModelManager.variant_name v)) f))
                         ModelManager.model_files = true)
      by (apply forallb_forall; rewrite Forall_forall in H; exact H).
    congruence.
Qed.

(** X25. The download function creates the model directory and nothing in it:
    when a model file is missing before [download_model], the model is still
    reported as not downloaded after it has succeeded. *)
Theorem download_model_leaves_not_downloaded (v : ModelVariant)
    (custom_dir : option ModelManager.path) (fs fs1 fs' : ModelManager.Fs)
    (model_path : ModelManager.path) (file : string) :
  ModelManager.get_model_path v custom_dir fs = (fs1, Ok model_path) ->
  In file ModelManager.model_files ->
  ModelManager.present fs (ModelManager.join model_path file) = false ->
  ModelManager.download_model v custom_dir fs = (fs', Ok tt) ->
  ModelManager.present fs' model_path = true
  /\ snd (ModelManager.check_model_status v custom_dir fs') = Ok ModelManager.NotDownloaded.
Proof.
  intros Hpath Hin Hmissing Hdl.
  unfold ModelManager.download_model in Hdl. rewrite Hpath in Hdl.
  unfold ModelManager.create_dir_all in Hdl.
  destruct (ModelManager.create_error fs1 model_path) eqn:Hce; [discriminate|].
  inversion Hdl; subst fs'. clear Hdl.
  unfold ModelManager.get_model_path in Hpath.
  destruct (ModelManager.get_model_cache_dir custom_dir fs) as [fs0 [cache|e]] eqn:Hcache;
    [|discriminate].
  inversion Hpath; subst fs0 model_path. clear Hpath.
  destruct (get_model_cache_dir_effect _ _ _ _ Hcache) as (Hp1 & Hc1 & Hpres1).
  set (mp := ModelManager.join cache (ModelManager.variant_name v)) in *.
  set (fs' := {| ModelManager.present := fun q => ModelManager.above q mp
                                                  || ModelManager.present fs1 q;
                 ModelManager.platform_cache_dir := ModelManager.platform_cache_dir fs1;
                 ModelManager.create_error := ModelManager.create_error fs1 |}).
  split; [cbn; now rewrite above_refl|].
  destruct (get_model_cache_dir_again custom_dir fs fs1 fs' cache Hcache Hp1 Hc1)
    as [fs2 Hagain].
  destruct (get_model_cache_dir_effect _ _ _ _ Hagain) as (_ & _ & Hpres2).
  unfold ModelManager.check_model_status, ModelManager.get_model_path. rewrite Hagain.
  fold mp.
  assert (Hmp : ModelManager.present fs2 mp = true).
  { rewrite Hpres2. cbn. rewrite above_refl. now rewrite orb_true_r. }
  rewrite Hmp. cbn [negb]. rewrite first_missing_forallb, from_variant_files.
  assert (Hfile : ModelManager.present fs2 (ModelManager.join mp file) = false).
  { rewrite Hpres2. cbn [ModelManager.present fs']. rewrite Hpres1, above_below, Hmissing.
    assert (Hlong : ModelManager.above (ModelManager.join mp file) cache = false).
    { destruct (ModelManager.above (ModelManager.join mp file) cache) eqn:E; [|reflexivity].
      apply above_length in E. unfold mp, ModelManager.join in E.
      rewrite !length_app in E. cbn in E. lia. }
    rewrite Hlong. reflexivity. }
  assert (Hall : forallb (fun f => ModelManager.present fs2 (ModelManager.join mp f))
                         ModelManager.model_files = false).
  { destruct (forallb _ ModelManager.model_files) eqn:F; [|reflexivity].
    rewrite forallb_forall in F. rewrite (F file Hin) in Hfile. discriminate. }
  rewrite Hall. reflexivity.
Qed.

Lemma download_model_leaves_not_downloaded_witness :
  ModelManager.present
    (fst (ModelManager.download_model Qwen2VL7B None fs_without_model))
    ["home"; "me"; ".cache"; "rzem-mj-lora"; "models"; "qwen2-vl-7b"] = true
  /\ snd (ModelManager.check_model_status Qwen2VL7B None
            (fst (ModelManager.download_model Qwen2VL7B None fs_without_model)))
     = Ok ModelManager.NotDownloaded.
Proof.
  eapply (download_model_leaves_not_downloaded Qwen2VL7B None fs_without_model _ _ _
            "config.json").
  - reflexivity.
  - right. left. reflexivity.
  - reflexivity.
  - reflexivity.
Defined.

(** ** The offline analyzer *)

Section AnalyzerFacts.

Import ModelManager.

Variable f32 : Type.
Variable f32_lt : f32 -> f32 -> bool.
Variable f32_of_Z : Z -> f32.
Variable DynamicImage : Type.
Variable path_debug : path -> string.
Variable m : OfflineAnalyzer.Machine f32 DynamicImage.


Lemma load_images_steps (image_paths : list string) :
  forall s, In s (fst (OfflineAnalyzer.load_images m image_paths)) -> exists p, s = OfflineAnalyzer.OpenImage p.
Proof.
  induction image_paths as [|p rest IH]; cbn [OfflineAnalyzer.load_images]; [intros s []|].
  destruct (OfflineAnalyzer.image_open m p); [|intros s [<-|[]]; now eexists].
  destruct (OfflineAnalyzer.load_images m rest) as [log [imgs|e]]; cbn [fst] in *;
    intros s [<-|Hs]; try (now eexists); now apply IH.
Qed.

Lemma load_images_ok (image_paths : list string) (log : list (OfflineAnalyzer.step DynamicImage))
    (images : list DynamicImage) :
  OfflineAnalyzer.load_images m image_paths = (log, Ok images) ->
  map (OfflineAnalyzer.image_open m) image_paths = map Ok images
  /\ log = map OfflineAnalyzer.OpenImage image_paths.
Proof.
  revert log images. induction image_paths as [|p rest IH]; intros log images;
    cbn [OfflineAnalyzer.load_images].
  - intro E. inversion E; subst. now split.
  - destruct (OfflineAnalyzer.image_open m p) as [img|e] eqn:O; [|discriminate].
    destruct (OfflineAnalyzer.load_images m rest) as [log' [imgs|e]]; [|discriminate].
    intro E. inversion E; subst. destruct (IH log' imgs eq_refl) as [H1 H2].
    cbn [map]. now rewrite O, H1, H2.
Qed.

(** The analysis, case by case. *)
Lemma analyze_cases (image_paths : list string) (sref_code : string)
    (settings : AppSettings) (fs : Fs) (s : OfflineAnalyzer.step DynamicImage) :
  In s (snd (fst (OfflineAnalyzer.analyze_style f32_lt f32_of_Z path_debug m image_paths sref_code settings fs))) ->
  (exists p, s = OfflineAnalyzer.OpenImage p) \/ (exists mp, s = OfflineAnalyzer.LoadModel mp)
  \/ (exists images,
        s = OfflineAnalyzer.Infer images
              (OfflineAnalyzer.build_qwen_prompt sref_code (List.length image_paths))
        /\ map (OfflineAnalyzer.image_open m) image_paths = map Ok images).
Proof.
  unfold OfflineAnalyzer.analyze_style.
  destruct (OfflineAnalyzer.check_system_requirements _ _ _ _); [|intros []].
  destruct (check_model_status _ _ fs) as [fs1 [status|e]]; [|intros []].
  destruct status; try (intros []).
  destruct (get_model_path _ _ fs1) as [fs2 [mp|e]]; [|intros []].
  destruct (OfflineAnalyzer.load_images m image_paths) as [log [images|e]] eqn:L.
  2:{ cbn. intro H. left. apply (load_images_steps image_paths). now rewrite L. }
  destruct (load_images_ok _ _ _ L) as [Hopen Hlog].
  assert (Hlen : List.length images = List.length image_paths).
  { apply (f_equal (@List.length _)) in Hopen. now rewrite !length_map in Hopen. }
  assert (Hl : forall s, In s log -> exists p, s = OfflineAnalyzer.OpenImage p).
  { intros s' Hs'. apply (load_images_steps image_paths). now rewrite L. }
  rewrite Hlen.
  destruct (OfflineAnalyzer.inference_new _ _ _); cbn [fst snd].
  - destruct (OfflineAnalyzer.analyze_images m images _); cbn [fst snd]; intro H;
      apply in_app_or in H as [H|[<-|[<-|[]]]];
      try (left; now apply Hl); try (right; left; now eexists);
      right; right; now exists images.
  - intro H. apply in_app_or in H as [H|[<-|[]]]; [left; now apply Hl | right; left; now eexists].
Qed.

End AnalyzerFacts.

(** X26. When the free memory is below what the chosen model needs, the
    offline analysis fails with the memory error at once: it does not touch
    the file system, opens no image and runs no inference. *)
Theorem insufficient_memory_stops_first {f32 DynamicImage : Type}
    (f32_lt : f32 -> f32 -> bool) (f32_of_Z : Z -> f32)
    (path_debug : ModelManager.path -> string)
    (m : OfflineAnalyzer.Machine f32 DynamicImage)
    (image_paths : list string) (sref_code : string) (s : AppSettings)
    (fs : ModelManager.Fs) :
  f32_lt (OfflineAnalyzer.get_available_memory_gb m)
         (OfflineAnalyzer.required_gb f32_of_Z (offline_model_variant s)) = true ->
  OfflineAnalyzer.analyze_style f32_lt f32_of_Z path_debug m
    image_paths sref_code s fs
  = (fs, [],
     Err (InsufficientMemory
            (OfflineAnalyzer.required_gb f32_of_Z (offline_model_variant s))
            (OfflineAnalyzer.get_available_memory_gb m))).
Proof.
  intro Hlow. unfold OfflineAnalyzer.analyze_style, OfflineAnalyzer.check_system_requirements.
  now rewrite Hlow.
Qed.

Lemma insufficient_memory_stops_first_witness :
  OfflineAnalyzer.analyze_style Z.ltb (fun z => z) (fun p => Js.join "/" p)
    (machine_with 8) three_images "1234567890" (settings_in_models Qwen2VL7B) fs_with_model
  = (fs_with_model, [], Err (InsufficientMemory 12%Z 8%Z)).
Proof.
  apply (insufficient_memory_stops_first Z.ltb (fun z => z) (fun p => Js.join "/" p)
           (machine_with 8) three_images "1234567890" (settings_in_models Qwen2VL7B)).
  reflexivity.
Defined.

(** X27. When the memory suffices and the model is not reported as ready, the
    offline analysis fails with the model-not-found error, without opening an
    image or running inference. *)
Theorem model_not_ready_stops {f32 DynamicImage : Type}
    (f32_lt : f32 -> f32 -> bool) (f32_of_Z : Z -> f32)
    (path_debug : ModelManager.path -> string)
    (m : OfflineAnalyzer.Machine f32 DynamicImage)
    (image_paths : list string) (sref_code : string) (s : AppSettings)
    (fs : ModelManager.Fs) (status : ModelManager.ModelStatus) :
  f32_lt (OfflineAnalyzer.get_available_memory_gb m)
         (OfflineAnalyzer.required_gb f32_of_Z (offline_model_variant s)) = false ->
  snd (ModelManager.check_model_status (offline_model_variant s)
         (option_map ModelManager.path_of (model_cache_dir s)) fs) = Ok status ->
  status <> ModelManager.Ready ->
  snd (OfflineAnalyzer.analyze_style f32_lt f32_of_Z path_debug m
         image_paths sref_code s fs) = Err ModelNotFound
  /\ snd (fst (OfflineAnalyzer.analyze_style f32_lt f32_of_Z path_debug m
                 image_paths sref_code s fs)) = [].
Proof.
  intros Hmem Hstatus Hnot.
  unfold OfflineAnalyzer.analyze_style, OfflineAnalyzer.check_system_requirements.
  rewrite Hmem.
  destruct (ModelManager.check_model_status _ _ fs) as [fs1 [st|e]]; [|discriminate].
  cbn [snd] in Hstatus. inversion Hstatus; subst.
  destruct status; first [now split | contradiction].
Qed.

Lemma model_not_ready_stops_witness :
  snd (OfflineAnalyzer.analyze_style Z.ltb (fun z => z) (fun p => Js.join "/" p)
         (machine_with 16) three_images "1234567890" (settings_in_models Qwen2VL7B)
         fs_with_model) = Err ModelNotFound
  /\ snd (fst (OfflineAnalyzer.analyze_style Z.ltb (fun z => z)
                 (fun p => Js.join "/" p) (machine_with 16) three_images "1234567890"
                 (settings_in_models Qwen2VL7B) fs_with_model)) = [].
Proof.
  apply (model_not_ready_stops Z.ltb (fun z => z) (fun p => Js.join "/" p)
           (machine_with 16) three_images "1234567890" (settings_in_models Qwen2VL7B)
           fs_with_model ModelManager.NotDownloaded);
    [reflexivity | reflexivity | discriminate].
Defined.

(** X28. Inference runs only when the memory check has passed, the model is
    reported as ready and every image has opened; it gets the opened images
    and the prompt built from the style code and the number of images. *)
Theorem inference_after_preflight {f32 DynamicImage : Type}
    (f32_lt : f32 -> f32 -> bool) (f32_of_Z : Z -> f32)
    (path_debug : ModelManager.path -> string)
    (m : OfflineAnalyzer.Machine f32 DynamicImage)
    (image_paths : list string) (sref_code : string) (s : AppSettings)
    (fs : ModelManager.Fs) (images : list DynamicImage) (prompt : string) :
  In (OfflineAnalyzer.Infer images prompt)
     (snd (fst (OfflineAnalyzer.analyze_style f32_lt f32_of_Z path_debug m
                  image_paths sref_code s fs))) ->
  f32_lt (OfflineAnalyzer.get_available_memory_gb m)
         (OfflineAnalyzer.required_gb f32_of_Z (offline_model_variant s)) = false
  /\ snd (ModelManager.check_model_status (offline_model_variant s)
            (option_map ModelManager.path_of (model_cache_dir s)) fs)
     = Ok ModelManager.Ready
  /\ map (OfflineAnalyzer.image_open m) image_paths = map Ok images
  /\ prompt = OfflineAnalyzer.build_qwen_prompt sref_code (List.length image_paths).
Proof.
  intro Hin.
  destruct (analyze_cases f32 f32_lt f32_of_Z DynamicImage path_debug m _ _ _ _ _ Hin)
    as [[p E]|[[mp E]|(imgs & E & Hopen)]]; try discriminate.
  inversion E; subst. clear E.
  unfold OfflineAnalyzer.analyze_style, OfflineAnalyzer.check_system_requirements in Hin.
  destruct (f32_lt _ _); [destruct Hin|]. split; [reflexivity|].
  destruct (ModelManager.check_model_status _ _ fs) as [fs1 [status|e]]; [|destruct Hin].
  destruct status; try (destruct Hin). repeat split. exact Hopen.
Qed.

Lemma inference_after_preflight_witness :
  Z.ltb 8 4 = false
  /\ snd (ModelManager.check_model_status Qwen2VL2B (Some ["models"]) fs_with_model)
     = Ok ModelManager.Ready
  /\ map (OfflineAnalyzer.image_open (machine_with 8)) three_images = map Ok three_images
  /\ OfflineAnalyzer.build_qwen_prompt "1234567890" 3
     = OfflineAnalyzer.build_qwen_prompt "1234567890" (List.length three_images).
Proof.
  apply (inference_after_preflight Z.ltb (fun z => z) (fun p => Js.join "/" p)
           (machine_with 8) three_images "1234567890" (settings_in_models Qwen2VL2B)
           fs_with_model three_images (OfflineAnalyzer.build_qwen_prompt "1234567890" 3)).
  cbn. right. right. right. right. left. reflexivity.
Defined.

(** X29. The command and the analyzer together: in offline mode on a machine
    with too little free memory the command fails with the memory error of
    the offline analyzer behind the prefix [Offline analysis error: ]. *)
Theorem offline_mode_insufficient_memory {f32 DynamicImage : Type}
    (f32_to_string : f32 -> string)
    (f32_lt : f32 -> f32 -> bool) (f32_of_Z : Z -> f32)
    (path_debug : ModelManager.path -> string)
    (m : OfflineAnalyzer.Machine f32 DynamicImage) (fs : ModelManager.Fs)
    (w : World f32) (image_paths : list string) (sref_code : string) :
  offline_analyze_style w image_paths sref_code (settings w)
    = snd (OfflineAnalyzer.analyze_style f32_lt f32_of_Z path_debug m
             image_paths sref_code (settings w) fs) ->
  analysis_mode (settings w) = Offline ->
  f32_lt (OfflineAnalyzer.get_available_memory_gb m)
         (OfflineAnalyzer.required_gb f32_of_Z (offline_model_variant (settings w)))
    = true ->
  snd (analyze_style f32_to_string w image_paths sref_code)
  = Err ("Offline analysis error: Insufficient memory. Requires "
           ++ f32_to_string
                (OfflineAnalyzer.required_gb f32_of_Z (offline_model_variant (settings w)))
           ++ "GB, available "
           ++ f32_to_string (OfflineAnalyzer.get_available_memory_gb m) ++ "GB")%string.
Proof.
  intros Hlocal Hmode Hlow. rewrite analyze_style_cases.
  assert (Hapi : use_api w = false) by (unfold use_api; now rewrite Hmode).
  rewrite Hapi, Hlocal. cbn [snd].
  unfold OfflineAnalyzer.analyze_style, OfflineAnalyzer.check_system_requirements.
  rewrite Hlow. reflexivity.
Qed.

Lemma offline_mode_insufficient_memory_witness :
  snd (analyze_style Js.Z_to_string
         (world_on (machine_with 2) fs_with_model (settings_in_models Qwen2VL2B))
         three_images "1234567890")
  = Err "Offline analysis error: Insufficient memory. Requires 4GB, available 2GB".
Proof.
  apply (offline_mode_insufficient_memory Js.Z_to_string Z.ltb (fun z => z)
           (fun p => Js.join "/" p) (machine_with 2) fs_with_model
           (world_on (machine_with 2) fs_with_model (settings_in_models Qwen2VL2B))
           three_images "1234567890");
    reflexivity.
Defined.

(** ** The prompt of the offline model *)

Section PromptFacts.

Lemma prefix_append (x t : string) : prefix x (x ++ t) = true.
Proof.
  induction x as [|c x IH]; [now destruct t|].
  cbn. destruct (ascii_dec c c); [exact IH | congruence].
Qed.

Lemma prefix_common (a b t : string) : prefix b t = true -> prefix (a ++ b) (a ++ t) = true.
Proof.
  intro H. induction a as [|c a IH]; [exact H|].
  cbn. destruct (ascii_dec c c); [exact IH | congruence].
Qed.

Lemma includes_prefix (x s : string) : prefix x s = true -> includes x s = true.
Proof. intro H. destruct s; cbn [includes]; now rewrite H. Qed.

Lemma includes_skip (a s x : string) : includes x s = true -> includes x (a ++ s) = true.
Proof.
  intro H. induction a as [|c a IH]; [exact H|].
  cbn [String.append includes]. rewrite IH. apply orb_true_r.
Qed.

End PromptFacts.

(** X30. The prompt for the offline model names the style code behind
    [SREF code ] and behind [--sref ], tells the number of images, and holds
    an image marker when there is an image. *)
Theorem build_qwen_prompt_mentions (sref_code : string) (num_images : nat) :
  includes ("SREF code " ++ sref_code)
           (OfflineAnalyzer.build_qwen_prompt sref_code num_images) = true
  /\ includes (nat_to_string num_images ++ " style reference images")
              (OfflineAnalyzer.build_qwen_prompt sref_code num_images) = true
  /\ includes ("--sref " ++ sref_code)
              (OfflineAnalyzer.build_qwen_prompt sref_code num_images) = true
  /\ includes "<|vision_start|>"
              (OfflineAnalyzer.build_qwen_prompt sref_code (S num_images)) = true.
Proof.
  unfold OfflineAnalyzer.build_qwen_prompt. split; [|split; [|split]].
  - do 9 apply includes_skip.
    change (" style reference images for Midjourney SREF code "
              ++ sref_code ++ ?r)%string
      with (" style reference images for Midjourney "
              ++ "SREF code " ++ sref_code ++ r)%string.
    apply includes_skip, includes_prefix, prefix_common, prefix_append.
  - do 8 apply includes_skip. apply includes_prefix, prefix_common. reflexivity.
  - do 20 apply includes_skip.
    change ("3. Use format: {{subjects}} with {{modifiers}} --sref " ++ sref_code ++ ?r)%string
      with ("3. Use format: {{subjects}} with {{modifiers}} "
              ++ "--sref " ++ sref_code ++ r)%string.
    apply includes_skip, includes_prefix, prefix_common, prefix_append.
  - do 6 apply includes_skip. cbn [OfflineAnalyzer.repeat_string].
    rewrite append_assoc. apply includes_prefix. reflexivity.
Qed.

(** A run in which the cloud client is called. *)
Lemma at_most_one_call_each_witness :
  analysis_mode (settings (cloud_fails_offline_ready true)) <> Offline
  /\ (var_is_ok (cloud_fails_offline_ready true) "CLAUDE_API_KEY" = true
      \/ var_is_ok (cloud_fails_offline_ready true) "ANTHROPIC_API_KEY" = true).
Proof.
  apply (proj2 (proj2 (at_most_one_call_each (fun s => s) (cloud_fails_offline_ready true)
                         three_images "1234567890"))).
  reflexivity.
Defined.
